(** * smithy: request routing and git-content resolution

    A shallow embedding of the handlers of smithy (a read-only web viewer
    for git repositories, written in Go on gin and go-git) and the
    properties of its dispatcher, revision resolver, tree navigator,
    diff/patch engine, reference collector and log pager. *)

From Stdlib Require Import List String Ascii ZArith Lia Bool Arith.
From Stdlib Require Import Sorting.Sorted Sorting.Permutation.
From stdpp Require Import base gmap strings sorting.
Import ListNotations.

Local Open Scope string_scope.
Local Open Scope list_scope.

(** ** Go strings

    A Go string is a sequence of bytes; [string] over [ascii] is the same
    data. *)

Module strings.

(** [strings.HasPrefix(s, prefix)] *)
Definition HasPrefix (s prefix : string) : bool := String.prefix prefix s.

(** [strings.HasSuffix(s, suffix)] *)
Definition HasSuffix (s suffix : string) : bool :=
  Nat.leb (String.length suffix) (String.length s) &&
  String.eqb
    (substring (String.length s - String.length suffix) (String.length suffix) s)
    suffix.

(** [strings.Compare(a, b)]: -1, 0 or +1 by lexicographic byte order. *)
Definition Compare (a b : string) : Z :=
  match String.compare a b with
  | Lt => (-1)%Z
  | Eq => 0%Z
  | Gt => 1%Z
  end.

(** [strings.Split(s, sep)] for a one-byte separator: the pieces between
    the separators, always at least one piece. *)
Fixpoint Split1 (s : string) (sep : ascii) : list string :=
  match s with
  | EmptyString => [EmptyString]
  | String c s' =>
      if Ascii.eqb c sep then EmptyString :: Split1 s' sep
      else match Split1 s' sep with
           | [] => [String c EmptyString]
           | piece :: pieces => String c piece :: pieces
           end
  end.

(** [strings.Join(elems, sep)] *)
Definition Join (elems : list string) (sep : string) : string :=
  String.concat sep elems.

End strings.

(** ** Package regexp

    The route patterns are Go regular expressions.  The fragment the
    patterns use is modelled: literals, [.], [^], [$], bracket classes of
    characters and ranges, backslash escapes, greedy [+] and [*], and named
    capture groups [(?P<name>...)].  Matching follows the leftmost-first
    (Perl-like, greedy) preference that package regexp guarantees, written
    as a backtracking matcher in continuation-passing style. *)

Module regexp.

(** The parsed expression, with the operator names of regexp/syntax. *)
Inductive Syntax : Type :=
| OpEmptyMatch
| OpLiteral (c : ascii)
| OpCharClass (ranges : list (ascii * ascii))
| OpAnyCharNotNL
| OpBeginText
| OpEndText
| OpCapture (index : nat) (name : string) (sub : Syntax)
| OpStar (sub : Syntax)
| OpPlus (sub : Syntax)
| OpConcat (a b : Syntax).

(** *** Parser *)

(** Where the parser is inside the pattern. *)
Inductive Mode : Type :=
| MNormal
| MEscape                              (* after a backslash *)
| MGroupOpen                           (* after an opening parenthesis *)
| MGroupQ                              (* after "(?" *)
| MGroupP                              (* after "(?P" *)
| MGroupName (name : string)           (* inside "(?P<...", name reversed *)
| MClassStart (rs : list (ascii * ascii))
| MClassHave (rs : list (ascii * ascii)) (lo : ascii)
| MClassDash (rs : list (ascii * ascii)) (lo : ascii)
| MClassEscape (rs : list (ascii * ascii)) (lo : option ascii).

(** An open group: its capture index and name, and the items parsed so
    far in it, last first. *)
Record Frame : Type := mkFrame {
  frame_index : nat;
  frame_name : string;
  frame_items : list Syntax
}.

Record PState : Type := mkPState {
  mode : Mode;
  current : list Syntax;     (* items of the innermost open level, last first *)
  stack : list Frame;        (* enclosing open groups, innermost first *)
  ncap : nat                 (* capture groups opened so far *)
}.

Definition concat_items (items_rev : list Syntax) : Syntax :=
  match items_rev with
  | [] => OpEmptyMatch
  | last :: before => fold_left (fun acc x => OpConcat x acc) before last
  end.

Definition push (st : PState) (x : Syntax) : PState :=
  mkPState MNormal (x :: current st) (stack st) (ncap st).

Definition set_mode (st : PState) (m : Mode) : PState :=
  mkPState m (current st) (stack st) (ncap st).

Fixpoint rev_string (acc s : string) : string :=
  match s with
  | EmptyString => acc
  | String c s' => rev_string (String c acc) s'
  end.

Definition step (st : PState) (c : ascii) : option PState :=
  match mode st with
  | MNormal =>
      if Ascii.eqb c "\" then Some (set_mode st MEscape)
      else if Ascii.eqb c "^" then Some (push st OpBeginText)
      else if Ascii.eqb c "$" then Some (push st OpEndText)
      else if Ascii.eqb c "." then Some (push st OpAnyCharNotNL)
      else if Ascii.eqb c "[" then Some (set_mode st (MClassStart []))
      else if Ascii.eqb c "(" then Some (set_mode st MGroupOpen)
      else if Ascii.eqb c ")" then
        match stack st with
        | [] => None
        | f :: outer =>
            Some (mkPState MNormal
                    (OpCapture (frame_index f) (frame_name f)
                       (concat_items (current st)) :: frame_items f)
                    outer (ncap st))
        end
      else if Ascii.eqb c "+" then
        match current st with
        | [] => None
        | x :: before => Some (mkPState MNormal (OpPlus x :: before) (stack st) (ncap st))
        end
      else if Ascii.eqb c "*" then
        match current st with
        | [] => None
        | x :: before => Some (mkPState MNormal (OpStar x :: before) (stack st) (ncap st))
        end
      else if Ascii.eqb c "?" || Ascii.eqb c "|" || Ascii.eqb c "{" then None
      else Some (push st (OpLiteral c))
  | MEscape => Some (push st (OpLiteral c))
  | MGroupOpen => if Ascii.eqb c "?" then Some (set_mode st MGroupQ) else None
  | MGroupQ => if Ascii.eqb c "P" then Some (set_mode st MGroupP) else None
  | MGroupP => if Ascii.eqb c "<" then Some (set_mode st (MGroupName "")) else None
  | MGroupName name =>
      if Ascii.eqb c ">" then
        Some (mkPState MNormal []
                (mkFrame (S (ncap st)) (rev_string "" name) (current st) :: stack st)
                (S (ncap st)))
      else Some (set_mode st (MGroupName (String c name)))
  | MClassStart rs =>
      if Ascii.eqb c "\" then Some (set_mode st (MClassEscape rs None))
      else if Ascii.eqb c "]" then Some (push st (OpCharClass (rev rs)))
      else Some (set_mode st (MClassHave rs c))
  | MClassHave rs lo =>
      if Ascii.eqb c "\" then Some (set_mode st (MClassEscape ((lo, lo) :: rs) None))
      else if Ascii.eqb c "]" then Some (push st (OpCharClass (rev ((lo, lo) :: rs))))
      else if Ascii.eqb c "-" then Some (set_mode st (MClassDash rs lo))
      else Some (set_mode st (MClassHave ((lo, lo) :: rs) c))
  | MClassDash rs lo =>
      if Ascii.eqb c "\" then Some (set_mode st (MClassEscape rs (Some lo)))
      else if Ascii.eqb c "]" then
        Some (push st (OpCharClass (rev (("-"%char, "-"%char) :: (lo, lo) :: rs))))
      else Some (set_mode st (MClassStart ((lo, c) :: rs)))
  | MClassEscape rs None => Some (set_mode st (MClassHave rs c))
  | MClassEscape rs (Some lo) => Some (set_mode st (MClassStart ((lo, c) :: rs)))
  end.

Fixpoint parse_from (st : PState) (pattern : string) : option Syntax :=
  match pattern with
  | EmptyString =>
      match mode st, stack st with
      | MNormal, [] => Some (concat_items (current st))
      | _, _ => None
      end
  | String c rest =>
      match step st c with
      | Some st' => parse_from st' rest
      | None => None
      end
  end.

(** [syntax.Parse(pattern, syntax.Perl)] on the fragment above; [None]
    is a parse error (or a construct outside the fragment). *)
Definition Parse (pattern : string) : option Syntax :=
  parse_from (mkPState MNormal [] [] 0) pattern.

(** *** Matcher *)

(** Capture registers: group index to (start, end) byte offsets, most
    recent binding first. *)
Definition Caps : Type := list (nat * (nat * nat)).

Definition Cont : Type := nat -> string -> Caps -> option Caps.

Definition in_range (c : ascii) (r : ascii * ascii) : bool :=
  (nat_of_ascii (fst r) <=? nat_of_ascii c)%nat && (nat_of_ascii c <=? nat_of_ascii (snd r))%nat.

Definition in_class (c : ascii) (rs : list (ascii * ascii)) : bool :=
  existsb (in_range c) rs.

Definition newline : ascii := ascii_of_nat 10.

(** Greedy repetition: as many rounds of [body] as possible, each round
    consuming input, backing off one round at a time. *)
Fixpoint loop (fuel : nat) (body : nat -> string -> Caps -> Cont -> option Caps)
    (pos : nat) (rest : string) (caps : Caps) (k : Cont) : option Caps :=
  match fuel with
  | O => k pos rest caps
  | S fuel' =>
      match body pos rest caps
              (fun pos' rest' caps' =>
                 if (pos <? pos')%nat then loop fuel' body pos' rest' caps' k else None) with
      | Some r => Some r
      | None => k pos rest caps
      end
  end.

(** [run re pos rest caps k]: match [re] at offset [pos], where [rest]
    is the input from [pos] on, then continue with [k]. *)
Fixpoint run (re : Syntax) (pos : nat) (rest : string) (caps : Caps) (k : Cont)
    : option Caps :=
  match re with
  | OpEmptyMatch => k pos rest caps
  | OpLiteral c =>
      match rest with
      | String c' rest' => if Ascii.eqb c c' then k (S pos) rest' caps else None
      | EmptyString => None
      end
  | OpCharClass rs =>
      match rest with
      | String c' rest' => if in_class c' rs then k (S pos) rest' caps else None
      | EmptyString => None
      end
  | OpAnyCharNotNL =>
      match rest with
      | String c' rest' => if Ascii.eqb c' newline then None else k (S pos) rest' caps
      | EmptyString => None
      end
  | OpBeginText => if (pos =? 0)%nat then k pos rest caps else None
  | OpEndText =>
      match rest with
      | EmptyString => k pos rest caps
      | String _ _ => None
      end
  | OpCapture i _ sub =>
      run sub pos rest caps
        (fun pos' rest' caps' => k pos' rest' ((i, (pos, pos')) :: caps'))
  | OpStar sub => loop (String.length rest) (run sub) pos rest caps k
  | OpPlus sub =>
      run sub pos rest caps
        (fun pos' rest' caps' => loop (String.length rest') (run sub) pos' rest' caps' k)
  | OpConcat a b =>
      run a pos rest caps (fun pos' rest' caps' => run b pos' rest' caps' k)
  end.

(** The leftmost match: the first start offset at which [re] matches. *)
Fixpoint search (re : Syntax) (pos : nat) (rest : string) : option Caps :=
  match run re pos rest [] (fun pos' _ caps' => Some ((0, (pos, pos')) :: caps')) with
  | Some caps => Some caps
  | None =>
      match rest with
      | EmptyString => None
      | String _ rest' => search re (S pos) rest'
      end
  end.

Fixpoint NumSubexp (re : Syntax) : nat :=
  match re with
  | OpCapture _ _ sub => S (NumSubexp sub)
  | OpStar sub | OpPlus sub => NumSubexp sub
  | OpConcat a b => NumSubexp a + NumSubexp b
  | _ => 0
  end.

Fixpoint lookup_cap (i : nat) (caps : Caps) : option (nat * nat) :=
  match caps with
  | [] => None
  | (j, se) :: caps' => if (i =? j)%nat then Some se else lookup_cap i caps'
  end.

(** [re.MatchString(s)] *)
Definition MatchString (re : Syntax) (s : string) : bool :=
  match search re 0 s with
  | Some _ => true
  | None => false
  end.

(** [re.FindStringSubmatch(s)]: [None] is Go's nil slice (no match);
    otherwise the text of the match and of each group, by group index,
    the empty string for a group that took no part. *)
Definition FindStringSubmatch (re : Syntax) (s : string) : option (list string) :=
  match search re 0 s with
  | None => None
  | Some caps =>
      Some (map (fun i =>
                   match lookup_cap i caps with
                   | Some (b, e) => String.substring b (e - b) s
                   | None => EmptyString
                   end)
              (seq 0 (S (NumSubexp re))))
  end.

(** *** What a match can contain *)

(** The bytes that a match of [re] can contain. *)
Fixpoint alphabet (re : Syntax) (c : ascii) : bool :=
  match re with
  | OpEmptyMatch | OpBeginText | OpEndText => false
  | OpLiteral c' => Ascii.eqb c' c
  | OpCharClass rs => in_class c rs
  | OpAnyCharNotNL => negb (Ascii.eqb c newline)
  | OpCapture _ _ sub | OpStar sub | OpPlus sub => alphabet sub c
  | OpConcat a b => alphabet a c || alphabet b c
  end.

(** [re] begins with [^]; [re] ends with [$]. *)
Fixpoint anchored_begin (re : Syntax) : bool :=
  match re with
  | OpBeginText => true
  | OpConcat a _ => anchored_begin a
  | _ => false
  end.

Fixpoint anchored_end (re : Syntax) : bool :=
  match re with
  | OpEndText => true
  | OpConcat _ b => anchored_end b
  | _ => false
  end.

Fixpoint string_forallb (P : ascii -> bool) (s : string) : bool :=
  match s with
  | EmptyString => true
  | String c s' => P c && string_forallb P s'
  end.

End regexp.

(** ** Go values and errors *)

(** A Go [error] value.  The sentinel errors the program and go-git compare
    against are constructors; any other error is [errors_New]. *)
Inductive error : Type :=
| io_EOF
| ErrObjectNotFound        (* plumbing.ErrObjectNotFound *)
| ErrParentNotFound        (* object.ErrParentNotFound *)
| ErrEntryNotFound         (* object.ErrEntryNotFound *)
| ErrDirectoryNotFound     (* object.ErrDirectoryNotFound *)
| ErrFileNotFound          (* object.ErrFileNotFound *)
| errors_New (msg : string).

Definition error_eqb (a b : error) : bool :=
  match a, b with
  | io_EOF, io_EOF => true
  | ErrObjectNotFound, ErrObjectNotFound => true
  | ErrParentNotFound, ErrParentNotFound => true
  | ErrEntryNotFound, ErrEntryNotFound => true
  | ErrDirectoryNotFound, ErrDirectoryNotFound => true
  | ErrFileNotFound, ErrFileNotFound => true
  | errors_New m, errors_New m' => String.eqb m m'
  | _, _ => false
  end.

(** A Go result pair [(value, err)]: [Ok v] is [(v, nil)], [Err e] is
    [(zero value, e)]; for a pointer result the zero value is [nil]. *)
Inductive res (A : Type) : Type :=
| Ok (a : A)
| Err (e : error).
Arguments Ok {A} a.
Arguments Err {A} e.

Definition is_Ok {A : Type} (r : res A) : bool :=
  match r with Ok _ => true | Err _ => false end.

(** ** go-git: plumbing *)

Module plumbing.

(** [plumbing.Hash] is [[20]byte]; here the 160-bit number it spells,
    most significant byte first. *)
Definition Hash : Type := Z.

Definition hexdigit (n : Z) : ascii :=
  nth (Z.to_nat n)
    ["0"; "1"; "2"; "3"; "4"; "5"; "6"; "7"; "8"; "9";
     "a"; "b"; "c"; "d"; "e"; "f"]%char "0"%char.

Fixpoint hex (digits : nat) (h : Z) (acc : string) : string :=
  match digits with
  | O => acc
  | S d => hex d (h / 16)%Z (String (hexdigit (h mod 16)%Z) acc)
  end.

(** [h.String()]: the 40 lower-case hex digits of the 20 bytes. *)
Definition Hash_String (h : Hash) : string := hex 40 h "".

(** encoding/hex's [fromHexChar] *)
Definition fromHexChar (c : ascii) : option Z :=
  let n := Z.of_nat (nat_of_ascii c) in
  if ((48 <=? n) && (n <=? 57))%Z then Some (n - 48)%Z
  else if ((97 <=? n) && (n <=? 102))%Z then Some (n - 97 + 10)%Z
  else if ((65 <=? n) && (n <=? 70))%Z then Some (n - 65 + 10)%Z
  else None.

(** [hex.DecodeString(s)]: the bytes decoded before the first invalid
    digit or the odd end (NewHash drops the error). *)
Fixpoint DecodeString (s : string) : list Z :=
  match s with
  | String p (String q rest) =>
      match fromHexChar p, fromHexChar q with
      | Some a, Some b => (Z.lor (Z.shiftl a 4) b) :: DecodeString rest
      | _, _ => []
      end
  | _ => []
  end.

(** [copy(h[:], b)] into a zeroed 20-byte array, read as a number. *)
Fixpoint copy_bytes (n : nat) (b : list Z) (acc : Z) : Z :=
  match n with
  | O => acc
  | S n' =>
      match b with
      | [] => copy_bytes n' [] (acc * 256)%Z
      | x :: b' => copy_bytes n' b' (acc * 256 + x)%Z
      end
  end.

(** [plumbing.NewHash(s)] *)
Definition NewHash (s : string) : Hash := copy_bytes 20 (DecodeString s) 0%Z.

(** [plumbing.Reference]: full name ([refs/heads/...]) and target. *)
Record Reference : Type := mkReference {
  ref_Name : string;
  ref_Hash : Hash
}.

End plumbing.

Module filemode.

(** [filemode.FileMode] is a [uint32]. *)
Definition FileMode : Type := Z.

Definition Empty : FileMode := 0%Z.
Definition Dir : FileMode := 16384%Z.          (* 0040000 *)
Definition Regular : FileMode := 33188%Z.      (* 0100644 *)
Definition Deprecated : FileMode := 33204%Z.   (* 0100664 *)
Definition Executable : FileMode := 33261%Z.   (* 0100755 *)
Definition Symlink : FileMode := 40960%Z.      (* 0120000 *)
Definition Submodule : FileMode := 57344%Z.    (* 0160000 *)

(** [m.IsFile()] *)
Definition IsFile (m : FileMode) : bool :=
  (m =? Regular)%Z || (m =? Deprecated)%Z || (m =? Executable)%Z || (m =? Symlink)%Z.

End filemode.

(** ** go-git: plumbing/object

    The structs keep the fields the program reads.  The store a Go object
    points to (its field [s]) is the repository handle that the operations
    below take as an explicit argument. *)

Module object.

(** [time.Time], as Unix seconds and a zone offset in seconds. *)
Record Time : Type := mkTime {
  unix : Z;
  zone : Z
}.

Record Signature : Type := mkSignature {
  sig_Name : string;
  sig_Email : string;
  sig_When : Time
}.

Record Commit : Type := mkCommit {
  commit_Hash : plumbing.Hash;
  Author : Signature;
  Committer : Signature;
  Message : string;
  TreeHash : plumbing.Hash;
  ParentHashes : list plumbing.Hash
}.

Record TreeEntry : Type := mkTreeEntry {
  entry_Name : string;
  entry_Mode : filemode.FileMode;
  entry_Hash : plumbing.Hash
}.

Record Tree : Type := mkTree {
  Entries : list TreeEntry;
  tree_Hash : plumbing.Hash
}.

Record Blob : Type := mkBlob {
  blob_Hash : plumbing.Hash;
  blob_Size : Z
}.

Record File : Type := mkFile {
  file_Name : string;
  file_Mode : filemode.FileMode;
  file_Blob : Blob
}.

(** One side of a change: the full path of the node and its entry. *)
Record ChangeEntry : Type := mkChangeEntry {
  change_Name : string;
  change_TreeEntry : TreeEntry
}.

(** [object.Change]; [None] is the zero [ChangeEntry]. *)
Record Change : Type := mkChange {
  From : option ChangeEntry;
  To : option ChangeEntry
}.

Inductive Action : Type := Insert | Delete | Modify.

(** [c.Action()] *)
Definition change_Action (c : Change) : res Action :=
  match From c, To c with
  | None, None => Err (errors_New "malformed change: empty from and to")
  | None, Some _ => Ok Insert
  | Some _, None => Ok Delete
  | Some _, Some _ => Ok Modify
  end.

(** [c.NumParents()] *)
Definition NumParents (c : Commit) : Z := Z.of_nat (length (ParentHashes c)).

End object.

(** The order of a commit walk, [git.LogOrder]. *)
Inductive LogOrder : Type :=
| LogOrderDefault
| LogOrderDFS
| LogOrderDFSPost
| LogOrderBSF
| LogOrderCommitterTime.

Record LogOptions : Type := mkLogOptions {
  log_From : plumbing.Hash;
  log_Order : LogOrder
}.

(** An iterator is the sequence of results its [Next] will give; once the
    sequence is used up [Next] gives [io.EOF]. *)
Definition Iter (A : Type) : Type := list (res A).

Definition Next {A : Type} (it : Iter A) : res A * Iter A :=
  match it with
  | [] => (Err io_EOF, [])
  | r :: it' => (r, it')
  end.

(** [RepositoryWithName]; [R] is [*git.Repository]. *)
Record RepositoryWithName (R : Type) : Type := mkRepositoryWithName {
  Name : string;
  Repository : R
}.
Arguments mkRepositoryWithName {R} _ _.
Arguments Name {R} _.
Arguments Repository {R} _.

(** [sort.Sort] asks of [Less] a strict weak ordering. *)
Definition StrictWeakOrder {A : Type} (less : A -> A -> bool) : Prop :=
  (forall a, less a a = false) /\
  (forall a b c, less a b = true -> less b c = true -> less a c = true) /\
  (forall a b c, less a b = false -> less b c = false -> less a c = false).

(** ** The collaborators

    What the handlers call and this repository's two source files do not
    define: the go-git object store, the Go standard library beyond plain
    strings, the highlighting and markdown libraries, and the parts of
    package main kept in other files (the configuration, the unified
    encoder).  Their operations are fields; the laws are the documented
    contracts of [sort.Sort] and of a tree difference from the nil tree. *)

Class Collaborators : Type := {
  (** [*git.Repository] *)
  git_Repository : Type;
  (** [r.ResolveRevision(rev)] *)
  ResolveRevision : git_Repository -> string -> res plumbing.Hash;
  (** [object.GetCommit(s, h)], which is [r.CommitObject(h)] *)
  GetCommit : git_Repository -> plumbing.Hash -> res object.Commit;
  (** [object.GetTree(s, h)] *)
  GetTree : git_Repository -> plumbing.Hash -> res object.Tree;
  (** [object.GetBlob(s, h)] *)
  GetBlob : git_Repository -> plumbing.Hash -> res object.Blob;
  (** [f.Contents()] *)
  Contents : git_Repository -> object.File -> res string;
  (** [t.Files()], every file below the tree, as the iterator gives them *)
  tree_Files : git_Repository -> object.Tree -> Iter object.File;
  (** [r.Branches()] and [r.Tags()] *)
  Branches : git_Repository -> res (Iter plumbing.Reference);
  Tags : git_Repository -> res (Iter plumbing.Reference);
  (** [r.Log(opts)] *)
  Log : git_Repository -> LogOptions -> res (Iter object.Commit);
  (** [object.DiffTree(a, b)]; [None] is a nil [*Tree] *)
  DiffTree : git_Repository -> option object.Tree -> option object.Tree -> res (list object.Change);
  (** [*object.Patch], [change.Patch()], [from.Patch(to)], [p.String()] *)
  Patch : Type;
  change_Patch : git_Repository -> object.Change -> res Patch;
  commit_Patch : git_Repository -> object.Commit -> object.Commit -> res Patch;
  Patch_String : Patch -> string;
  (** [c.Stats()] and [stats.String()] *)
  FileStats : Type;
  commit_Stats : git_Repository -> object.Commit -> res FileStats;
  FileStats_String : FileStats -> string;

  (** [t.Format(layout)] *)
  time_Format : object.Time -> string -> string;
  (** [filepath.Dir(path)] *)
  filepath_Dir : string -> string;
  (** [sort.Sort] on a slice ordered by [less] *)
  sort_Sort : forall {A : Type}, (A -> A -> bool) -> list A -> list A;

  (** chroma: [lexers.Match(name)], and tokenising and formatting a text
      with the lexer found *)
  Lexer : Type;
  lexers_Match : string -> option Lexer;
  chroma_Format : Lexer -> string -> res string;
  (** goldmark: [markdown.Convert] *)
  markdown_Convert : string -> res string;

  (** package main, config: [SmithyConfig] and its methods *)
  SmithyConfig : Type;
  Title : SmithyConfig -> string;
  Description : SmithyConfig -> string;
  Host : SmithyConfig -> string;
  FindRepo : SmithyConfig -> string -> option (RepositoryWithName git_Repository);
  GetRepositories : SmithyConfig -> list (RepositoryWithName git_Repository);
  (** package main, unified encoder: [NewUnifiedEncoder(buf,
      DefaultContextLines).Encode(p)], the buffer afterwards and the error *)
  UnifiedEncode : Patch -> string * option error;

  (** [sort.Sort] permutes, and orders when [less] is a strict weak order:
      no element is less than one before it. *)
  sort_Sort_Permutation :
    forall (A : Type) (less : A -> A -> bool) (l : list A),
      Permutation l (sort_Sort less l);
  sort_Sort_StronglySorted :
    forall (A : Type) (less : A -> A -> bool) (l : list A),
      StrictWeakOrder less ->
      StronglySorted (fun a b => less b a = false) (sort_Sort less l);
  (** A difference from the nil tree reads the nil tree as the empty tree:
      its changes are insertions, one for every file below the other tree. *)
  DiffTree_from_nil :
    forall (r : git_Repository) (t : object.Tree) (cs : list object.Change),
      DiffTree r None (Some t) = Ok cs ->
      Forall (fun c => object.change_Action c = Ok object.Insert) cs /\
      (forall f, In (Ok f) (tree_Files r t) ->
         exists c e, In c cs /\ object.To c = Some e /\
                     object.change_Name e = object.file_Name f)
}.

Definition PAGE_SIZE : Z := 100.

Definition nl : string := String regexp.newline EmptyString.

Section Smithy.

Context `{C : Collaborators}.

Abbreviation Repo := (RepositoryWithName git_Repository).

(** *** go-git operations built on the store *)

(** [c.Tree()] *)
Definition commit_Tree (r : git_Repository) (c : object.Commit) : res object.Tree :=
  GetTree r (object.TreeHash c).

(** [c.Parent(i)] *)
Definition commit_Parent (r : git_Repository) (c : object.Commit) (i : Z)
    : res object.Commit :=
  let n := Z.of_nat (length (object.ParentHashes c)) in
  if ((n =? 0) || (i >? n - 1))%Z then Err ErrParentNotFound
  else GetCommit r (nth (Z.to_nat i) (object.ParentHashes c) 0%Z).

(** [t.entry(baseName)]: the entry map is built from [Entries] in order,
    so of two entries with one name the later one is found. *)
Definition tree_entry (t : object.Tree) (baseName : string) : res object.TreeEntry :=
  match find (fun e => String.eqb (object.entry_Name e) baseName) (rev (object.Entries t)) with
  | Some e => Ok e
  | None => Err ErrEntryNotFound
  end.

(** [t.dir(baseName)] *)
Definition tree_dir (r : git_Repository) (t : object.Tree) (baseName : string)
    : res object.Tree :=
  match tree_entry t baseName with
  | Err _ => Err ErrDirectoryNotFound
  | Ok e => GetTree r (object.entry_Hash e)
  end.

Fixpoint find_entry (r : git_Repository) (t : object.Tree) (pathParts : list string)
    : res object.TreeEntry :=
  match pathParts with
  | [] => Err ErrEntryNotFound
  | [p] => tree_entry t p
  | p :: rest =>
      match tree_dir r t p with
      | Err e => Err e
      | Ok t' => find_entry r t' rest
      end
  end.

(** [t.FindEntry(path)]; the memo of visited directories that go-git
    keeps does not change the result and is left out. *)
Definition FindEntry (r : git_Repository) (t : object.Tree) (path : string)
    : res object.TreeEntry :=
  find_entry r t (strings.Split1 path "/").

(** [t.Tree(path)] *)
Definition tree_Tree (r : git_Repository) (t : object.Tree) (path : string)
    : res object.Tree :=
  match FindEntry r t path with
  | Err _ => Err ErrDirectoryNotFound
  | Ok e =>
      match GetTree r (object.entry_Hash e) with
      | Err ErrObjectNotFound => Err ErrDirectoryNotFound
      | other => other
      end
  end.

(** [t.File(path)] *)
Definition tree_File (r : git_Repository) (t : object.Tree) (path : string)
    : res object.File :=
  match FindEntry r t path with
  | Err _ => Err ErrFileNotFound
  | Ok e =>
      match GetBlob r (object.entry_Hash e) with
      | Err ErrObjectNotFound => Err ErrFileNotFound
      | Err err => Err err
      | Ok blob => Ok (object.mkFile path (object.entry_Mode e) blob)
      end
  end.

(** [c.File(path)] *)
Definition commit_File (r : git_Repository) (c : object.Commit) (path : string)
    : res object.File :=
  match commit_Tree r c with
  | Err e => Err e
  | Ok tree => tree_File r tree path
  end.

(** *** Package main: data *)

(** [Commit], the struct a log line is rendered from. *)
Record Commit : Type := mkCommit {
  c_Commit : object.Commit;
  Subject : string;
  ShortHash : string
}.

(** [c.FormattedDate()] *)
Definition FormattedDate (c : Commit) : string :=
  time_Format (object.sig_When (object.Author (c_Commit c))) "2006-01-02".

(** [ReferenceByName.Less] on the two elements compared. *)
Definition ReferenceByName_Less (a b : plumbing.Reference) : bool :=
  let res := strings.Compare (plumbing.ref_Name a) (plumbing.ref_Name b) in
  (res <? 0)%Z.

(** [RepositoryByName.Less] *)
Definition RepositoryByName_Less (a b : Repo) : bool :=
  let res := strings.Compare (Name a) (Name b) in
  (res <? 0)%Z.

(** *** gin *)

(** The values a template context holds. *)
#[warnings="-register-all"] Inductive Value : Type :=
| VString (s : string)
| VHTML (s : string)                       (* template.HTML *)
| VH (h : gmap string Value)               (* gin.H *)
| VEntries (l : list object.TreeEntry)
| VEntry (e : object.TreeEntry)
| VReferences (l : list plumbing.Reference)
| VRepo (r : Repo)
| VRepos (l : list Repo)
| VObjectCommit (c : object.Commit)
| VCommits (l : list Commit).

(** [gin.H] is [map[string]any]. *)
Abbreviation H := (gmap string Value).

(** What a handler writes to the client. *)
Inductive Response : Type :=
| HTML (code : Z) (name : string) (obj : H)      (* ctx.HTML *)
| Text (code : Z) (body : string)                (* ctx.String *)
| Redirect (code : Z) (location : string)        (* ctx.Redirect *)
| Served (handler : string).                          (* an external http.Handler *)

(** [url.URL] of an origin-form request target: scheme, host and
    fragment are empty, and [EscapedPath] is the path as it was sent. *)
Record URL : Type := mkURL {
  EscapedPath : string;
  ForceQuery : bool;
  RawQuery : string
}.

(** [u.String()] *)
Definition URL_String (u : URL) : string :=
  EscapedPath u ++
  (if ForceQuery u || negb (String.eqb (RawQuery u) "") then "?" ++ RawQuery u else "").

Record Request : Type := mkRequest {
  req_URL : URL;
  RequestURI : string
}.

(** A value stored under a key of the context. *)
Inductive any : Type :=
| AnyConfig (cfg : SmithyConfig)
| AnyOther.

(** [*gin.Context]: the request, the keys set by middleware, the errors
    attached with [ctx.Error], and what was written to the client. *)
Record Context : Type := mkContext {
  ctx_Request : Request;
  Keys : gmap string any;
  Errors : list error;
  Writer : list Response
}.

(** A handler runs on the context and may panic ([None]). *)
Definition M (A : Type) : Type := Context -> option (A * Context).

Definition ret {A : Type} (a : A) : M A := fun ctx => Some (a, ctx).

Definition bind {A B : Type} (m : M A) (k : A -> M B) : M B :=
  fun ctx =>
    match m ctx with
    | None => None
    | Some (a, ctx') => k a ctx'
    end.

Definition panic {A : Type} : M A := fun _ => None.

Definition get_ctx : M Context := fun ctx => Some (ctx, ctx).

Definition write (resp : Response) : M unit :=
  fun ctx => Some (tt, mkContext (ctx_Request ctx) (Keys ctx) (Errors ctx) (Writer ctx ++ [resp])).

(** [ctx.Error(err)] *)
Definition ctx_Error (err : error) : M unit :=
  fun ctx => Some (tt, mkContext (ctx_Request ctx) (Keys ctx) (Errors ctx ++ [err]) (Writer ctx)).

(** [ctx.MustGet("config").(SmithyConfig)] *)
Definition MustGet_config : M SmithyConfig :=
  fun ctx =>
    match Keys ctx !! "config" with
    | Some (AnyConfig cfg) => Some (cfg, ctx)
    | _ => None
    end.

(** [s[i]] on a slice; out of range panics. *)
Definition index {A : Type} (s : list A) (i : nat) : M A :=
  match nth_error s i with
  | Some a => ret a
  | None => panic
  end.

Notation "'do' x '<-' m ';' k" := (bind m (fun x => k))
  (at level 10, x name, m at level 100, k at level 200).
Notation "m ';;' k" := (bind m (fun _ => k))
  (at level 100, k at level 200, right associativity).

(** [ctx.HTML(code, name, obj)], [ctx.String(code, format, ...)] with the
    text already formatted, [ctx.Redirect(code, location)]. *)
Definition ctx_HTML (code : Z) (name : string) (obj : H) : M unit :=
  write (HTML code name obj).
Definition ctx_String (code : Z) (body : string) : M unit :=
  write (Text code body).
Definition ctx_Redirect (code : Z) (location : string) : M unit :=
  write (Redirect code location).

Definition StatusOK : Z := 200.
Definition StatusPermanentRedirect : Z := 308.
Definition StatusNotFound : Z := 404.
Definition StatusInternalServerError : Z := 500.

(** *** Package main: the handlers *)

(** [ReferenceCollector]'s loop: [refs] is what has been appended so far.
    The result is the pair Go returns, the slice and the error. *)
Fixpoint ReferenceCollector_loop (it : Iter plumbing.Reference)
    (refs : list plumbing.Reference) : list plumbing.Reference * option error :=
  match it with
  | [] => (sort_Sort ReferenceByName_Less refs, None)
  | Err io_EOF :: _ => (sort_Sort ReferenceByName_Less refs, None)
  | Err err :: _ => (refs, Some err)
  | Ok b :: it' => ReferenceCollector_loop it' (refs ++ [b])
  end.

Definition ReferenceCollector (it : Iter plumbing.Reference)
    : list plumbing.Reference * option error :=
  ReferenceCollector_loop it [].

Definition ListBranches (r : git_Repository) : list plumbing.Reference * option error :=
  match Branches r with
  | Err err => ([], Some err)
  | Ok it => ReferenceCollector it
  end.

Definition ListTags (r : git_Repository) : list plumbing.Reference * option error :=
  match Tags r with
  | Err err => ([], Some err)
  | Ok it => ReferenceCollector it
  end.

Fixpoint GetReadmeFromCommit_loop (r : git_Repository) (commit : object.Commit)
    (options : list string) : res object.File :=
  match options with
  | [] => Err (errors_New "no valid readme")
  | opt :: rest =>
      match commit_File r commit opt with
      | Ok f => Ok f
      | Err _ => GetReadmeFromCommit_loop r commit rest
      end
  end.

Definition GetReadmeFromCommit (r : git_Repository) (commit : object.Commit)
    : res object.File :=
  GetReadmeFromCommit_loop r commit
    ["README.md"; "README"; "README.markdown"; "readme.md"; "readme.markdown"; "readme"].

Definition FormatMarkdown (input : string) : string :=
  match markdown_Convert input with
  | Err _ => input
  | Ok out => out
  end.

Definition RenderSyntaxHighlighting (r : git_Repository) (file : object.File) : res string :=
  match Contents r file with
  | Err err => Err err
  | Ok contents =>
      match lexers_Match (object.file_Name file) with
      | None => Ok ("<pre>" ++ contents ++ "</pre>")%string
      | Some lexer =>
          match chroma_Format lexer contents with
          | Err _ => Ok ("<pre>" ++ contents ++ "</pre>")%string
          | Ok out => Ok out
          end
      end
  end.

(** [makeTemplateContext]: the site entry, then every key of [extra]
    assigned over it. *)
Definition makeTemplateContext (config : SmithyConfig) (extra : H) : H :=
  let results : H :=
    {[ "Site" := VH (<["Title" := VString (Title config)]>
                     (<["Description" := VString (Description config)]>
                      (<["Host" := VString (Host config)]> ∅))) ]} in
  extra ∪ results.

Definition Http404 : M unit :=
  do smithyConfig <- MustGet_config;
  ctx_HTML StatusNotFound "404.html" (makeTemplateContext smithyConfig ∅).

Definition Http500 : M unit :=
  do smithyConfig <- MustGet_config;
  ctx_HTML StatusInternalServerError "500.html" (makeTemplateContext smithyConfig ∅).

Definition IndexView (urlParts : list string) : M unit :=
  do smithyConfig <- MustGet_config;
  let repos := GetRepositories smithyConfig in
  ctx_HTML StatusOK "index.html"
    (makeTemplateContext smithyConfig (<["Repos" := VRepos repos]> ∅)).

(** [findMainBranch]: the loop over the candidates still to try. *)
Fixpoint findMainBranch_loop (repo : git_Repository) (candidates : list string)
    : M (res (string * plumbing.Hash)) :=
  match candidates with
  | [] => ret (Err (errors_New "failed to find a 'main' or 'master' branch"))
  | candidate :: rest =>
      match ResolveRevision repo candidate with
      | Ok revision => ret (Ok (candidate, revision))
      | Err err => ctx_Error err ;; findMainBranch_loop repo rest
      end
  end.

Definition findMainBranch (repo : git_Repository) : M (res (string * plumbing.Hash)) :=
  findMainBranch_loop repo ["main"; "master"].

Definition RepoIndexView (urlParts : list string) : M unit :=
  do repoName <- index urlParts 0;
  do smithyConfig <- MustGet_config;
  match FindRepo smithyConfig repoName with
  | None => Http404
  | Some repo =>
      match ListBranches (Repository repo) with
      | (_, Some _) => Http500
      | (branches, None) =>
          match ListTags (Repository repo) with
          | (_, Some _) => Http500
          | (tags, None) =>
              do found <- findMainBranch (Repository repo);
              match found with
              | Err _ => Http500
              | Ok (main, revision) =>
                  match GetCommit (Repository repo) revision with
                  | Err _ => Http500
                  | Ok commitObj =>
                      let formattedReadme :=
                        match GetReadmeFromCommit (Repository repo) commitObj with
                        | Err _ => ""
                        | Ok readme =>
                            match Contents (Repository repo) readme with
                            | Err _ => ""
                            | Ok readmeContents => FormatMarkdown readmeContents
                            end
                        end in
                      ctx_HTML StatusOK "repo.html"
                        (makeTemplateContext smithyConfig
                           (<["RepoName" := VString repoName]>
                            (<["Branches" := VReferences branches]>
                             (<["Tags" := VReferences tags]>
                              (<["Readme" := VHTML formattedReadme]>
                               (<["Repo" := VRepo repo]> ∅))))))
                  end
              end
          end
      end
  end.

(** [RepoGitView] hands the request to the git-over-HTTP transport. *)
Definition RepoGitView (urlParts : list string) : M unit :=
  do smithyConfig <- MustGet_config;
  write (Served "githttp").

Definition RefsView (urlParts : list string) : M unit :=
  do repoName <- index urlParts 0;
  do smithyConfig <- MustGet_config;
  match FindRepo smithyConfig repoName with
  | None => Http404
  | Some repo =>
      let branches :=
        match ListBranches (Repository repo) with
        | (_, Some _) => []
        | (branches, None) => branches
        end in
      let tags :=
        match ListTags (Repository repo) with
        | (_, Some _) => []
        | (tags, None) => tags
        end in
      ctx_HTML StatusOK "refs.html"
        (makeTemplateContext smithyConfig
           (<["RepoName" := VString repoName]>
            (<["Branches" := VReferences branches]>
             (<["Tags" := VReferences tags]> ∅))))
  end.

(** [TreeView] from the point where the reference name is known. *)
Definition TreeView_at (smithyConfig : SmithyConfig) (repoName : string) (repo : Repo)
    (urlParts : list string) (refNameString : string) : M unit :=
  match ResolveRevision (Repository repo) refNameString with
  | Err _ => Http404
  | Ok revision =>
      do treePath <- (if (2 <? length urlParts)%nat then index urlParts 2 else ret "");
      let parentPath := filepath_Dir treePath in
      match GetCommit (Repository repo) revision with
      | Err _ => Http404
      | Ok commitObj =>
          match commit_Tree (Repository repo) commitObj with
          | Err _ => Http404
          | Ok tree =>
              if String.eqb treePath "" then
                (* the root of the project: a list of files *)
                ctx_HTML StatusOK "tree.html"
                  (makeTemplateContext smithyConfig
                     (<["RepoName" := VString repoName]>
                      (<["RefName" := VString refNameString]>
                       (<["Files" := VEntries (object.Entries tree)]>
                        (<["Path" := VString treePath]> ∅)))))
              else
                match FindEntry (Repository repo) tree treePath with
                | Err _ => Http404
                | Ok out =>
                    if negb (filemode.IsFile (object.entry_Mode out)) then
                      (* a subtree *)
                      match tree_Tree (Repository repo) tree treePath with
                      | Err _ => Http404
                      | Ok subTree =>
                          ctx_HTML StatusOK "tree.html"
                            (makeTemplateContext smithyConfig
                               (<["RepoName" := VString repoName]>
                                (<["ParentPath" := VString parentPath]>
                                 (<["RefName" := VString refNameString]>
                                  (<["SubTree" := VString (object.entry_Name out)]>
                                   (<["Path" := VString treePath]>
                                    (<["Files" := VEntries (object.Entries subTree)]> ∅)))))))
                      end
                    else
                      (* a regular file *)
                      match tree_File (Repository repo) tree treePath with
                      | Err _ => Http404
                      | Ok file =>
                          let contents := Contents (Repository repo) file in
                          let syntaxHighlighted :=
                            match RenderSyntaxHighlighting (Repository repo) file with
                            | Ok highlighted => highlighted
                            | Err _ => ""
                            end in
                          match contents with
                          | Err _ => Http404
                          | Ok contents =>
                              ctx_HTML StatusOK "blob.html"
                                (makeTemplateContext smithyConfig
                                   (<["RepoName" := VString repoName]>
                                    (<["RefName" := VString refNameString]>
                                     (<["File" := VEntry out]>
                                      (<["ParentPath" := VString parentPath]>
                                       (<["Path" := VString treePath]>
                                        (<["Contents" := VString contents]>
                                         (<["ContentsHighlighted" := VHTML syntaxHighlighted]> ∅))))))))
                          end
                      end
                end
          end
      end
  end.

Definition TreeView (urlParts : list string) : M unit :=
  do repoName <- index urlParts 0;
  do smithyConfig <- MustGet_config;
  match FindRepo smithyConfig repoName with
  | None => Http404
  | Some repo =>
      if (1 <? length urlParts)%nat then
        do refNameString <- index urlParts 1;
        TreeView_at smithyConfig repoName repo urlParts refNameString
      else
        do found <- findMainBranch (Repository repo);
        match found with
        | Err err => ctx_Error err ;; Http404
        | Ok (refNameString, _) =>
            TreeView_at smithyConfig repoName repo urlParts refNameString
        end
  end.

(** [s[:n]]; beyond the length it panics ([None]). *)
Definition slice_to (s : string) (n : nat) : option string :=
  if (n <=? String.length s)%nat then Some (String.substring 0 n s) else None.

(** [LogView]'s loop, [for i := 1; i <= PAGE_SIZE; i++]: [count] rounds
    are left and [commits] is what has been appended.  Only [io.EOF] is
    tested for: after any other error [commit] is nil and reading
    [commit.Message] panics ([None]). *)
Fixpoint LogView_loop (count : nat) (cIter : Iter object.Commit) (commits : list Commit)
    : option (list Commit) :=
  match count with
  | O => Some commits
  | S count' =>
      match Next cIter with
      | (Err io_EOF, _) => Some commits
      | (Err _, _) => None
      | (Ok commit, cIter') =>
          let lines := strings.Split1 (object.Message commit) regexp.newline in
          match nth_error lines 0,
                slice_to (plumbing.Hash_String (object.commit_Hash commit)) 8 with
          | Some subject, Some short =>
              LogView_loop count' cIter' (commits ++ [mkCommit commit subject short])
          | _, _ => None
          end
      end
  end.

Definition LogView (urlParts : list string) : M unit :=
  do repoName <- index urlParts 0;
  do smithyConfig <- MustGet_config;
  match FindRepo smithyConfig repoName with
  | None => Http404
  | Some repo =>
      do refNameString <- index urlParts 1;
      match ResolveRevision (Repository repo) refNameString with
      | Err _ => Http404
      | Ok revision =>
          match Log (Repository repo) (mkLogOptions revision LogOrderCommitterTime) with
          | Err _ => Http500
          | Ok cIter =>
              match LogView_loop (Z.to_nat PAGE_SIZE) cIter [] with
              | None => panic
              | Some commits =>
                  ctx_HTML StatusOK "log.html"
                    (makeTemplateContext smithyConfig
                       (<["RepoName" := VString repoName]>
                        (<["RefName" := VString refNameString]>
                         (<["Commits" := VCommits commits]> ∅))))
              end
          end
      end
  end.

Definition LogViewDefault (urlParts : list string) : M unit :=
  do repoName <- index urlParts 0;
  do smithyConfig <- MustGet_config;
  match FindRepo smithyConfig repoName with
  | None => Http404
  | Some repo =>
      do found <- findMainBranch (Repository repo);
      match found with
      | Err err => ctx_Error err ;; Http404
      | Ok (mainBranchName, _) =>
          do ctx <- get_ctx;
          ctx_Redirect StatusPermanentRedirect
            (RequestURI (ctx_Request ctx) ++ "/" ++ mainBranchName)%string
      end
  end.

(** [GetChanges]: [parentTree] stays nil when the parent cannot be had. *)
Definition GetChanges (r : git_Repository) (commit : object.Commit)
    : res (list object.Change) :=
  let parentTree : res (option object.Tree) :=
    match commit_Parent r commit 0 with
    | Ok parent =>
        match commit_Tree r parent with
        | Ok t => Ok (Some t)
        | Err err => Err err
        end
    | Err _ => Ok None
    end in
  match parentTree with
  | Err err => Err err
  | Ok parentTree =>
      match commit_Tree r commit with
      | Err err => Err err
      | Ok currentTree => DiffTree r parentTree (Some currentTree)
      end
  end.

(** [PatchHTML]: the buffer, whatever the encoder's error. *)
Definition PatchHTML (p : Patch) : string := fst (UnifiedEncode p).

Fixpoint FormatChanges_loop (r : git_Repository) (changes : list object.Change)
    (s : list string) : res (list string) :=
  match changes with
  | [] => Ok s
  | change :: rest =>
      match change_Patch r change with
      | Err err => Err err
      | Ok patch => FormatChanges_loop r rest (s ++ [PatchHTML patch])
      end
  end.

(** [FormatChanges] spits out something similar to [git diff]. *)
Definition FormatChanges (r : git_Repository) (changes : list object.Change) : res string :=
  match FormatChanges_loop r changes [] with
  | Err err => Err err
  | Ok s => Ok (strings.Join s (nl ++ nl ++ nl ++ nl)%string)
  end.

Definition PatchView (urlParts : list string) : M unit :=
  let commitFormatDate := "Mon, 2 Jan 2006 15:04:05 -0700" in
  do repoName <- index urlParts 0;
  do smithyConfig <- MustGet_config;
  match FindRepo smithyConfig repoName with
  | None => Http404
  | Some repo =>
      do commitID <- index urlParts 1;
      if String.eqb commitID "" then Http404
      else
        let commitHash := plumbing.NewHash commitID in
        match GetCommit (Repository repo) commitHash with
        | Err _ => Http404
        | Ok commitObj =>
            if (object.NumParents commitObj =? 0)%Z then Http500
            else
              match commit_Parent (Repository repo) commitObj 0 with
              | Err _ => Http500
              | Ok parentCommit =>
                  match commit_Patch (Repository repo) parentCommit commitObj with
                  | Err _ => Http500
                  | Ok patchObj =>
                      let patch := Patch_String patchObj in
                      let commitHashStr :=
                        ("From " ++ plumbing.Hash_String (object.commit_Hash commitObj)
                           ++ " Mon Sep 17 00:00:00 2001")%string in
                      let from :=
                        ("From: " ++ object.sig_Name (object.Author commitObj)
                           ++ " <" ++ object.sig_Email (object.Author commitObj) ++ ">")%string in
                      let date :=
                        ("Date: " ++ time_Format (object.sig_When (object.Author commitObj))
                                       commitFormatDate)%string in
                      let subject := ("Subject: [PATCH] " ++ object.Message commitObj)%string in
                      match commit_Stats (Repository repo) commitObj with
                      | Err _ => Http500
                      | Ok stats =>
                          ctx_String StatusOK
                            (commitHashStr ++ nl ++ from ++ nl ++ date ++ nl ++ subject ++ nl
                               ++ "---" ++ nl ++ FileStats_String stats ++ nl ++ patch)%string
                      end
                  end
              end
        end
  end.

Definition CommitView (urlParts : list string) : M unit :=
  do repoName <- index urlParts 0;
  do smithyConfig <- MustGet_config;
  match FindRepo smithyConfig repoName with
  | None => Http404
  | Some repo =>
      do commitID <- index urlParts 1;
      if String.eqb commitID "" then Http404
      else
        let commitHash := plumbing.NewHash commitID in
        match GetCommit (Repository repo) commitHash with
        | Err _ => Http404
        | Ok commitObj =>
            match GetChanges (Repository repo) commitObj with
            | Err _ => Http404
            | Ok changes =>
                match FormatChanges (Repository repo) changes with
                | Err _ => Http404
                | Ok formattedChanges =>
                    ctx_HTML StatusOK "commit.html"
                      (makeTemplateContext smithyConfig
                         (<["RepoName" := VString repoName]>
                          (<["Commit" := VObjectCommit commitObj]>
                           (<["Changes" := VHTML formattedChanges]> ∅))))
                end
            end
        end
  end.

(** [AddConfigMiddleware]: make the config available to every request. *)
Definition AddConfigMiddleware (cfg : SmithyConfig) : M unit :=
  fun c =>
    Some (tt, mkContext (ctx_Request c) (<["config" := AnyConfig cfg]> (Keys c))
                (Errors c) (Writer c)).

(** *** Routing *)

Record Route : Type := mkRoute {
  Pattern : regexp.Syntax;
  View : list string -> M unit
}.

(** [regexp.MustCompile(str)]; [None] is its panic. *)
Definition MustCompile (str : string) : option regexp.Syntax := regexp.Parse str.

Definition CompileRoutes : option (list Route) :=
  (* Label is either a repo, a ref.  A filepath is a list of labels *)
  let label := "[a-zA-Z0-9\-~\.]+" in
  indexUrl ← MustCompile "^/$";
  repoGitUrl ← MustCompile ("^/git/(?P<repo>" ++ label ++ ")");
  repoIndexUrl ← MustCompile ("^/(?P<repo>" ++ label ++ ")$");
  refsUrl ← MustCompile ("^/(?P<repo>" ++ label ++ ")/refs$");
  logDefaultUrl ← MustCompile ("^/(?P<repo>" ++ label ++ ")/log$");
  logUrl ← MustCompile ("^/(?P<repo>" ++ label ++ ")/log/(?P<ref>" ++ label ++ ")$");
  commitUrl ← MustCompile ("^/(?P<repo>" ++ label ++ ")/commit/(?P<commit>[a-z0-9]+)$");
  patchUrl ← MustCompile ("^/(?P<repo>" ++ label ++ ")/commit/(?P<commit>[a-z0-9]+).patch");
  treeRootUrl ← MustCompile ("^/(?P<repo>" ++ label ++ ")/tree$");
  treeRootRefUrl ← MustCompile ("^/(?P<repo>" ++ label ++ ")/tree/(?P<ref>" ++ label ++ ")$");
  treeRootRefPathUrl ←
    MustCompile ("^/(?P<repo>" ++ label ++ ")/tree/(?P<ref>" ++ label ++ ")/(?P<path>.*)$");
  Some [
    mkRoute indexUrl IndexView;
    mkRoute repoIndexUrl RepoIndexView;
    mkRoute repoGitUrl RepoGitView;
    mkRoute refsUrl RefsView;
    mkRoute logDefaultUrl LogViewDefault;
    mkRoute logUrl LogView;
    mkRoute commitUrl CommitView;
    mkRoute patchUrl PatchView;
    mkRoute treeRootUrl TreeView;
    mkRoute treeRootRefUrl TreeView;
    mkRoute treeRootRefPathUrl TreeView
  ].

(** [Dispatch]'s loop over the routes still to try. *)
Fixpoint Dispatch_loop (routes : list Route) (urlPath : string) : M unit :=
  match routes with
  | [] => Http404
  | route :: rest =>
      if negb (regexp.MatchString (Pattern route) urlPath) then Dispatch_loop rest urlPath
      else
        let urlParts :=
          match regexp.FindStringSubmatch (Pattern route) urlPath with
          | None => []
          | Some submatch => skipn 1 submatch
          end in
        View route urlParts
  end.

Definition Dispatch (routes : list Route) (fileSystemHandler : M unit) : M unit :=
  do ctx <- get_ctx;
  let urlPath := URL_String (req_URL (ctx_Request ctx)) in
  if strings.HasPrefix urlPath "/static/" then fileSystemHandler
  else Dispatch_loop routes urlPath.

(** What [main] registers for every request: the config middleware, then
    the dispatcher over the compiled routes and the static file server. *)
Definition serve (config : SmithyConfig) (routes : list Route) : M unit :=
  AddConfigMiddleware config ;; Dispatch routes (write (Served "static")).

End Smithy.

(** ** The route patterns, parsed

    The expressions that [CompileRoutes] compiles, under the names of its
    local variables. *)

Definition parsed (pattern : string) : regexp.Syntax :=
  match regexp.Parse pattern with
  | Some re => re
  | None => regexp.OpEmptyMatch
  end.

Definition label : string := "[a-zA-Z0-9\-~\.]+".

Definition indexUrl : regexp.Syntax :=
  Eval vm_compute in parsed "^/$".
Definition repoGitUrl : regexp.Syntax :=
  Eval vm_compute in parsed ("^/git/(?P<repo>" ++ label ++ ")").
Definition repoIndexUrl : regexp.Syntax :=
  Eval vm_compute in parsed ("^/(?P<repo>" ++ label ++ ")$").
Definition refsUrl : regexp.Syntax :=
  Eval vm_compute in parsed ("^/(?P<repo>" ++ label ++ ")/refs$").
Definition logDefaultUrl : regexp.Syntax :=
  Eval vm_compute in parsed ("^/(?P<repo>" ++ label ++ ")/log$").
Definition logUrl : regexp.Syntax :=
  Eval vm_compute in parsed ("^/(?P<repo>" ++ label ++ ")/log/(?P<ref>" ++ label ++ ")$").
Definition commitUrl : regexp.Syntax :=
  Eval vm_compute in parsed ("^/(?P<repo>" ++ label ++ ")/commit/(?P<commit>[a-z0-9]+)$").
Definition patchUrl : regexp.Syntax :=
  Eval vm_compute in parsed ("^/(?P<repo>" ++ label ++ ")/commit/(?P<commit>[a-z0-9]+).patch").
Definition treeRootUrl : regexp.Syntax :=
  Eval vm_compute in parsed ("^/(?P<repo>" ++ label ++ ")/tree$").
Definition treeRootRefUrl : regexp.Syntax :=
  Eval vm_compute in parsed ("^/(?P<repo>" ++ label ++ ")/tree/(?P<ref>" ++ label ++ ")$").
Definition treeRootRefPathUrl : regexp.Syntax :=
  Eval vm_compute in
    parsed ("^/(?P<repo>" ++ label ++ ")/tree/(?P<ref>" ++ label ++ ")/(?P<path>.*)$").

(** ** Reading a response *)

Section Reading.

Context `{C : Collaborators}.

(** The status code of a response, when the handler chose one. *)
Definition status (resp : Response) : option Z :=
  match resp with
  | HTML code _ _ | Text code _ | Redirect code _ => Some code
  | Served _ => None
  end.

(** The response carries a directory listing: the [Files] of a tree. *)
Definition carries_directory (resp : Response) : bool :=
  match resp with
  | HTML _ _ obj => bool_decide (is_Some (obj !! "Files"))
  | _ => false
  end.

(** The response carries a file: the [File] entry or its [Contents]. *)
Definition carries_file (resp : Response) : bool :=
  match resp with
  | HTML _ _ obj =>
      bool_decide (is_Some (obj !! "File")) || bool_decide (is_Some (obj !! "Contents"))
      || bool_decide (is_Some (obj !! "ContentsHighlighted"))
  | _ => false
  end.

(** The four outcomes of navigating a tree. *)
Inductive Navigation : Type :=
| NavRoot (entries : list object.TreeEntry)
| NavDirectory (parentPath name : string) (entries : list object.TreeEntry)
| NavFile (parentPath : string) (entry : object.TreeEntry) (contents : string)
| NavNotFound.

(** The outcome a response of the tree handler shows, read off the
    template and the keys of its context. *)
Definition navigation (resp : Response) : option Navigation :=
  match resp with
  | HTML code name obj =>
      if (code =? StatusNotFound)%Z && String.eqb name "404.html" then Some NavNotFound
      else if (code =? StatusOK)%Z && String.eqb name "tree.html" then
        match obj !! "Files", obj !! "SubTree", obj !! "ParentPath" with
        | Some (VEntries entries), None, None => Some (NavRoot entries)
        | Some (VEntries entries), Some (VString sub), Some (VString parent) =>
            Some (NavDirectory parent sub entries)
        | _, _, _ => None
        end
      else if (code =? StatusOK)%Z && String.eqb name "blob.html" then
        match obj !! "File", obj !! "ParentPath", obj !! "Contents" with
        | Some (VEntry entry), Some (VString parent), Some (VString contents) =>
            Some (NavFile parent entry contents)
        | _, _, _ => None
        end
      else None
  | _ => None
  end.

(** The responses a handler writes on a context, [None] if it panics. *)
Definition responses (h : M unit) (ctx : Context) : option (list Response) :=
  match h ctx with
  | None => None
  | Some (_, ctx') => Some (Writer ctx')
  end.

End Reading.

(** ** A repository held in memory

    An object store as tables, on which the operations of the
    collaborators are defined and run: commits, trees and blobs by hash,
    the names a revision resolves from, and what the reference and commit
    iterators give.  An object missing from its table is a store failure
    (a shallow or damaged repository). *)

Module Mem.

Record Repo : Type := mkRepo {
  revisions : list (string * plumbing.Hash);
  commits : list (plumbing.Hash * object.Commit);
  trees : list (plumbing.Hash * object.Tree);
  blobs : list (plumbing.Hash * string);
  branches : res (Iter plumbing.Reference);
  tags : res (Iter plumbing.Reference);
  log : LogOptions -> res (Iter object.Commit)
}.

Record Config : Type := mkConfig {
  cfg_Title : string;
  cfg_Description : string;
  cfg_Host : string;
  cfg_Repos : list (RepositoryWithName Repo)
}.

Fixpoint lookup_hash {A : Type} (h : plumbing.Hash) (table : list (plumbing.Hash * A))
    : res A :=
  match table with
  | [] => Err ErrObjectNotFound
  | (h', a) :: table' => if (h =? h')%Z then Ok a else lookup_hash h table'
  end.

Definition ResolveRevision (r : Repo) (rev : string) : res plumbing.Hash :=
  match find (fun entry => String.eqb (fst entry) rev) (revisions r) with
  | Some (_, h) => Ok h
  | None => Err (errors_New "reference not found")
  end.

Definition GetCommit (r : Repo) (h : plumbing.Hash) : res object.Commit :=
  lookup_hash h (commits r).

Definition GetTree (r : Repo) (h : plumbing.Hash) : res object.Tree :=
  lookup_hash h (trees r).

Definition GetBlob (r : Repo) (h : plumbing.Hash) : res object.Blob :=
  match lookup_hash h (blobs r) with
  | Ok content => Ok (object.mkBlob h (Z.of_nat (String.length content)))
  | Err e => Err e
  end.

Definition Contents (r : Repo) (f : object.File) : res string :=
  lookup_hash (object.blob_Hash (object.file_Blob f)) (blobs r).

Definition join_path (prefix name : string) : string :=
  if String.eqb prefix "" then name else (prefix ++ "/" ++ name)%string.

(** The entries of the files below a list of entries, each under its full
    path, directories descended into; [fuel] bounds the depth. *)
Fixpoint walk (fuel : nat) (r : Repo) (prefix : string) (entries : list object.TreeEntry)
    : Iter object.ChangeEntry :=
  match fuel with
  | O => [Err (errors_New "tree too deep")]
  | S fuel' =>
      flat_map
        (fun e =>
           let path := join_path prefix (object.entry_Name e) in
           if (object.entry_Mode e =? filemode.Dir)%Z then
             match GetTree r (object.entry_Hash e) with
             | Ok t => walk fuel' r path (object.Entries t)
             | Err err => [Err err]
             end
           else if (object.entry_Mode e =? filemode.Submodule)%Z then []
           else [Ok (object.mkChangeEntry path e)])
        entries
  end.

Definition tree_walk (r : Repo) (t : object.Tree) : Iter object.ChangeEntry :=
  walk (S (length (trees r))) r "" (object.Entries t).

(** The file of a walked entry: its blob is loaded. *)
Definition open_file (r : Repo) (x : res object.ChangeEntry) : res object.File :=
  match x with
  | Err err => Err err
  | Ok ce =>
      match GetBlob r (object.entry_Hash (object.change_TreeEntry ce)) with
      | Ok blob =>
          Ok (object.mkFile (object.change_Name ce)
                (object.entry_Mode (object.change_TreeEntry ce)) blob)
      | Err err => Err err
      end
  end.

Definition tree_Files (r : Repo) (t : object.Tree) : Iter object.File :=
  map (open_file r) (tree_walk r t).

(** All the values of an iterator, or its first error. *)
Fixpoint drain {A : Type} (it : Iter A) : res (list A) :=
  match it with
  | [] => Ok []
  | Err e :: _ => Err e
  | Ok a :: it' =>
      match drain it' with
      | Ok l => Ok (a :: l)
      | Err e => Err e
      end
  end.

Definition same_name (f g : object.ChangeEntry) : bool :=
  String.eqb (object.change_Name f) (object.change_Name g).

Definition same_content (f g : object.ChangeEntry) : bool :=
  (object.entry_Hash (object.change_TreeEntry f)
   =? object.entry_Hash (object.change_TreeEntry g))%Z
  && (object.entry_Mode (object.change_TreeEntry f)
      =? object.entry_Mode (object.change_TreeEntry g))%Z.

(** The changes between two lists of files: what is only on the left is
    deleted, what is only on the right inserted, what differs modified.
    Hashes and modes are compared; no blob is read. *)
Definition diff_files (from to : list object.ChangeEntry) : list object.Change :=
  flat_map
    (fun f =>
       if existsb (same_name f) to then []
       else [object.mkChange (Some f) None])
    from
  ++
  flat_map
    (fun g =>
       match find (fun f => same_name f g) from with
       | None => [object.mkChange None (Some g)]
       | Some f =>
           if same_content f g then []
           else [object.mkChange (Some f) (Some g)]
       end)
    to.

Definition files_of (r : Repo) (t : option object.Tree) : res (list object.ChangeEntry) :=
  match t with
  | None => Ok []
  | Some t => drain (tree_walk r t)
  end.

Definition DiffTree (r : Repo) (a b : option object.Tree) : res (list object.Change) :=
  match files_of r a with
  | Err e => Err e
  | Ok from =>
      match files_of r b with
      | Err e => Err e
      | Ok to => Ok (diff_files from to)
      end
  end.

(** A patch, as text: one line for every change. *)
Definition change_line (c : object.Change) : string :=
  match object.From c, object.To c with
  | None, Some e => ("+++ " ++ object.change_Name e)%string
  | Some e, None => ("--- " ++ object.change_Name e)%string
  | Some _, Some e => ("+-+ " ++ object.change_Name e)%string
  | None, None => ""
  end.

Definition side_readable (r : Repo) (side : option object.ChangeEntry) : option error :=
  match side with
  | None => None
  | Some e =>
      match GetBlob r (object.entry_Hash (object.change_TreeEntry e)) with
      | Ok _ => None
      | Err err => Some err
      end
  end.

(** The patch of a change reads the blobs of its two sides. *)
Definition change_Patch (r : Repo) (c : object.Change) : res string :=
  match side_readable r (object.From c), side_readable r (object.To c) with
  | Some err, _ => Err err
  | None, Some err => Err err
  | None, None => Ok (change_line c)
  end.

Fixpoint changes_Patch (r : Repo) (cs : list object.Change) : res (list string) :=
  match cs with
  | [] => Ok []
  | c :: cs' =>
      match change_Patch r c with
      | Err e => Err e
      | Ok line =>
          match changes_Patch r cs' with
          | Err e => Err e
          | Ok lines => Ok (line :: lines)
          end
      end
  end.

Definition tree_Patch (r : Repo) (a b : option object.Tree) : res (list string) :=
  match DiffTree r a b with
  | Err e => Err e
  | Ok cs => changes_Patch r cs
  end.

Definition commit_Patch (r : Repo) (from to : object.Commit) : res string :=
  match GetTree r (object.TreeHash from) with
  | Err e => Err e
  | Ok a =>
      match GetTree r (object.TreeHash to) with
      | Err e => Err e
      | Ok b =>
          match tree_Patch r (Some a) (Some b) with
          | Err e => Err e
          | Ok lines => Ok (strings.Join lines nl)
          end
      end
  end.

(** The statistics of a commit: its tree against the tree of its first
    parent, or against nothing when it has no parent. *)
Definition commit_Stats (r : Repo) (c : object.Commit) : res (list string) :=
  match GetTree r (object.TreeHash c) with
  | Err e => Err e
  | Ok current =>
      match object.ParentHashes c with
      | [] => tree_Patch r None (Some current)
      | p :: _ =>
          match GetCommit r p with
          | Err e => Err e
          | Ok parent =>
              match GetTree r (object.TreeHash parent) with
              | Err e => Err e
              | Ok t => tree_Patch r (Some t) (Some current)
              end
          end
      end
  end.

Definition FileStats_String (stats : list string) : string :=
  strings.Join (map (fun line => (" " ++ line ++ " | 1")%string) stats) nl.

(** The reference time of Go layouts, Mon Jan 2 15:04:05 -0700 2006: a
    layout formats it as the layout itself.  Another time is shown by its
    seconds in hex. *)
Definition time_Format (t : object.Time) (layout : string) : string :=
  if ((object.unix t =? 1136239445) && (object.zone t =? -25200))%Z then layout
  else ("@" ++ plumbing.hex 16 (object.unix t) "")%string.

(** The path without its last element, for a relative path free of [.]
    and [..]; [.] when there is nothing before it. *)
Definition filepath_Dir (path : string) : string :=
  match List.removelast (strings.Split1 path "/") with
  | [] => "."
  | pieces => strings.Join pieces "/"
  end.

(** [b] is not less than [a]: [a] may stand before [b]. *)
Definition not_after {A : Type} (less : A -> A -> bool) (a b : A) : Prop :=
  less b a = false.

Definition not_after_dec {A : Type} (less : A -> A -> bool) (a b : A)
    : Decision (not_after less a b) :=
  bool_eq_dec (less b a) false.

Definition sort_Sort {A : Type} (less : A -> A -> bool) (l : list A) : list A :=
  @merge_sort A (not_after less) (not_after_dec less) l.

Definition FindRepo (cfg : Config) (name : string) : option (RepositoryWithName Repo) :=
  find (fun repo => String.eqb (Name repo) name) (cfg_Repos cfg).

End Mem.

(** * Properties *)

(** ** Strings *)

Lemma string_app_cons (c : ascii) (a b : string) :
  (String c a ++ b)%string = String c (a ++ b)%string.
Proof. reflexivity. Qed.

Lemma string_app_nil_l (b : string) : (EmptyString ++ b)%string = b.
Proof. reflexivity. Qed.

Lemma string_forallb_app (P : ascii -> bool) (a b : string) :
  regexp.string_forallb P (a ++ b)%string
  = regexp.string_forallb P a && regexp.string_forallb P b.
Proof.
  induction a as [|c a IH]; [reflexivity|].
  rewrite string_app_cons. simpl. rewrite IH. now rewrite andb_assoc.
Qed.

Lemma string_forallb_impl (P Q : ascii -> bool) (s : string) :
  (forall c, P c = true -> Q c = true) ->
  regexp.string_forallb P s = true -> regexp.string_forallb Q s = true.
Proof.
  intros HPQ. induction s as [|c s IH]; simpl; [reflexivity|].
  intros [Hc Hs]%andb_true_iff. rewrite (HPQ _ Hc). now apply IH.
Qed.

Lemma string_app_assoc (a b c : string) :
  ((a ++ b) ++ c = a ++ (b ++ c))%string.
Proof.
  induction a as [|x a IH]; [reflexivity|].
  rewrite !string_app_cons. now rewrite IH.
Qed.

Lemma string_length_app (a b : string) :
  String.length (a ++ b)%string = (String.length a + String.length b)%nat.
Proof.
  induction a as [|x a IH]; [reflexivity|].
  rewrite string_app_cons. simpl. now rewrite IH.
Qed.

(** ** The matcher *)

(** What a successful run of a matcher from [rest] tells: it consumed a
    prefix [w] made of bytes of [P] and the continuation succeeded on
    what is left. *)
Definition consumes (P : ascii -> bool)
    (m : nat -> string -> regexp.Caps -> regexp.Cont -> option regexp.Caps) : Prop :=
  forall pos rest caps k out,
    m pos rest caps k = Some out ->
    exists w rest' caps',
      rest = (w ++ rest')%string /\
      regexp.string_forallb P w = true /\
      k (pos + String.length w)%nat rest' caps' = Some out.

Lemma loop_consumes (P : ascii -> bool) body :
  consumes P body -> forall fuel, consumes P (regexp.loop fuel body).
Proof.
  intros Hbody fuel. induction fuel as [|fuel IH]; intros pos rest caps k out; simpl.
  - intros Hk. exists EmptyString, rest, caps. simpl.
    rewrite Nat.add_0_r. auto.
  - destruct (body pos rest caps _) as [r|] eqn:Hb.
    + intros [= ->].
      apply Hbody in Hb as (w & rest' & caps' & -> & Hw & Hk).
      destruct (pos <? pos + String.length w)%nat; [|discriminate].
      apply IH in Hk as (w2 & rest2 & caps2 & -> & Hw2 & Hk).
      exists (w ++ w2)%string, rest2, caps2. split; [|split].
      * now rewrite string_app_assoc.
      * rewrite string_forallb_app, Hw, Hw2. reflexivity.
      * rewrite string_length_app, Nat.add_assoc. exact Hk.
    + intros Hk. exists EmptyString, rest, caps. simpl.
      rewrite Nat.add_0_r. auto.
Qed.

Lemma alphabet_concat (a b : regexp.Syntax) (w1 w2 : string) :
  regexp.string_forallb (regexp.alphabet a) w1 = true ->
  regexp.string_forallb (regexp.alphabet b) w2 = true ->
  regexp.string_forallb (regexp.alphabet (regexp.OpConcat a b)) (w1 ++ w2)%string = true.
Proof.
  intros H1 H2. rewrite string_forallb_app. apply andb_true_intro. split.
  - apply (string_forallb_impl (regexp.alphabet a)); [|exact H1].
    intros c Hc. simpl. now rewrite Hc.
  - apply (string_forallb_impl (regexp.alphabet b)); [|exact H2].
    intros c Hc. simpl. rewrite Hc. apply orb_true_r.
Qed.

Lemma run_consumes (re : regexp.Syntax) : consumes (regexp.alphabet re) (regexp.run re).
Proof.
  induction re as [ | c | rs | | | | i name sub IH | sub IH | sub IH | a IHa b IHb ];
    intros pos rest caps k out; simpl.
  - intros Hk. exists EmptyString, rest, caps. simpl. rewrite Nat.add_0_r. auto.
  - destruct rest as [|c' rest']; [discriminate|].
    destruct (Ascii.eqb c c') eqn:Hc; [|discriminate].
    intros Hk. exists (String c' EmptyString), rest', caps. simpl.
    rewrite Hc, Nat.add_1_r. auto.
  - destruct rest as [|c' rest']; [discriminate|].
    destruct (regexp.in_class c' rs) eqn:Hc; [|discriminate].
    intros Hk. exists (String c' EmptyString), rest', caps. simpl.
    rewrite Hc, Nat.add_1_r. auto.
  - destruct rest as [|c' rest']; [discriminate|].
    destruct (Ascii.eqb c' regexp.newline) eqn:Hc; [discriminate|].
    intros Hk. exists (String c' EmptyString), rest', caps. simpl.
    rewrite Hc, Nat.add_1_r. auto.
  - destruct (pos =? 0)%nat; [|discriminate].
    intros Hk. exists EmptyString, rest, caps. simpl. rewrite Nat.add_0_r. auto.
  - destruct rest; [|discriminate].
    intros Hk. exists EmptyString, EmptyString, caps. simpl. rewrite Nat.add_0_r. auto.
  - intros Hrun. apply IH in Hrun as (w & rest' & caps' & -> & Hw & Hk).
    exists w, rest', ((i, (pos, pos + String.length w)%nat) :: caps'). auto.
  - apply (loop_consumes _ _ IH).
  - intros Hrun. apply IH in Hrun as (w & rest' & caps' & -> & Hw & Hk).
    apply (loop_consumes _ _ IH) in Hk as (w2 & rest2 & caps2 & -> & Hw2 & Hk).
    exists (w ++ w2)%string, rest2, caps2. split; [|split].
    + now rewrite string_app_assoc.
    + change (regexp.string_forallb (regexp.alphabet sub) (w ++ w2)%string = true).
      rewrite string_forallb_app, Hw, Hw2. reflexivity.
    + rewrite string_length_app, Nat.add_assoc. exact Hk.
  - intros Hrun. apply IHa in Hrun as (w & rest' & caps' & -> & Hw & Hk).
    apply IHb in Hk as (w2 & rest2 & caps2 & -> & Hw2 & Hk).
    exists (w ++ w2)%string, rest2, caps2. split; [|split].
    + now rewrite string_app_assoc.
    + apply alphabet_concat; assumption.
    + rewrite string_length_app, Nat.add_assoc. exact Hk.
Qed.

(** A pattern that ends with [$] matches to the end of the input, and
    all it matched is of its alphabet. *)
Lemma run_anchored_end (re : regexp.Syntax) :
  regexp.anchored_end re = true ->
  forall pos rest caps k out,
    regexp.run re pos rest caps k = Some out ->
    regexp.string_forallb (regexp.alphabet re) rest = true.
Proof.
  induction re as [ | c | rs | | | | i name sub IH | sub IH | sub IH | a IHa b IHb ];
    simpl; try discriminate.
  - intros _ pos rest caps k out. destruct rest; [reflexivity|discriminate].
  - intros Hb pos rest caps k out Hrun.
    apply run_consumes in Hrun as (w & rest' & caps' & -> & Hw & Hk).
    apply (IHb Hb) in Hk.
    apply alphabet_concat; assumption.
Qed.

(** A pattern that begins with [^] matches at offset 0 only. *)
Lemma run_anchored_begin (re : regexp.Syntax) :
  regexp.anchored_begin re = true ->
  forall pos rest caps k out,
    regexp.run re pos rest caps k = Some out -> pos = 0%nat.
Proof.
  induction re as [ | c | rs | | | | i name sub IH | sub IH | sub IH | a IHa b IHb ];
    simpl; try discriminate.
  - intros _ pos rest caps k out. destruct (pos =? 0)%nat eqn:Hpos; [|discriminate].
    intros _. now apply Nat.eqb_eq.
  - intros Ha pos rest caps k out Hrun. exact (IHa Ha _ _ _ _ _ Hrun).
Qed.

Lemma search_anchored (re : regexp.Syntax) :
  regexp.anchored_begin re = true ->
  regexp.anchored_end re = true ->
  forall pos rest caps,
    regexp.search re pos rest = Some caps ->
    pos = 0%nat /\ regexp.string_forallb (regexp.alphabet re) rest = true.
Proof.
  intros Hb He pos rest. revert pos.
  induction rest as [|c rest IH]; intros pos caps; simpl.
  - destruct (regexp.run re pos "" [] _) eqn:Hrun; [|discriminate].
    intros _. split.
    + exact (run_anchored_begin re Hb _ _ _ _ _ Hrun).
    + exact (run_anchored_end re He _ _ _ _ _ Hrun).
  - destruct (regexp.run re pos (String c rest) [] _) eqn:Hrun.
    + intros _. split.
      * exact (run_anchored_begin re Hb _ _ _ _ _ Hrun).
      * exact (run_anchored_end re He _ _ _ _ _ Hrun).
    + intros Hs. apply IH in Hs as [Hpos _]. discriminate.
Qed.

(** A pattern anchored at both ends does not match a text holding a byte
    outside its alphabet. *)
Lemma MatchString_anchored_alphabet (re : regexp.Syntax) (s : string) :
  regexp.anchored_begin re = true ->
  regexp.anchored_end re = true ->
  regexp.string_forallb (regexp.alphabet re) s = false ->
  regexp.MatchString re s = false.
Proof.
  intros Hb He Hs. unfold regexp.MatchString.
  destruct (regexp.search re 0 s) as [caps|] eqn:Hsearch; [|reflexivity].
  apply (search_anchored re Hb He) in Hsearch as [_ Hall]. congruence.
Qed.

(** [FindStringSubmatch] finds something exactly when [MatchString] says so. *)
Lemma FindStringSubmatch_MatchString (re : regexp.Syntax) (s : string) :
  regexp.MatchString re s = true <-> exists m, regexp.FindStringSubmatch re s = Some m.
Proof.
  unfold regexp.MatchString, regexp.FindStringSubmatch.
  destruct (regexp.search re 0 s); split; eauto; try discriminate.
  intros [m [=]].
Qed.

(** ** The repository in memory is a collaborator *)

Lemma Mem_sort_Sort_Permutation (A : Type) (less : A -> A -> bool) (l : list A) :
  Permutation l (Mem.sort_Sort less l).
Proof. symmetry. apply merge_sort_Permutation. Qed.

Lemma StrictWeakOrder_asym {A : Type} (less : A -> A -> bool) :
  StrictWeakOrder less -> forall a b, less a b = true -> less b a = false.
Proof.
  intros (Hirr & Htrans & _) a b Hab.
  destruct (less b a) eqn:Hba; [|reflexivity].
  rewrite <- (Hirr a). symmetry. exact (Htrans a b a Hab Hba).
Qed.

Lemma Mem_sort_Sort_StronglySorted (A : Type) (less : A -> A -> bool) (l : list A) :
  StrictWeakOrder less ->
  StronglySorted (fun a b => less b a = false) (Mem.sort_Sort less l).
Proof.
  intros Hswo. unfold Mem.sort_Sort.
  assert (Transitive (Mem.not_after less)) as Htrans.
  { intros a b c Hab Hbc. unfold Mem.not_after in *.
    destruct Hswo as (_ & _ & Hneg). exact (Hneg c b a Hbc Hab). }
  assert (Total (Mem.not_after less)) as Htotal.
  { intros a b. unfold Mem.not_after.
    destruct (less b a) eqn:Hba; [right|left; reflexivity].
    exact (StrictWeakOrder_asym less Hswo b a Hba). }
  exact (StronglySorted_merge_sort (Mem.not_after less) l).
Qed.

Lemma Mem_drain_In {A : Type} (it : Iter A) (l : list A) :
  Mem.drain it = Ok l -> forall a, In (Ok a) it -> In a l.
Proof.
  revert l. induction it as [|[x|e] it IH]; intros l; simpl.
  - intros _ a [].
  - destruct (Mem.drain it) as [l'|e'] eqn:Hd; [|discriminate].
    intros [= <-] a [[= ->]|Hin]; [now left|right; now apply (IH l')].
  - discriminate.
Qed.

Lemma Mem_diff_files_nil (to : list object.ChangeEntry) :
  Mem.diff_files [] to = map (fun g => object.mkChange None (Some g)) to.
Proof.
  unfold Mem.diff_files. simpl.
  induction to as [|g to IH]; simpl; [reflexivity|now rewrite IH].
Qed.

Lemma Mem_open_file_name (r : Mem.Repo) (x : res object.ChangeEntry) (f : object.File) :
  Mem.open_file r x = Ok f ->
  exists ce, x = Ok ce /\ object.change_Name ce = object.file_Name f.
Proof.
  destruct x as [ce|e]; simpl; [|discriminate].
  destruct (Mem.GetBlob r _); [|discriminate].
  intros [= <-]. exists ce. auto.
Qed.

Lemma Mem_DiffTree_from_nil (r : Mem.Repo) (t : object.Tree) (cs : list object.Change) :
  Mem.DiffTree r None (Some t) = Ok cs ->
  Forall (fun c => object.change_Action c = Ok object.Insert) cs /\
  (forall f, In (Ok f) (Mem.tree_Files r t) ->
     exists c e, In c cs /\ object.To c = Some e /\
                 object.change_Name e = object.file_Name f).
Proof.
  unfold Mem.DiffTree. simpl.
  destruct (Mem.drain (Mem.tree_walk r t)) as [to|e] eqn:Hd; [|discriminate].
  intros [= <-]. rewrite Mem_diff_files_nil. split.
  - apply List.Forall_forall. intros c (g & <- & _)%in_map_iff. reflexivity.
  - intros f (x & Hx & Hin)%in_map_iff.
    apply Mem_open_file_name in Hx as (ce & -> & Hname).
    apply (Mem_drain_In _ _ Hd) in Hin.
    exists (object.mkChange None (Some ce)), ce.
    split; [|split; [reflexivity|exact Hname]].
    apply in_map_iff. exists ce. auto.
Qed.

Definition Mem_collaborators : Collaborators := {|
  git_Repository := Mem.Repo;
  ResolveRevision := Mem.ResolveRevision;
  GetCommit := Mem.GetCommit;
  GetTree := Mem.GetTree;
  GetBlob := Mem.GetBlob;
  Contents := Mem.Contents;
  tree_Files := Mem.tree_Files;
  Branches := Mem.branches;
  Tags := Mem.tags;
  Log := Mem.log;
  DiffTree := Mem.DiffTree;
  Patch := string;
  change_Patch := Mem.change_Patch;
  commit_Patch := Mem.commit_Patch;
  Patch_String := fun p => p;
  FileStats := list string;
  commit_Stats := Mem.commit_Stats;
  FileStats_String := Mem.FileStats_String;
  time_Format := Mem.time_Format;
  filepath_Dir := Mem.filepath_Dir;
  sort_Sort := @Mem.sort_Sort;
  Lexer := unit;
  lexers_Match := fun _ => None;
  chroma_Format := fun _ text => Ok text;
  markdown_Convert := fun text => Ok ("<p>" ++ text ++ "</p>")%string;
  SmithyConfig := Mem.Config;
  Title := Mem.cfg_Title;
  Description := Mem.cfg_Description;
  Host := Mem.cfg_Host;
  FindRepo := Mem.FindRepo;
  GetRepositories := Mem.cfg_Repos;
  UnifiedEncode := fun p => (p, None);
  sort_Sort_Permutation := Mem_sort_Sort_Permutation;
  sort_Sort_StronglySorted := Mem_sort_Sort_StronglySorted;
  DiffTree_from_nil := Mem_DiffTree_from_nil
|}.

(** ** Ordering of strings *)

Lemma ascii_compare_cases (x y : ascii) :
  (Ascii.compare x y = Eq /\ N_of_ascii x = N_of_ascii y) \/
  (Ascii.compare x y = Lt /\ (N_of_ascii x < N_of_ascii y)%N) \/
  (Ascii.compare x y = Gt /\ (N_of_ascii y < N_of_ascii x)%N).
Proof.
  unfold Ascii.compare.
  destruct (N.compare_spec (N_of_ascii x) (N_of_ascii y)); auto.
Qed.

Ltac ascii_order x y :=
  let H := fresh "H" in
  destruct (ascii_compare_cases x y) as [[-> H]|[[-> H]|[-> H]]].

Lemma string_compare_refl (a : string) : String.compare a a = Eq.
Proof.
  induction a as [|x a IH]; simpl; [reflexivity|].
  ascii_order x x; try lia. exact IH.
Qed.

Lemma string_compare_lt_trans (a b c : string) :
  String.compare a b = Lt -> String.compare b c = Lt -> String.compare a c = Lt.
Proof.
  revert b c. induction a as [|x a IH]; intros [|y b] [|z c]; simpl; try congruence.
  ascii_order x y; ascii_order y z; ascii_order x z;
    try congruence; try lia; eauto.
Qed.

Lemma string_compare_not_lt_trans (a b c : string) :
  String.compare a b <> Lt -> String.compare b c <> Lt -> String.compare a c <> Lt.
Proof.
  revert b c. induction a as [|x a IH]; intros [|y b] [|z c]; simpl; try congruence.
  ascii_order x y; ascii_order y z; ascii_order x z;
    try congruence; try lia; eauto.
Qed.

Lemma Compare_neg (a b : string) :
  (strings.Compare a b <? 0)%Z = true <-> String.compare a b = Lt.
Proof. unfold strings.Compare. destruct (String.compare a b); compute; split; congruence. Qed.

Lemma Compare_not_neg (a b : string) :
  (strings.Compare a b <? 0)%Z = false <-> String.compare a b <> Lt.
Proof. unfold strings.Compare. destruct (String.compare a b); compute; split; congruence. Qed.

(** ** Hashes *)

Lemma hex_length (digits : nat) (h : Z) (acc : string) :
  String.length (plumbing.hex digits h acc) = (digits + String.length acc)%nat.
Proof.
  revert h acc. induction digits as [|d IH]; intros h acc; simpl; [reflexivity|].
  rewrite IH. simpl. lia.
Qed.

Lemma Hash_String_length (h : plumbing.Hash) :
  String.length (plumbing.Hash_String h) = 40%nat.
Proof. unfold plumbing.Hash_String. now rewrite hex_length. Qed.

Lemma Split1_first (s : string) (sep : ascii) :
  exists first others, strings.Split1 s sep = first :: others.
Proof.
  induction s as [|c s (first & others & IH)]; simpl; [eauto|].
  destruct (Ascii.eqb c sep); [eauto|]. rewrite IH. eauto.
Qed.

Lemma StronglySorted_weaken {A : Type} (R S : A -> A -> Prop) (l : list A) :
  (forall a b, R a b -> S a b) -> StronglySorted R l -> StronglySorted S l.
Proof.
  intros HRS. induction 1 as [|a l Hl IH Hall]; constructor; [exact IH|].
  eapply List.Forall_impl; [|exact Hall]. intros b. apply HRS.
Qed.

Lemma StronglySorted_firstn {A : Type} (R : A -> A -> Prop) (n : nat) (l : list A) :
  StronglySorted R l -> StronglySorted R (firstn n l).
Proof.
  intros Hl. revert n. induction Hl as [|a l Hl IH Hall]; intros [|n]; simpl;
    try constructor.
  - apply IH.
  - apply List.Forall_forall. intros b Hb.
    apply (proj1 (List.Forall_forall _ _) Hall).
    revert Hb. clear. revert l. induction n as [|n IHn]; intros [|x l]; simpl; try tauto.
    intros [->|Hb]; [now left|right; now apply IHn].
Qed.

(** ** The reference collector *)

Section ReferenceCollectorProperties.

Context `{C : Collaborators}.

Lemma ReferenceByName_Less_StrictWeakOrder : StrictWeakOrder ReferenceByName_Less.
Proof.
  unfold StrictWeakOrder, ReferenceByName_Less. repeat split.
  - intros a. apply Compare_not_neg. rewrite string_compare_refl. discriminate.
  - intros a b c Hab%Compare_neg Hbc%Compare_neg. apply Compare_neg.
    exact (string_compare_lt_trans _ _ _ Hab Hbc).
  - intros a b c Hab%Compare_not_neg Hbc%Compare_not_neg. apply Compare_not_neg.
    exact (string_compare_not_lt_trans _ _ _ Hab Hbc).
Qed.

(** Non-decreasing by the full reference name: nothing later in the list
    compares below something earlier. *)
Definition by_name (a b : plumbing.Reference) : Prop :=
  String.compare (plumbing.ref_Name a) (plumbing.ref_Name b) <> Gt.

Lemma sort_Sort_by_name (refs : list plumbing.Reference) :
  StronglySorted by_name (sort_Sort ReferenceByName_Less refs).
Proof.
  apply (StronglySorted_weaken (fun a b => ReferenceByName_Less b a = false)).
  - intros a b Hba%Compare_not_neg. unfold by_name.
    rewrite String.compare_antisym.
    destruct (String.compare (plumbing.ref_Name b) (plumbing.ref_Name a));
      simpl; congruence.
  - apply sort_Sort_StronglySorted, ReferenceByName_Less_StrictWeakOrder.
Qed.

Lemma sort_Sort_nil {A : Type} (less : A -> A -> bool) : sort_Sort less [] = [].
Proof. apply Permutation_nil, sort_Sort_Permutation. Qed.

(** A collection that ends without error is the sort of what the
    iterator gave before its end. *)
Lemma ReferenceCollector_loop_ok (it : Iter plumbing.Reference)
    (refs out : list plumbing.Reference) :
  ReferenceCollector_loop it refs = (out, None) ->
  exists given, out = sort_Sort ReferenceByName_Less (refs ++ given).
Proof.
  revert refs. induction it as [|[b|err] it IH]; intros refs; simpl.
  - intros [= <-]. exists []. now rewrite app_nil_r.
  - intros Hloop. apply IH in Hloop as (given & ->).
    exists (b :: given). now rewrite <- app_assoc.
  - destruct err; try discriminate.
    intros [= <-]. exists []. now rewrite app_nil_r.
Qed.

Lemma ReferenceCollector_loop_error (before : list plumbing.Reference) (err : error)
    (after : Iter plumbing.Reference) (refs : list plumbing.Reference) :
  err <> io_EOF ->
  ReferenceCollector_loop (map Ok before ++ Err err :: after) refs
  = (refs ++ before, Some err).
Proof.
  intros Herr. revert refs. induction before as [|b before IH]; intros refs; simpl.
  - rewrite app_nil_r. destruct err; congruence.
  - rewrite IH. now rewrite <- app_assoc.
Qed.

(** C7. For every reference iterator, a successful collection is
    non-decreasing under the lexicographic comparison of the full
    reference names; an empty iterator (immediate end of stream) gives the
    empty list and no error; and an iteration error other than the end of
    stream is returned to the caller. *)
Theorem ReferenceCollector_sorted_or_error :
  (forall (it : Iter plumbing.Reference) (refs : list plumbing.Reference),
     ReferenceCollector it = (refs, None) -> StronglySorted by_name refs) /\
  ReferenceCollector [] = ([], None) /\
  (forall (before : list plumbing.Reference) (err : error) (after : Iter plumbing.Reference),
     err <> io_EOF ->
     snd (ReferenceCollector (map Ok before ++ Err err :: after)) = Some err).
Proof.
  split; [|split].
  - intros it refs Hok. apply ReferenceCollector_loop_ok in Hok as (given & ->).
    apply sort_Sort_by_name.
  - unfold ReferenceCollector. simpl. now rewrite sort_Sort_nil.
  - intros before err after Herr. unfold ReferenceCollector.
    now rewrite ReferenceCollector_loop_error.
Qed.

End ReferenceCollectorProperties.

(** ** The revision resolver *)

Section ResolverProperties.

Context `{C : Collaborators}.

(** The context after [ctx.Error] was called with each of [errs]. *)
Definition with_errors (ctx : Context) (errs : list error) : Context :=
  mkContext (ctx_Request ctx) (Keys ctx) (Errors ctx ++ errs) (Writer ctx).

Lemma with_errors_nil (ctx : Context) : with_errors ctx [] = ctx.
Proof. destruct ctx. unfold with_errors. simpl. now rewrite app_nil_r. Qed.

(** The default-branch policy, case by case. *)
Lemma findMainBranch_cases (repo : git_Repository) (ctx : Context) :
  findMainBranch repo ctx =
  match ResolveRevision repo "main" with
  | Ok revision => Some (Ok ("main", revision), ctx)
  | Err err1 =>
      match ResolveRevision repo "master" with
      | Ok revision => Some (Ok ("master", revision), with_errors ctx [err1])
      | Err err2 =>
          Some (Err (errors_New "failed to find a 'main' or 'master' branch"),
                with_errors ctx [err1; err2])
      end
  end.
Proof.
  unfold findMainBranch, findMainBranch_loop, bind, ctx_Error, ret, with_errors.
  destruct (ResolveRevision repo "main") as [h|e1]; [reflexivity|].
  destruct (ResolveRevision repo "master") as [h|e2]; simpl; [reflexivity|].
  now rewrite <- app_assoc.
Qed.

(** C6. With no revision given, "main" is tried first and then "master",
    and the first that resolves is returned; the resolution fails only
    when neither resolves; and when "main" resolves, the commit it gives
    is the one that resolving "main" gives. *)
Theorem findMainBranch_default_branch (repo : git_Repository) (ctx : Context) :
  (forall revision, ResolveRevision repo "main" = Ok revision ->
     findMainBranch repo ctx = Some (Ok ("main", revision), ctx)) /\
  (forall err revision,
     ResolveRevision repo "main" = Err err ->
     ResolveRevision repo "master" = Ok revision ->
     findMainBranch repo ctx = Some (Ok ("master", revision), with_errors ctx [err])) /\
  ((exists err ctx', findMainBranch repo ctx = Some (Err err, ctx')) <->
   (is_Ok (ResolveRevision repo "main") = false /\
    is_Ok (ResolveRevision repo "master") = false)) /\
  (exists found ctx', findMainBranch repo ctx = Some (found, ctx')).
Proof.
  rewrite findMainBranch_cases.
  destruct (ResolveRevision repo "main") as [h1|e1];
    destruct (ResolveRevision repo "master") as [h2|e2]; simpl;
    (split; [|split; [|split; [split|]]]);
    try congruence; eauto.
  all: try (intros (err & ctx' & [=])).
  all: try (intros [? ?]; discriminate).
  all: try (intros _; eauto).
Qed.

End ResolverProperties.

(** ** The change set of a commit *)

Section ChangesProperties.

Context `{C : Collaborators}.

Lemma commit_Parent_none (r : git_Repository) (commit : object.Commit) (i : Z) :
  object.NumParents commit = 0%Z -> commit_Parent r commit i = Err ErrParentNotFound.
Proof.
  unfold object.NumParents, commit_Parent. intros ->. reflexivity.
Qed.

(** C3. For every commit with no parent, the change set is the tree
    difference from the nil (empty) tree to the commit's tree, so that
    every change is an insertion and every file below the commit's tree
    has one; the missing parent is no reason to fail. *)
Theorem GetChanges_root_commit (r : git_Repository) (commit : object.Commit) :
  object.NumParents commit = 0%Z ->
  GetChanges r commit
  = match commit_Tree r commit with
    | Ok tree => DiffTree r None (Some tree)
    | Err err => Err err
    end
  /\
  (forall tree changes,
     commit_Tree r commit = Ok tree ->
     GetChanges r commit = Ok changes ->
     Forall (fun c => object.change_Action c = Ok object.Insert) changes /\
     (forall f, In (Ok f) (tree_Files r tree) ->
        exists c e, In c changes /\ object.To c = Some e /\
                    object.change_Name e = object.file_Name f)).
Proof.
  intros Hroot.
  assert (GetChanges r commit
          = match commit_Tree r commit with
            | Ok tree => DiffTree r None (Some tree)
            | Err err => Err err
            end) as Heq.
  { unfold GetChanges. now rewrite (commit_Parent_none r commit 0 Hroot). }
  split; [exact Heq|].
  intros tree changes Htree Hchanges. rewrite Heq, Htree in Hchanges.
  exact (DiffTree_from_nil r tree changes Hchanges).
Qed.

End ChangesProperties.

(** ** The log page *)

Section LogProperties.

Context `{C : Collaborators}.

(** The line of the log page for a commit: the first line of its message
    and the first eight digits of its hash. *)
Definition commit_line (commit : object.Commit) : Commit :=
  mkCommit commit
    (hd "" (strings.Split1 (object.Message commit) regexp.newline))
    (String.substring 0 8 (plumbing.Hash_String (object.commit_Hash commit))).

(** Newest committer time first. *)
Definition newest_first (l : list object.Commit) : Prop :=
  StronglySorted
    (fun a b => (object.unix (object.sig_When (object.Committer b))
                 <= object.unix (object.sig_When (object.Committer a)))%Z)
    l.

Lemma LogView_loop_Ok (count : nat) (commit : object.Commit)
    (cIter : Iter object.Commit) (commits : list Commit) :
  LogView_loop (S count) (Ok commit :: cIter) commits
  = LogView_loop count cIter (commits ++ [commit_line commit]).
Proof.
  cbn [LogView_loop Next].
  destruct (Split1_first (object.Message commit) regexp.newline)
    as (first & others & Hsplit).
  unfold commit_line. rewrite Hsplit. cbn [nth_error hd].
  unfold slice_to. rewrite Hash_String_length. reflexivity.
Qed.

(** On a history without errors the loop takes the first [count] commits
    in the order given and stops without error where the history ends. *)
Lemma LogView_loop_history (count : nat) (history : list object.Commit)
    (commits : list Commit) :
  LogView_loop count (map Ok history) commits
  = Some (commits ++ map commit_line (firstn count history)).
Proof.
  revert history commits. induction count as [|count IH]; intros history commits.
  - simpl. now rewrite app_nil_r.
  - destruct history as [|commit history].
    + simpl. now rewrite app_nil_r.
    + change (map Ok (commit :: history)) with (Ok commit :: map Ok history).
      rewrite LogView_loop_Ok, IH. simpl. now rewrite <- app_assoc.
Qed.

Lemma LogView_loop_length (count : nat) (cIter : Iter object.Commit)
    (commits out : list Commit) :
  LogView_loop count cIter commits = Some out ->
  (length out <= length commits + count)%nat.
Proof.
  revert cIter commits. induction count as [|count IH]; intros cIter commits.
  - simpl. intros [= <-]. lia.
  - destruct cIter as [|[commit|err] cIter].
    + simpl. intros [= <-]. lia.
    + rewrite LogView_loop_Ok. intros Hloop%IH.
      rewrite length_app in Hloop. simpl in Hloop. lia.
    + simpl. destruct err; try discriminate. intros [= <-]. lia.
Qed.

(** An error other than [io.EOF] within the page: the loop reads the
    message of a nil commit. *)
Lemma LogView_loop_nil_commit (count : nat) (history : list object.Commit) (err : error)
    (after : Iter object.Commit) (commits : list Commit) :
  err <> io_EOF ->
  (length history < count)%nat ->
  LogView_loop count (map Ok history ++ Err err :: after) commits = None.
Proof.
  intros Herr. revert history commits.
  induction count as [|count IH]; intros history commits Hlen; [lia|].
  destruct history as [|commit history].
  - simpl. destruct err; congruence.
  - change (map Ok (commit :: history) ++ Err err :: after)
      with (Ok commit :: (map Ok history ++ Err err :: after)).
    rewrite LogView_loop_Ok. apply IH. simpl in Hlen. lia.
Qed.

Lemma map_c_Commit_commit_line (l : list object.Commit) :
  map c_Commit (map commit_line l) = l.
Proof. induction l as [|c l IH]; simpl; [reflexivity|now rewrite IH]. Qed.

(** C8, amended. The log handler asks for the history in committer-time
    order and renders at most 100 commits of it: the first 100 the
    history gives, in the order it gives them, stopping without error
    where the history ends; a history of 150 commits gives exactly 100.
    The page is newest committer time first when the history is; the
    handler does not sort. *)
Theorem LogView_page :
  (forall (cIter : Iter object.Commit) (commits : list Commit),
     LogView_loop (Z.to_nat PAGE_SIZE) cIter [] = Some commits ->
     (length commits <= 100)%nat) /\
  (forall (ctx : Context) (cfg : SmithyConfig) (repoName refNameString : string)
          (repo : RepositoryWithName git_Repository) (revision : plumbing.Hash)
          (history : list object.Commit),
     Keys ctx !! "config" = Some (AnyConfig cfg) ->
     FindRepo cfg repoName = Some repo ->
     ResolveRevision (Repository repo) refNameString = Ok revision ->
     Log (Repository repo) (mkLogOptions revision LogOrderCommitterTime)
       = Ok (map Ok history) ->
     exists commits,
       LogView [repoName; refNameString] ctx
       = ctx_HTML StatusOK "log.html"
           (makeTemplateContext cfg
              (<["RepoName" := VString repoName]>
               (<["RefName" := VString refNameString]>
                (<["Commits" := VCommits commits]> ∅)))) ctx /\
       map c_Commit commits = firstn 100 history /\
       (length commits <= 100)%nat /\
       (newest_first history -> newest_first (map c_Commit commits)) /\
       (length history = 150%nat -> length commits = 100%nat)).
Proof.
  split.
  - intros cIter commits Hloop%LogView_loop_length. simpl in Hloop.
    change (Z.to_nat PAGE_SIZE) with 100%nat in Hloop. lia.
  - intros ctx cfg repoName refNameString repo revision history Hcfg Hrepo Hrev Hlog.
    exists (map commit_line (firstn 100 history)).
    split; [|split; [|split; [|split]]].
    + unfold LogView, bind, index, MustGet_config, ret. cbn [nth_error].
      rewrite Hcfg, Hrepo. cbn [nth_error]. rewrite Hrev, Hlog.
      rewrite LogView_loop_history. reflexivity.
    + apply map_c_Commit_commit_line.
    + rewrite length_map, length_firstn. lia.
    + intros Hnew. rewrite map_c_Commit_commit_line.
      now apply StronglySorted_firstn.
    + intros Hlen. rewrite length_map, length_firstn. lia.
Qed.

End LogProperties.

(** ** The dispatcher *)

Section DispatchProperties.

Context `{C : Collaborators}.

(** The routes, in the order of registration. *)
Lemma CompileRoutes_routes :
  CompileRoutes = Some [
    mkRoute indexUrl IndexView;
    mkRoute repoIndexUrl RepoIndexView;
    mkRoute repoGitUrl RepoGitView;
    mkRoute refsUrl RefsView;
    mkRoute logDefaultUrl LogViewDefault;
    mkRoute logUrl LogView;
    mkRoute commitUrl CommitView;
    mkRoute patchUrl PatchView;
    mkRoute treeRootUrl TreeView;
    mkRoute treeRootRefUrl TreeView;
    mkRoute treeRootRefPathUrl TreeView
  ].
Proof. reflexivity. Qed.

Lemma Dispatch_loop_skip (route : Route) (rest : list Route) (urlPath : string) :
  regexp.MatchString (Pattern route) urlPath = false ->
  Dispatch_loop (route :: rest) urlPath = Dispatch_loop rest urlPath.
Proof. intros Hno. simpl. now rewrite Hno. Qed.

Lemma Dispatch_loop_first_match (pre post : list Route) (route : Route)
    (urlPath : string) (submatch : list string) :
  Forall (fun r => regexp.MatchString (Pattern r) urlPath = false) pre ->
  regexp.FindStringSubmatch (Pattern route) urlPath = Some submatch ->
  Dispatch_loop (pre ++ route :: post) urlPath = View route (skipn 1 submatch).
Proof.
  intros Hpre Hsub. induction Hpre as [|r pre Hr Hpre IH].
  - simpl.
    assert (regexp.MatchString (Pattern route) urlPath = true) as ->
      by (apply FindStringSubmatch_MatchString; eauto).
    now rewrite Hsub.
  - rewrite <- app_comm_cons, Dispatch_loop_skip; assumption.
Qed.

Lemma Dispatch_not_static (routes : list Route) (fs : M unit) (ctx : Context) :
  strings.HasPrefix (URL_String (req_URL (ctx_Request ctx))) "/static/" = false ->
  Dispatch routes fs ctx
  = Dispatch_loop routes (URL_String (req_URL (ctx_Request ctx))) ctx.
Proof. intros Hstatic. unfold Dispatch, bind, get_ctx. now rewrite Hstatic. Qed.

(** C4. The dispatcher tries the patterns in the order of registration
    and the first that matches wins, its handler receiving the captured
    groups in the order of their index.  The request path
    /myrepo/tree/main/src/app.go is not matched by the one- and
    two-segment tree patterns; the three-segment tree pattern matches it
    and the tree handler receives myrepo, main, src/app.go. *)
Theorem Dispatch_first_match_wins :
  (forall (pre post : list Route) (route : Route) (submatch : list string)
          (fs : M unit) (ctx : Context),
     strings.HasPrefix (URL_String (req_URL (ctx_Request ctx))) "/static/" = false ->
     Forall (fun r => regexp.MatchString (Pattern r)
                        (URL_String (req_URL (ctx_Request ctx))) = false) pre ->
     regexp.FindStringSubmatch (Pattern route) (URL_String (req_URL (ctx_Request ctx)))
       = Some submatch ->
     Dispatch (pre ++ route :: post) fs ctx = View route (skipn 1 submatch) ctx) /\
  (exists (routes : list Route),
     CompileRoutes = Some routes /\
     MustCompile "^/(?P<repo>[a-zA-Z0-9\-~\.]+)/tree$" = Some treeRootUrl /\
     MustCompile "^/(?P<repo>[a-zA-Z0-9\-~\.]+)/tree/(?P<ref>[a-zA-Z0-9\-~\.]+)$"
       = Some treeRootRefUrl /\
     MustCompile
       "^/(?P<repo>[a-zA-Z0-9\-~\.]+)/tree/(?P<ref>[a-zA-Z0-9\-~\.]+)/(?P<path>.*)$"
       = Some treeRootRefPathUrl /\
     map Pattern (skipn 8 routes) = [treeRootUrl; treeRootRefUrl; treeRootRefPathUrl] /\
     regexp.MatchString treeRootUrl "/myrepo/tree/main/src/app.go" = false /\
     regexp.MatchString treeRootRefUrl "/myrepo/tree/main/src/app.go" = false /\
     regexp.FindStringSubmatch treeRootRefPathUrl "/myrepo/tree/main/src/app.go"
       = Some ["/myrepo/tree/main/src/app.go"; "myrepo"; "main"; "src/app.go"] /\
     (forall (fs : M unit) (ctx : Context),
        URL_String (req_URL (ctx_Request ctx)) = "/myrepo/tree/main/src/app.go" ->
        Dispatch routes fs ctx = TreeView ["myrepo"; "main"; "src/app.go"] ctx)).
Proof.
  split.
  - intros pre post route submatch fs ctx Hstatic Hpre Hsub.
    rewrite Dispatch_not_static by exact Hstatic.
    now rewrite (Dispatch_loop_first_match pre post route _ submatch).
  - eexists. split; [exact CompileRoutes_routes|].
    repeat (split; [vm_compute; reflexivity|]).
    intros fs ctx Hurl.
    rewrite Dispatch_not_static by (rewrite Hurl; vm_compute; reflexivity).
    rewrite Hurl.
    apply (f_equal (fun h : M unit => h ctx)).
    apply (Dispatch_loop_first_match
             [mkRoute indexUrl IndexView; mkRoute repoIndexUrl RepoIndexView;
              mkRoute repoGitUrl RepoGitView; mkRoute refsUrl RefsView;
              mkRoute logDefaultUrl LogViewDefault; mkRoute logUrl LogView;
              mkRoute commitUrl CommitView; mkRoute patchUrl PatchView;
              mkRoute treeRootUrl TreeView; mkRoute treeRootRefUrl TreeView]
             [] (mkRoute treeRootRefPathUrl TreeView)
             "/myrepo/tree/main/src/app.go"
             ["/myrepo/tree/main/src/app.go"; "myrepo"; "main"; "src/app.go"]).
    + repeat (constructor; [vm_compute; reflexivity|]). constructor.
    + vm_compute. reflexivity.
Qed.

(** A request with a query string has a [?] in its URL string. *)
Lemma URL_String_query (P : ascii -> bool) (u : URL) :
  RawQuery u <> "" -> P "?"%char = false ->
  regexp.string_forallb P (URL_String u) = false.
Proof.
  intros Hq HP. unfold URL_String.
  assert (negb (String.eqb (RawQuery u) "") = true) as ->
    by (apply negb_true_iff, String.eqb_neq, Hq).
  rewrite orb_true_r, string_forallb_app.
  change ("?" ++ RawQuery u)%string with (String "?"%char (RawQuery u)).
  simpl. rewrite HP. apply andb_false_r.
Qed.

Lemma MatchString_query (re : regexp.Syntax) (u : URL) :
  regexp.anchored_begin re = true ->
  regexp.anchored_end re = true ->
  regexp.alphabet re "?"%char = false ->
  RawQuery u <> "" ->
  regexp.MatchString re (URL_String u) = false.
Proof.
  intros Hb He Ha Hq.
  apply MatchString_anchored_alphabet; try assumption.
  now apply URL_String_query.
Qed.

(** What the dispatcher does with a URL that is not under /static/ when
    only the git transport, the patch and the three-segment tree routes
    can match: the first of the three that matches gets the request,
    with the groups it captured, and else the request is not found. *)
Definition dispatch_of_three (urlPath : string) : M unit :=
  match regexp.FindStringSubmatch repoGitUrl urlPath with
  | Some submatch => RepoGitView (skipn 1 submatch)
  | None =>
      match regexp.FindStringSubmatch patchUrl urlPath with
      | Some submatch => PatchView (skipn 1 submatch)
      | None =>
          match regexp.FindStringSubmatch treeRootRefPathUrl urlPath with
          | Some submatch => TreeView (skipn 1 submatch)
          | None => Http404
          end
      end
  end.

Lemma Dispatch_loop_match (route : Route) (routes : list Route) (urlPath : string) :
  Dispatch_loop (route :: routes) urlPath
  = match regexp.FindStringSubmatch (Pattern route) urlPath with
    | Some submatch => View route (skipn 1 submatch)
    | None => Dispatch_loop routes urlPath
    end.
Proof.
  cbn [Dispatch_loop].
  destruct (regexp.FindStringSubmatch (Pattern route) urlPath) as [submatch|] eqn:Hsub.
  - assert (regexp.MatchString (Pattern route) urlPath = true) as ->
      by (apply FindStringSubmatch_MatchString; eauto).
    reflexivity.
  - destruct (regexp.MatchString (Pattern route) urlPath) eqn:Hmatch; [|reflexivity].
    apply FindStringSubmatch_MatchString in Hmatch as (m & Hm). congruence.
Qed.

(** C9, amended. The dispatcher matches the patterns against the URL
    string, query string included.  For every request with a non-empty
    query string, the eight patterns that are anchored at the end after a
    label, a commit id or a fixed word (index, repository index, refs,
    log default, log, commit, tree root, tree root of a ref) do not
    match.  A request under /static/ goes to the file server as ever;
    any other is dispatched as if only the git transport, the patch and
    the three-segment tree routes were registered: the first of these
    that matches handles it, and it is not found when none of them
    matches. *)
Theorem Dispatch_query_string (fs : M unit) (ctx : Context) :
  RawQuery (req_URL (ctx_Request ctx)) <> "" ->
  Forall (fun re => regexp.MatchString re (URL_String (req_URL (ctx_Request ctx))) = false)
    [indexUrl; repoIndexUrl; refsUrl; logDefaultUrl; logUrl; commitUrl;
     treeRootUrl; treeRootRefUrl] /\
  exists routes,
    CompileRoutes = Some routes /\
    Dispatch routes fs ctx
    = Dispatch [mkRoute repoGitUrl RepoGitView; mkRoute patchUrl PatchView;
                mkRoute treeRootRefPathUrl TreeView] fs ctx /\
    Dispatch routes fs ctx
    = if strings.HasPrefix (URL_String (req_URL (ctx_Request ctx))) "/static/"
      then fs ctx
      else dispatch_of_three (URL_String (req_URL (ctx_Request ctx))) ctx.
Proof.
  intros Hq.
  assert (forall re, regexp.anchored_begin re = true -> regexp.anchored_end re = true ->
                     regexp.alphabet re "?"%char = false ->
                     regexp.MatchString re (URL_String (req_URL (ctx_Request ctx))) = false)
    as Hno by (intros; now apply MatchString_query).
  assert (Forall (fun re => regexp.MatchString re
                              (URL_String (req_URL (ctx_Request ctx))) = false)
            [indexUrl; repoIndexUrl; refsUrl; logDefaultUrl; logUrl; commitUrl;
             treeRootUrl; treeRootRefUrl]) as Hall
    by (repeat (constructor; [apply Hno; vm_compute; reflexivity|]); constructor).
  split; [exact Hall|].
  eexists. split; [exact CompileRoutes_routes|].
  assert (forall routes',
            Dispatch routes' fs ctx
            = if strings.HasPrefix (URL_String (req_URL (ctx_Request ctx))) "/static/"
              then fs ctx
              else Dispatch_loop routes' (URL_String (req_URL (ctx_Request ctx))) ctx)
    as Hdispatch.
  { intros routes'. unfold Dispatch, bind, get_ctx.
    now destruct (strings.HasPrefix _ _). }
  assert (Dispatch_loop
            [mkRoute indexUrl IndexView; mkRoute repoIndexUrl RepoIndexView;
             mkRoute repoGitUrl RepoGitView; mkRoute refsUrl RefsView;
             mkRoute logDefaultUrl LogViewDefault; mkRoute logUrl LogView;
             mkRoute commitUrl CommitView; mkRoute patchUrl PatchView;
             mkRoute treeRootUrl TreeView; mkRoute treeRootRefUrl TreeView;
             mkRoute treeRootRefPathUrl TreeView]
            (URL_String (req_URL (ctx_Request ctx)))
          = Dispatch_loop
              [mkRoute repoGitUrl RepoGitView; mkRoute patchUrl PatchView;
               mkRoute treeRootRefPathUrl TreeView]
              (URL_String (req_URL (ctx_Request ctx)))) as Hthree.
  { repeat match goal with
           | H : Forall _ (_ :: _) |- _ => inversion H; subst; clear H
           end.
    simpl Dispatch_loop.
    repeat match goal with
           | H : regexp.MatchString _ _ = false |- _ => rewrite H; clear H
           end.
    reflexivity. }
  split.
  - rewrite !Hdispatch. now rewrite Hthree.
  - rewrite Hdispatch, Hthree. rewrite !Dispatch_loop_match. reflexivity.
Qed.

End DispatchProperties.

(** ** The tree navigator *)

Section TreeProperties.

Context `{C : Collaborators}.

(** The context after a handler wrote [resp]. *)
Definition respond (ctx : Context) (resp : Response) : Context :=
  mkContext (ctx_Request ctx) (Keys ctx) (Errors ctx) (Writer ctx ++ [resp]).

Definition NotFoundPage (cfg : SmithyConfig) : Response :=
  HTML StatusNotFound "404.html" (makeTemplateContext cfg ∅).

Definition ServerErrorPage (cfg : SmithyConfig) : Response :=
  HTML StatusInternalServerError "500.html" (makeTemplateContext cfg ∅).

Lemma Http404_run (ctx : Context) (cfg : SmithyConfig) :
  Keys ctx !! "config" = Some (AnyConfig cfg) ->
  Http404 ctx = Some (tt, respond ctx (NotFoundPage cfg)).
Proof. intros Hcfg. unfold Http404, bind, MustGet_config. now rewrite Hcfg. Qed.

Lemma Http500_run (ctx : Context) (cfg : SmithyConfig) :
  Keys ctx !! "config" = Some (AnyConfig cfg) ->
  Http500 ctx = Some (tt, respond ctx (ServerErrorPage cfg)).
Proof. intros Hcfg. unfold Http500, bind, MustGet_config. now rewrite Hcfg. Qed.

Lemma navigation_NotFoundPage (cfg : SmithyConfig) :
  navigation (NotFoundPage cfg) = Some NavNotFound /\
  carries_directory (NotFoundPage cfg) = false /\
  carries_file (NotFoundPage cfg) = false.
Proof. repeat split; vm_compute; reflexivity. Qed.

(** A response shows exactly one of the four outcomes, and carries the
    data of that outcome only. *)
Definition one_outcome (resp : Response) : Prop :=
  match navigation resp with
  | Some (NavRoot _) | Some (NavDirectory _ _ _) =>
      carries_directory resp = true /\ carries_file resp = false
  | Some (NavFile _ _ _) =>
      carries_directory resp = false /\ carries_file resp = true
  | Some NavNotFound =>
      carries_directory resp = false /\ carries_file resp = false
  | None => False
  end.

(** A file entry gets no directory listing, any other entry no file. *)
Definition fits_entry (out : object.TreeEntry) (resp : Response) : Prop :=
  if filemode.IsFile (object.entry_Mode out)
  then carries_directory resp = false
  else carries_file resp = false.

Lemma one_outcome_NotFoundPage (cfg : SmithyConfig) : one_outcome (NotFoundPage cfg).
Proof. vm_compute. auto. Qed.

Lemma fits_entry_NotFoundPage (out : object.TreeEntry) (cfg : SmithyConfig) :
  fits_entry out (NotFoundPage cfg).
Proof. unfold fits_entry. destruct (filemode.IsFile _); vm_compute; reflexivity. Qed.

Lemma treePath_run (urlParts : list string) (ctx : Context) :
  (if (2 <? length urlParts)%nat then index urlParts 2 else ret "") ctx
  = Some (nth 2 urlParts "", ctx).
Proof.
  destruct urlParts as [|a [|b [|c more]]]; reflexivity.
Qed.

Lemma TreeView_at_run (ctx : Context) (cfg : SmithyConfig) (repoName : string)
    (repo : RepositoryWithName git_Repository) (urlParts : list string)
    (refNameString : string) :
  Keys ctx !! "config" = Some (AnyConfig cfg) ->
  exists resp,
    TreeView_at cfg repoName repo urlParts refNameString ctx = Some (tt, respond ctx resp) /\
    one_outcome resp /\
    (forall revision commitObj tree out,
       ResolveRevision (Repository repo) refNameString = Ok revision ->
       GetCommit (Repository repo) revision = Ok commitObj ->
       commit_Tree (Repository repo) commitObj = Ok tree ->
       nth 2 urlParts "" <> "" ->
       FindEntry (Repository repo) tree (nth 2 urlParts "") = Ok out ->
       fits_entry out resp).
Proof.
  intros Hcfg.
  pose proof (Http404_run ctx cfg Hcfg) as H404.
  pose proof (one_outcome_NotFoundPage cfg) as Hone.
  unfold TreeView_at, bind. 
  destruct (ResolveRevision (Repository repo) refNameString) as [revision|e1] eqn:Hrev.
  2: { exists (NotFoundPage cfg). repeat split; auto. intros; apply fits_entry_NotFoundPage. }
  rewrite treePath_run.
  destruct (GetCommit (Repository repo) revision) as [commitObj|e2] eqn:Hcommit.
  2: { exists (NotFoundPage cfg). repeat split; auto. intros; apply fits_entry_NotFoundPage. }
  destruct (commit_Tree (Repository repo) commitObj) as [tree|e3] eqn:Htree.
  2: { exists (NotFoundPage cfg). repeat split; auto. intros; apply fits_entry_NotFoundPage. }
  destruct (String.eqb (nth 2 urlParts "") "") eqn:Hroot.
  { eexists. split; [reflexivity|]. split; [vm_compute; auto|].
    intros ? ? ? ? _ _ _ Hne. apply String.eqb_eq in Hroot. contradiction. }
  destruct (FindEntry (Repository repo) tree (nth 2 urlParts "")) as [out|e4] eqn:Hentry.
  2: { exists (NotFoundPage cfg). repeat split; auto. intros; apply fits_entry_NotFoundPage. }
  destruct (filemode.IsFile (object.entry_Mode out)) eqn:Hfile; cbn [negb].
  - destruct (tree_File (Repository repo) tree (nth 2 urlParts "")) as [file|e5].
    2: { exists (NotFoundPage cfg). repeat split; auto. intros; apply fits_entry_NotFoundPage. }
    destruct (Contents (Repository repo) file) as [contents|e6].
    2: { exists (NotFoundPage cfg). repeat split; auto. intros; apply fits_entry_NotFoundPage. }
    eexists. split; [reflexivity|]. split; [vm_compute; auto|].
    intros revision' commitObj' tree' out' [= <-] Hc Ht _ He.
    rewrite Hcommit in Hc. injection Hc as <-.
    rewrite Htree in Ht. injection Ht as <-.
    rewrite Hentry in He. injection He as <-.
    unfold fits_entry. rewrite Hfile. vm_compute. reflexivity.
  - destruct (tree_Tree (Repository repo) tree (nth 2 urlParts "")) as [subTree|e5].
    2: { exists (NotFoundPage cfg). repeat split; auto. intros; apply fits_entry_NotFoundPage. }
    eexists. split; [reflexivity|]. split; [vm_compute; auto|].
    intros revision' commitObj' tree' out' [= <-] Hc Ht _ He.
    rewrite Hcommit in Hc. injection Hc as <-.
    rewrite Htree in Ht. injection Ht as <-.
    rewrite Hentry in He. injection He as <-.
    unfold fits_entry. rewrite Hfile. vm_compute. reflexivity.
Qed.

(** C5, amended. On every request the tree handler writes one response,
    showing exactly one of: root listing, directory listing, file, not
    found; the response carries directory data or file data according to
    that outcome and never both.  When the path resolves to an entry of
    the commit's tree, an entry whose mode is that of a file (regular,
    deprecated, executable or symbolic link) is never answered with a
    directory listing, and any other entry (directory, submodule) never
    with file contents. *)
Theorem TreeView_one_outcome (ctx : Context) (cfg : SmithyConfig) (repoName : string)
    (rest : list string) :
  Keys ctx !! "config" = Some (AnyConfig cfg) ->
  exists (resp : Response) (errs : list error),
    TreeView (repoName :: rest) ctx = Some (tt, respond (with_errors ctx errs) resp) /\
    one_outcome resp /\
    (carries_directory resp && carries_file resp = false) /\
    (forall repo refNameString treePath more revision commitObj tree out,
       rest = refNameString :: treePath :: more ->
       FindRepo cfg repoName = Some repo ->
       ResolveRevision (Repository repo) refNameString = Ok revision ->
       GetCommit (Repository repo) revision = Ok commitObj ->
       commit_Tree (Repository repo) commitObj = Ok tree ->
       treePath <> "" ->
       FindEntry (Repository repo) tree treePath = Ok out ->
       fits_entry out resp).
Proof.
  intros Hcfg.
  assert (forall resp, one_outcome resp -> carries_directory resp && carries_file resp = false)
    as Hboth.
  { intros resp. unfold one_outcome.
    destruct (navigation resp) as [[| | |]|]; intros H; try contradiction;
      destruct H as [-> ->]; reflexivity. }
  unfold TreeView, bind, index. cbn [nth_error ret].
  unfold MustGet_config. rewrite Hcfg.
  destruct (FindRepo cfg repoName) as [repo|] eqn:Hrepo.
  2: { exists (NotFoundPage cfg), []. rewrite with_errors_nil.
       split; [now apply Http404_run|]. split; [apply one_outcome_NotFoundPage|].
       split; [vm_compute; reflexivity|]. intros; discriminate. }
  destruct rest as [|refNameString rest].
  - (* no reference in the URL: the default branch *)
    cbn [length Nat.ltb Nat.leb]. rewrite findMainBranch_cases.
    destruct (ResolveRevision (Repository repo) "main") as [h1|e1].
    + destruct (TreeView_at_run ctx cfg repoName repo [repoName] "main" Hcfg)
        as (resp & Hrun & Hone & _).
      exists resp, []. rewrite with_errors_nil.
      repeat split; auto. intros; discriminate.
    + destruct (ResolveRevision (Repository repo) "master") as [h2|e2].
      * destruct (TreeView_at_run (with_errors ctx [e1]) cfg repoName repo
                    [repoName] "master" Hcfg) as (resp & Hrun & Hone & _).
        exists resp, [e1]. repeat split; auto. intros; discriminate.
      * exists (NotFoundPage cfg),
          [e1; e2; errors_New "failed to find a 'main' or 'master' branch"].
        split.
        { unfold ctx_Error. cbn [with_errors Errors Keys ctx_Request Writer].
          rewrite (Http404_run _ cfg) by exact Hcfg.
          unfold respond, with_errors. cbn. now rewrite <- app_assoc. }
        split; [apply one_outcome_NotFoundPage|].
        split; [vm_compute; reflexivity|]. intros; discriminate.
  - cbn [length Nat.ltb Nat.leb nth_error].
    destruct (TreeView_at_run ctx cfg repoName repo (repoName :: refNameString :: rest)
                refNameString Hcfg) as (resp & Hrun & Hone & Hfit).
    exists resp, []. rewrite with_errors_nil.
    split; [exact Hrun|]. split; [exact Hone|]. split; [now apply Hboth|].
    intros repo' ref' treePath more revision commitObj tree out [= <- ->] [= <-].
    intros. eapply (Hfit revision commitObj tree out); eauto.
Qed.

End TreeProperties.

(** ** The patch *)

Section PatchProperties.

Context `{C : Collaborators}.

(** The mailbox text of a commit: the header block, the separator line,
    the statistics and the patch. *)
Definition mailbox (commitObj : object.Commit) (stats patch : string) : string :=
  (("From " ++ plumbing.Hash_String (object.commit_Hash commitObj)
      ++ " Mon Sep 17 00:00:00 2001") ++ nl
   ++ ("From: " ++ object.sig_Name (object.Author commitObj)
         ++ " <" ++ object.sig_Email (object.Author commitObj) ++ ">") ++ nl
   ++ ("Date: " ++ time_Format (object.sig_When (object.Author commitObj))
                     "Mon, 2 Jan 2006 15:04:05 -0700") ++ nl
   ++ ("Subject: [PATCH] " ++ object.Message commitObj) ++ nl
   ++ "---" ++ nl ++ stats ++ nl ++ patch)%string.

Lemma commit_Parent_first (r : git_Repository) (commitObj : object.Commit)
    (first : plumbing.Hash) (others : list plumbing.Hash) :
  object.ParentHashes commitObj = first :: others ->
  commit_Parent r commitObj 0 = GetCommit r first.
Proof.
  intros Hp. unfold commit_Parent. rewrite Hp.
  cbn [length nth Z.to_nat].
  assert (((Z.of_nat (S (length others)) =? 0) || (0 >? Z.of_nat (S (length others)) - 1))%Z
          = false) as ->; [|reflexivity].
  apply orb_false_iff. split; [apply Z.eqb_neq; lia|].
  rewrite Z.gtb_ltb. apply Z.ltb_ge. lia.
Qed.

Lemma NumParents_first (commitObj : object.Commit)
    (first : plumbing.Hash) (others : list plumbing.Hash) :
  object.ParentHashes commitObj = first :: others ->
  (object.NumParents commitObj =? 0)%Z = false.
Proof.
  intros Hp. unfold object.NumParents. rewrite Hp. apply Z.eqb_neq.
  cbn [length]. lia.
Qed.

(** C2, amended. The patch handler answers a commit with no parent with
    the server-error page.  For a commit with a first parent it answers
    the server-error page when the first parent cannot be loaded, or the
    patch from the first parent or the statistics of the commit cannot
    be computed; otherwise it answers the mailbox text: the From line,
    From:, Date: and Subject: [PATCH] lines, a line of three dashes, the
    statistics, and the patch from the first parent alone. *)
Theorem PatchView_mailbox (ctx : Context) (cfg : SmithyConfig) (repoName commitID : string)
    (repo : RepositoryWithName git_Repository) (commitObj : object.Commit) :
  Keys ctx !! "config" = Some (AnyConfig cfg) ->
  FindRepo cfg repoName = Some repo ->
  commitID <> "" ->
  GetCommit (Repository repo) (plumbing.NewHash commitID) = Ok commitObj ->
  (object.NumParents commitObj = 0%Z ->
   PatchView [repoName; commitID] ctx = Some (tt, respond ctx (ServerErrorPage cfg))) /\
  (forall first others,
     object.ParentHashes commitObj = first :: others ->
     PatchView [repoName; commitID] ctx
     = Some (tt, respond ctx
                   match GetCommit (Repository repo) first with
                   | Err _ => ServerErrorPage cfg
                   | Ok parentCommit =>
                       match commit_Patch (Repository repo) parentCommit commitObj with
                       | Err _ => ServerErrorPage cfg
                       | Ok patchObj =>
                           match commit_Stats (Repository repo) commitObj with
                           | Err _ => ServerErrorPage cfg
                           | Ok stats =>
                               Text StatusOK
                                 (mailbox commitObj (FileStats_String stats)
                                    (Patch_String patchObj))
                           end
                       end
                   end)).
Proof.
  intros Hcfg Hrepo Hid Hcommit.
  pose proof (Http500_run ctx cfg Hcfg) as H500.
  assert (PatchView [repoName; commitID] ctx
          = (if (object.NumParents commitObj =? 0)%Z then Http500
             else
               match commit_Parent (Repository repo) commitObj 0 with
               | Err _ => Http500
               | Ok parentCommit =>
                   match commit_Patch (Repository repo) parentCommit commitObj with
                   | Err _ => Http500
                   | Ok patchObj =>
                       match commit_Stats (Repository repo) commitObj with
                       | Err _ => Http500
                       | Ok stats =>
                           ctx_String StatusOK
                             (mailbox commitObj (FileStats_String stats)
                                (Patch_String patchObj))
                       end
                   end
               end) ctx) as Hview.
  { unfold PatchView, bind, index. cbn [nth_error ret].
    unfold MustGet_config. rewrite Hcfg, Hrepo.
    apply String.eqb_neq in Hid. rewrite Hid, Hcommit. reflexivity. }
  rewrite Hview. split.
  - intros ->. exact H500.
  - intros first others Hp.
    rewrite (NumParents_first _ _ _ Hp), (commit_Parent_first _ _ _ _ Hp).
    destruct (GetCommit (Repository repo) first) as [parentCommit|]; [|exact H500].
    destruct (commit_Patch (Repository repo) parentCommit commitObj); [|exact H500].
    destruct (commit_Stats (Repository repo) commitObj); [|exact H500].
    reflexivity.
Qed.

End PatchProperties.

(** ** Store failures in the tree and commit handlers *)

Section StoreFailures.

Context `{C : Collaborators}.

(** The tree handler answers a commit whose tree cannot be read with the
    not-found page. *)
Lemma TreeView_unreadable_tree (ctx : Context) (cfg : SmithyConfig)
    (repoName refNameString : string) (rest : list string)
    (repo : RepositoryWithName git_Repository) (revision : plumbing.Hash)
    (commitObj : object.Commit) (err : error) :
  Keys ctx !! "config" = Some (AnyConfig cfg) ->
  FindRepo cfg repoName = Some repo ->
  ResolveRevision (Repository repo) refNameString = Ok revision ->
  GetCommit (Repository repo) revision = Ok commitObj ->
  commit_Tree (Repository repo) commitObj = Err err ->
  TreeView (repoName :: refNameString :: rest) ctx
  = Some (tt, respond ctx (NotFoundPage cfg)).
Proof.
  intros Hcfg Hrepo Hrev Hcommit Htree.
  unfold TreeView, bind, index. cbn [nth_error ret length Nat.ltb Nat.leb].
  unfold MustGet_config. rewrite Hcfg, Hrepo.
  unfold TreeView_at, bind. rewrite Hrev, treePath_run, Hcommit, Htree.
  now apply Http404_run.
Qed.

(** The commit handler answers a failure of the change set, or of the
    rendering of a file's patch, with the not-found page. *)
Lemma CommitView_store_failure (ctx : Context) (cfg : SmithyConfig)
    (repoName commitID : string) (repo : RepositoryWithName git_Repository)
    (commitObj : object.Commit) :
  Keys ctx !! "config" = Some (AnyConfig cfg) ->
  FindRepo cfg repoName = Some repo ->
  commitID <> "" ->
  GetCommit (Repository repo) (plumbing.NewHash commitID) = Ok commitObj ->
  match GetChanges (Repository repo) commitObj with
  | Err _ => True
  | Ok changes => is_Ok (FormatChanges (Repository repo) changes) = false
  end ->
  CommitView [repoName; commitID] ctx = Some (tt, respond ctx (NotFoundPage cfg)).
Proof.
  intros Hcfg Hrepo Hid Hcommit Hfail.
  unfold CommitView, bind, index. cbn [nth_error ret].
  unfold MustGet_config. rewrite Hcfg, Hrepo.
  apply String.eqb_neq in Hid. rewrite Hid, Hcommit.
  destruct (GetChanges (Repository repo) commitObj) as [changes|e1];
    [|now apply Http404_run].
  destruct (FormatChanges (Repository repo) changes) as [text|e2];
    [discriminate|now apply Http404_run].
Qed.

End StoreFailures.

(** * Worked repositories *)

Module Example.

#[local] Existing Instance Mem_collaborators.

Fixpoint repeat_char (c : ascii) (n : nat) : string :=
  match n with
  | O => EmptyString
  | S n' => String c (repeat_char c n')
  end.

(** An object id of forty equal hex digits, and the hash it spells. *)
Definition id (c : ascii) : string := repeat_char c 40.
Definition hash (c : ascii) : plumbing.Hash := plumbing.NewHash (id c).

Definition reference_time : object.Time := object.mkTime 1136239445 (-25200).

Definition honza : object.Signature :=
  object.mkSignature "Honza" "honza@example.org" reference_time.

(** Trees: the first commit has README.md and src/app.go; the second
    changes src/app.go. *)
Definition root_tree_1 : object.Tree :=
  object.mkTree
    [object.mkTreeEntry "README.md" filemode.Regular (hash "a");
     object.mkTreeEntry "src" filemode.Dir (hash "e")]
    (hash "d").

Definition src_tree_1 : object.Tree :=
  object.mkTree [object.mkTreeEntry "app.go" filemode.Regular (hash "b")] (hash "e").

Definition root_tree_2 : object.Tree :=
  object.mkTree
    [object.mkTreeEntry "README.md" filemode.Regular (hash "a");
     object.mkTreeEntry "src" filemode.Dir (hash "0")]
    (hash "f").

Definition src_tree_2 : object.Tree :=
  object.mkTree [object.mkTreeEntry "app.go" filemode.Regular (hash "c")] (hash "0").

(** A tree that names a blob the store does not hold. *)
Definition ghost_tree : object.Tree :=
  object.mkTree [object.mkTreeEntry "ghost.txt" filemode.Regular (hash "7")] (hash "6").

Definition first : object.Commit :=
  object.mkCommit (hash "1") honza honza "Initial commit" (hash "d") [].

Definition second : object.Commit :=
  object.mkCommit (hash "2") honza honza
    ("Answer requests" ++ nl ++ nl ++ "The handlers are in place.")%string
    (hash "f") [hash "1"].

(** The boundary of a shallow clone: its parent is not in the store. *)
Definition shallow : object.Commit :=
  object.mkCommit (hash "3") honza honza "Boundary" (hash "f") [hash "9"].

(** A commit whose tree is not in the store. *)
Definition broken : object.Commit :=
  object.mkCommit (hash "4") honza honza "Lost tree" (hash "8") [hash "2"].

(** A root commit over the tree with the missing blob. *)
Definition ghost : object.Commit :=
  object.mkCommit (hash "5") honza honza "Lost blob" (hash "6") [].

Definition myrepo : @git_Repository Mem_collaborators := {|
  Mem.revisions :=
    [("main", hash "2"); ("v1.0", hash "1"); ("broken", hash "4"); ("shallow", hash "3")];
  Mem.commits :=
    [(hash "1", first); (hash "2", second); (hash "3", shallow); (hash "4", broken);
     (hash "5", ghost)];
  Mem.trees :=
    [(hash "d", root_tree_1); (hash "e", src_tree_1); (hash "f", root_tree_2);
     (hash "0", src_tree_2); (hash "6", ghost_tree)];
  Mem.blobs :=
    [(hash "a", "# smithy"); (hash "b", "package main");
     (hash "c", "package main // v2")];
  Mem.branches :=
    Ok [Ok (plumbing.mkReference "refs/heads/main" (hash "2"));
        Ok (plumbing.mkReference "refs/heads/dev" (hash "1"))];
  Mem.tags := Ok [Ok (plumbing.mkReference "refs/tags/v1.0" (hash "1"))];
  Mem.log := fun opts =>
    if (log_From opts =? hash "2")%Z then Ok [Ok second; Ok first]
    else if (log_From opts =? hash "1")%Z then Ok [Ok first]
    else if (log_From opts =? hash "3")%Z then Ok [Ok shallow; Err ErrObjectNotFound]
    else Err ErrObjectNotFound
|}.

(** A linear history of 150 commits, the newest first. *)
Definition nth_commit (i : nat) : object.Commit :=
  let when := object.mkTime (1136239445 - Z.of_nat i) 0 in
  let who := object.mkSignature "Honza" "honza@example.org" when in
  object.mkCommit (Z.of_nat (150 - i)) who who "Work" (hash "d")
    (if (i =? 149)%nat then [] else [Z.of_nat (149 - i)]).

Definition history : list object.Commit := map nth_commit (seq 0 150).

Definition big : @git_Repository Mem_collaborators := {|
  Mem.revisions := [("main", 150%Z)];
  Mem.commits := map (fun c => (object.commit_Hash c, c)) history;
  Mem.trees := [(hash "d", root_tree_1); (hash "e", src_tree_1)];
  Mem.blobs := [(hash "a", "# smithy"); (hash "b", "package main")];
  Mem.branches := Ok [Ok (plumbing.mkReference "refs/heads/main" 150%Z)];
  Mem.tags := Ok [];
  Mem.log := fun opts => Ok (map Ok history)
|}.

Definition config : @SmithyConfig Mem_collaborators := {|
  Mem.cfg_Title := "smithy";
  Mem.cfg_Description := "the git forge";
  Mem.cfg_Host := "localhost";
  Mem.cfg_Repos :=
    [mkRepositoryWithName "myrepo" myrepo; mkRepositoryWithName "big" big]
|}.

(** The context of a request for [path] with the query string [query],
    once the config middleware has run. *)
Definition request (path query : string) : Context :=
  mkContext
    (mkRequest (mkURL path false query)
       (if String.eqb query "" then path else (path ++ "?" ++ query)%string))
    (<["config" := AnyConfig config]> ∅) [] [].

(** Two requests that carry a query string. *)
Definition tree_request_with_query : Context :=
  request "/myrepo/tree/main/src/app.go" "plain=1".

Definition patch_request_with_query : Context :=
  request ("/myrepo/commit/" ++ id "2" ++ ".patch") "full=1".

(** The routes before the three-segment tree route. *)
Definition earlier_routes : list Route :=
  [mkRoute indexUrl IndexView; mkRoute repoIndexUrl RepoIndexView;
   mkRoute repoGitUrl RepoGitView; mkRoute refsUrl RefsView;
   mkRoute logDefaultUrl LogViewDefault; mkRoute logUrl LogView;
   mkRoute commitUrl CommitView; mkRoute patchUrl PatchView;
   mkRoute treeRootUrl TreeView; mkRoute treeRootRefUrl TreeView].

End Example.

(** Two more repositories: one whose tree holds a symbolic link, and one
    whose newest commit was made on a clock that ran behind. *)
Module Edge.

#[local] Existing Instance Mem_collaborators.

(** The blob of a symbolic link holds the path the link points to. *)
Definition linked_tree : object.Tree :=
  object.mkTree
    [object.mkTreeEntry "app.go" filemode.Regular (Example.hash "b");
     object.mkTreeEntry "latest" filemode.Symlink (Example.hash "a")]
    (Example.hash "d").

Definition linked : object.Commit :=
  object.mkCommit (Example.hash "1") Example.honza Example.honza "Link the latest"
    (Example.hash "d") [].

Definition links : @git_Repository Mem_collaborators := {|
  Mem.revisions := [("main", Example.hash "1")];
  Mem.commits := [(Example.hash "1", linked)];
  Mem.trees := [(Example.hash "d", linked_tree)];
  Mem.blobs := [(Example.hash "a", "app.go"); (Example.hash "b", "package main")];
  Mem.branches := Ok [Ok (plumbing.mkReference "refs/heads/main" (Example.hash "1"))];
  Mem.tags := Ok [];
  Mem.log := fun opts => Ok [Ok linked]
|}.

(** The parent was committed at the reference time; the child, an hour
    of clock earlier. *)
Definition behind : object.Signature :=
  object.mkSignature "Honza" "honza@example.org"
    (object.mkTime (1136239445 - 3600) (-25200)).

Definition parent : object.Commit :=
  object.mkCommit (Example.hash "1") Example.honza Example.honza "On time"
    (Example.hash "d") [].

Definition child : object.Commit :=
  object.mkCommit (Example.hash "2") behind behind "Behind the clock"
    (Example.hash "d") [Example.hash "1"].

(** The history from a commit begins with that commit, whatever its
    time: the walk in committer-time order starts from it and reaches
    the parents only through it. *)
Definition skewed : @git_Repository Mem_collaborators := {|
  Mem.revisions := [("main", Example.hash "2")];
  Mem.commits := [(Example.hash "1", parent); (Example.hash "2", child)];
  Mem.trees := [(Example.hash "d", Example.root_tree_1); (Example.hash "e", Example.src_tree_1)];
  Mem.blobs := [(Example.hash "a", "# smithy"); (Example.hash "b", "package main")];
  Mem.branches := Ok [Ok (plumbing.mkReference "refs/heads/main" (Example.hash "2"))];
  Mem.tags := Ok [];
  Mem.log := fun opts =>
    if (log_From opts =? Example.hash "2")%Z then Ok [Ok child; Ok parent]
    else if (log_From opts =? Example.hash "1")%Z then Ok [Ok parent]
    else Err ErrObjectNotFound
|}.

Definition config : @SmithyConfig Mem_collaborators := {|
  Mem.cfg_Title := "smithy";
  Mem.cfg_Description := "the git forge";
  Mem.cfg_Host := "localhost";
  Mem.cfg_Repos :=
    [mkRepositoryWithName "links" links; mkRepositoryWithName "skewed" skewed]
|}.

(** The context of a request for [path], once the config middleware has
    run. *)
Definition request (path : string) : Context :=
  mkContext (mkRequest (mkURL path false "") path)
    (<["config" := AnyConfig config]> ∅) [] [].

End Edge.

(** ** The handlers on the worked repositories *)

Section Worked.

Import Example.

#[local] Existing Instance Mem_collaborators.

Lemma ReferenceCollector_sorted_or_error_witness :
  StronglySorted by_name
    [plumbing.mkReference "refs/heads/dev" (hash "1");
     plumbing.mkReference "refs/heads/main" (hash "2")].
Proof.
  apply (proj1 ReferenceCollector_sorted_or_error
           [Ok (plumbing.mkReference "refs/heads/main" (hash "2"));
            Ok (plumbing.mkReference "refs/heads/dev" (hash "1"))]).
  vm_compute. reflexivity.
Defined.

Lemma findMainBranch_default_branch_witness :
  findMainBranch myrepo (request "/myrepo/tree" "")
  = Some (Ok ("main", hash "2"), request "/myrepo/tree" "").
Proof.
  apply (proj1 (findMainBranch_default_branch myrepo (request "/myrepo/tree" ""))).
  vm_compute. reflexivity.
Defined.

Lemma GetChanges_root_commit_witness :
  object.NumParents first = 0%Z /\
  (GetChanges myrepo first
   = match commit_Tree myrepo first with
     | Ok tree => DiffTree myrepo None (Some tree)
     | Err err => Err err
     end
   /\
   (forall tree changes,
      commit_Tree myrepo first = Ok tree ->
      GetChanges myrepo first = Ok changes ->
      Forall (fun c => object.change_Action c = Ok object.Insert) changes /\
      (forall f, In (Ok f) (tree_Files myrepo tree) ->
         exists c e, In c changes /\ object.To c = Some e /\
                     object.change_Name e = object.file_Name f))).
Proof.
  split; [reflexivity|].
  apply (GetChanges_root_commit myrepo first). reflexivity.
Defined.

(** The history of [big] is newest first: each commit is a second older
    than the one before. *)
Lemma nth_commit_newest_first (n start : nat) :
  newest_first (map nth_commit (seq start n)).
Proof.
  unfold newest_first. revert start.
  induction n as [|n IH]; intros start; cbn [seq map]; [constructor|].
  constructor; [apply IH|].
  apply List.Forall_forall. intros c Hin.
  apply in_map_iff in Hin as (i & <- & Hi). apply in_seq in Hi.
  cbn. lia.
Qed.

Lemma history_newest_first : newest_first history.
Proof. apply nth_commit_newest_first. Qed.

Lemma LogView_page_witness :
  exists commits,
    LogView ["big"; "main"] (request "/big/log/main" "")
    = ctx_HTML StatusOK "log.html"
        (makeTemplateContext config
           (<["RepoName" := VString "big"]>
            (<["RefName" := VString "main"]>
             (<["Commits" := VCommits commits]> ∅)))) (request "/big/log/main" "") /\
    map c_Commit commits = firstn 100 history /\
    (length commits <= 100)%nat /\
    newest_first (map c_Commit commits) /\
    length commits = 100%nat.
Proof.
  destruct (proj2 LogView_page (request "/big/log/main" "") config "big" "main"
              (mkRepositoryWithName "big" big) 150%Z history)
    as (commits & Hrun & Hcommits & Hbound & Horder & Hfull); try reflexivity.
  exists commits. split; [exact Hrun|]. split; [exact Hcommits|].
  split; [exact Hbound|]. split; [apply Horder, history_newest_first|].
  apply Hfull. reflexivity.
Defined.

Lemma Dispatch_first_match_wins_witness :
  Dispatch (earlier_routes ++ mkRoute treeRootRefPathUrl TreeView :: [])
    (write (Served "static")) (request "/myrepo/tree/main/src/app.go" "")
  = TreeView ["myrepo"; "main"; "src/app.go"] (request "/myrepo/tree/main/src/app.go" "").
Proof.
  apply (proj1 Dispatch_first_match_wins earlier_routes []
           (mkRoute treeRootRefPathUrl TreeView)
           ["/myrepo/tree/main/src/app.go"; "myrepo"; "main"; "src/app.go"]
           (write (Served "static")) (request "/myrepo/tree/main/src/app.go" "")).
  - vm_compute. reflexivity.
  - repeat (constructor; [vm_compute; reflexivity|]). constructor.
  - vm_compute. reflexivity.
Defined.

Lemma Dispatch_query_string_witness :
  Forall (fun re => regexp.MatchString re "/myrepo/log/main?page=2" = false)
    [indexUrl; repoIndexUrl; refsUrl; logDefaultUrl; logUrl; commitUrl;
     treeRootUrl; treeRootRefUrl] /\
  exists routes,
    CompileRoutes = Some routes /\
    Dispatch routes (write (Served "static")) (request "/myrepo/log/main" "page=2")
    = Http404 (request "/myrepo/log/main" "page=2").
Proof.
  destruct (Dispatch_query_string (write (Served "static"))
              (request "/myrepo/log/main" "page=2"))
    as (Hnone & routes & Hroutes & _ & Hrun).
  - vm_compute. discriminate.
  - split; [exact Hnone|]. exists routes. split; [exact Hroutes|].
    rewrite Hrun.
    change (URL_String (req_URL (ctx_Request (request "/myrepo/log/main" "page=2"))))
      with "/myrepo/log/main?page=2".
    assert (strings.HasPrefix "/myrepo/log/main?page=2" "/static/" = false) as ->
      by (vm_compute; reflexivity).
    unfold dispatch_of_three.
    assert (regexp.FindStringSubmatch repoGitUrl "/myrepo/log/main?page=2" = None) as ->
      by (vm_compute; reflexivity).
    assert (regexp.FindStringSubmatch patchUrl "/myrepo/log/main?page=2" = None) as ->
      by (vm_compute; reflexivity).
    assert (regexp.FindStringSubmatch treeRootRefPathUrl "/myrepo/log/main?page=2" = None)
      as -> by (vm_compute; reflexivity).
    reflexivity.
Defined.

Lemma TreeView_one_outcome_witness :
  exists (resp : Response) (errs : list error),
    TreeView ["myrepo"; "main"; "src/app.go"] (request "/myrepo/tree/main/src/app.go" "")
    = Some (tt, respond (with_errors (request "/myrepo/tree/main/src/app.go" "") errs) resp) /\
    one_outcome resp /\
    (carries_directory resp && carries_file resp = false) /\
    (forall repo refNameString treePath more revision commitObj tree out,
       ["main"; "src/app.go"] = refNameString :: treePath :: more ->
       FindRepo config "myrepo" = Some repo ->
       ResolveRevision (Repository repo) refNameString = Ok revision ->
       GetCommit (Repository repo) revision = Ok commitObj ->
       commit_Tree (Repository repo) commitObj = Ok tree ->
       treePath <> "" ->
       FindEntry (Repository repo) tree treePath = Ok out ->
       fits_entry out resp).
Proof.
  apply (TreeView_one_outcome (request "/myrepo/tree/main/src/app.go" "") config
           "myrepo" ["main"; "src/app.go"]).
  reflexivity.
Defined.

Lemma PatchView_mailbox_witness :
  PatchView ["myrepo"; id "2"] (request ("/myrepo/commit/" ++ id "2" ++ ".patch") "")
  = Some (tt, respond (request ("/myrepo/commit/" ++ id "2" ++ ".patch") "")
                (Text StatusOK (mailbox second " +-+ src/app.go | 1" "+-+ src/app.go"))).
Proof.
  apply (proj2 (PatchView_mailbox
                  (request ("/myrepo/commit/" ++ id "2" ++ ".patch") "") config
                  "myrepo" (id "2") (mkRepositoryWithName "myrepo" myrepo) second
                  eq_refl eq_refl ltac:(discriminate) eq_refl)
           (hash "1") []).
  reflexivity.
Defined.

(** C1. The tree of [broken] cannot be read: the tree handler answers
    the not-found page, status 404, where a server error is due.  The
    change set of [broken] cannot be computed, and the patch of the one
    file of [ghost] cannot be rendered: the commit handler answers the
    not-found page as well. *)
Theorem store_failures_answered_not_found :
  commit_Tree myrepo broken = Err ErrObjectNotFound /\
  TreeView ["myrepo"; "broken"] (request "/myrepo/tree/broken" "")
  = Some (tt, respond (request "/myrepo/tree/broken" "") (NotFoundPage config)) /\
  GetChanges myrepo broken = Err ErrObjectNotFound /\
  CommitView ["myrepo"; id "4"] (request ("/myrepo/commit/" ++ id "4") "")
  = Some (tt, respond (request ("/myrepo/commit/" ++ id "4") "") (NotFoundPage config)) /\
  (exists changes,
     GetChanges myrepo ghost = Ok changes /\
     FormatChanges myrepo changes = Err ErrObjectNotFound) /\
  CommitView ["myrepo"; id "5"] (request ("/myrepo/commit/" ++ id "5") "")
  = Some (tt, respond (request ("/myrepo/commit/" ++ id "5") "") (NotFoundPage config)) /\
  status (NotFoundPage config) = Some 404%Z.
Proof.
  split; [reflexivity|]. split.
  { apply (TreeView_unreadable_tree _ config "myrepo" "broken" []
             (mkRepositoryWithName "myrepo" myrepo) (hash "4") broken ErrObjectNotFound);
      reflexivity. }
  split; [reflexivity|]. split.
  { apply (CommitView_store_failure _ config "myrepo" (id "4")
             (mkRepositoryWithName "myrepo" myrepo) broken);
      first [reflexivity | discriminate | exact I]. }
  split; [eexists; split; reflexivity|]. split.
  { apply (CommitView_store_failure _ config "myrepo" (id "5")
             (mkRepositoryWithName "myrepo" myrepo) ghost);
      first [reflexivity | discriminate]. }
  reflexivity.
Qed.

(** C2, as stated, fails: [shallow] has one parent, which the store does
    not hold, and the patch handler answers the server-error page. *)
Lemma PatchView_shallow_parent :
  GetCommit myrepo (plumbing.NewHash (id "3")) = Ok shallow /\
  object.NumParents shallow = 1%Z /\
  PatchView ["myrepo"; id "3"] (request ("/myrepo/commit/" ++ id "3" ++ ".patch") "")
  = Some (tt, respond (request ("/myrepo/commit/" ++ id "3" ++ ".patch") "")
                (ServerErrorPage config)) /\
  status (ServerErrorPage config) = Some 500%Z.
Proof. repeat split; reflexivity. Qed.

(** C9, as stated, fails: with a query string the three-segment tree
    pattern, which is anchored at the end, matches, its last group taking
    the query string into the path handed to the tree handler; and the
    patch route answers a request with a query string with status 200. *)
Lemma query_string_reaches_handlers :
  RawQuery (req_URL (ctx_Request tree_request_with_query)) = "plain=1" /\
  regexp.anchored_end treeRootRefPathUrl = true /\
  regexp.FindStringSubmatch treeRootRefPathUrl
    (URL_String (req_URL (ctx_Request tree_request_with_query)))
  = Some ["/myrepo/tree/main/src/app.go?plain=1"; "myrepo"; "main";
          "src/app.go?plain=1"] /\
  RawQuery (req_URL (ctx_Request patch_request_with_query)) = "full=1" /\
  exists routes,
    CompileRoutes = Some routes /\
    In treeRootRefPathUrl (map Pattern routes) /\
    Dispatch routes (write (Served "static")) tree_request_with_query
    = TreeView ["myrepo"; "main"; "src/app.go?plain=1"] tree_request_with_query /\
    option_map (map status)
      (responses (Dispatch routes (write (Served "static"))) patch_request_with_query)
    = Some [Some 200%Z].
Proof.
  split; [reflexivity|]. split; [reflexivity|]. split; [vm_compute; reflexivity|].
  split; [reflexivity|].
  eexists. split; [exact CompileRoutes_routes|].
  split; [vm_compute; tauto|]. split.
  - rewrite Dispatch_not_static by (vm_compute; reflexivity).
    apply (f_equal (fun h : M unit => h tree_request_with_query)).
    apply (Dispatch_loop_first_match earlier_routes []
             (mkRoute treeRootRefPathUrl TreeView) _
             ["/myrepo/tree/main/src/app.go?plain=1"; "myrepo"; "main";
              "src/app.go?plain=1"]).
    + repeat (constructor; [vm_compute; reflexivity|]). constructor.
    + vm_compute. reflexivity.
  - vm_compute. reflexivity.
Qed.

(** C10. The history from [shallow] gives one commit and then an error
    that is not the end of stream: the loop of the log handler reads the
    message of the nil commit that comes with it, and the handler panics. *)
Theorem LogView_nil_commit :
  Log myrepo (mkLogOptions (hash "3") LogOrderCommitterTime)
  = Ok [Ok shallow; Err ErrObjectNotFound] /\
  LogView_loop (Z.to_nat PAGE_SIZE) [Ok shallow; Err ErrObjectNotFound] [] = None /\
  LogView ["myrepo"; "shallow"] (request "/myrepo/log/shallow" "") = None.
Proof. repeat split; reflexivity. Qed.

(** C5, as stated, fails for a symbolic link.  The entry is not a regular
    file, and the handler, which asks the mode whether it is a file
    (regular, deprecated, executable or symbolic link), serves it as one:
    the file page, with the contents of the link's blob. *)
Lemma TreeView_symlink_served_as_file :
  FindEntry Edge.links Edge.linked_tree "latest"
  = Ok (object.mkTreeEntry "latest" filemode.Symlink (hash "a")) /\
  filemode.Symlink <> filemode.Regular /\
  filemode.Symlink <> filemode.Dir /\
  filemode.IsFile filemode.Symlink = true /\
  option_map (map navigation)
    (responses (TreeView ["links"; "main"; "latest"]) (Edge.request "/links/tree/main/latest"))
  = Some [Some (NavFile (filepath_Dir "latest")
                  (object.mkTreeEntry "latest" filemode.Symlink (hash "a")) "app.go")] /\
  option_map (map carries_file)
    (responses (TreeView ["links"; "main"; "latest"]) (Edge.request "/links/tree/main/latest"))
  = Some [true].
Proof.
  split; [reflexivity|]. split; [discriminate|]. split; [discriminate|].
  split; [reflexivity|]. split; vm_compute; reflexivity.
Qed.

(** C8, as stated, fails where a commit is older by its committer time
    than its parent.  The history from the commit gives the commit first
    and the parent after it, and the page keeps that order: the newer
    commit is on the second line. *)
Lemma LogView_clock_skew :
  ResolveRevision Edge.skewed "main" = Ok (object.commit_Hash Edge.child) /\
  object.ParentHashes Edge.child = [object.commit_Hash Edge.parent] /\
  (object.unix (object.sig_When (object.Committer Edge.child))
   < object.unix (object.sig_When (object.Committer Edge.parent)))%Z /\
  Log Edge.skewed (mkLogOptions (object.commit_Hash Edge.child) LogOrderCommitterTime)
  = Ok [Ok Edge.child; Ok Edge.parent] /\
  exists commits,
    LogView ["skewed"; "main"] (Edge.request "/skewed/log/main")
    = ctx_HTML StatusOK "log.html"
        (makeTemplateContext Edge.config
           (<["RepoName" := VString "skewed"]>
            (<["RefName" := VString "main"]>
             (<["Commits" := VCommits commits]> ∅)))) (Edge.request "/skewed/log/main") /\
    map c_Commit commits = [Edge.child; Edge.parent] /\
    ~ newest_first (map c_Commit commits).
Proof.
  split; [reflexivity|]. split; [reflexivity|]. split; [vm_compute; reflexivity|].
  split; [reflexivity|].
  exists (map commit_line [Edge.child; Edge.parent]).
  split; [reflexivity|]. split; [reflexivity|].
  cbn [map commit_line c_Commit]. intros Hsorted.
  apply StronglySorted_inv in Hsorted as [_ Hfirst].
  apply Forall_inv in Hfirst. vm_compute in Hfirst. now apply Hfirst.
Qed.

End Worked.

(** * Further properties *)

(** ** What the capture groups hold *)

(** The bytes that group [i] of [re] can capture. *)
Fixpoint group_alphabet (re : regexp.Syntax) (i : nat) (c : ascii) : bool :=
  match re with
  | regexp.OpCapture j _ sub =>
      ((i =? j)%nat && regexp.alphabet sub c) || group_alphabet sub i c
  | regexp.OpStar sub | regexp.OpPlus sub => group_alphabet sub i c
  | regexp.OpConcat a b => group_alphabet a i c || group_alphabet b i c
  | _ => false
  end.

(** Every capture register of [caps] spans a piece of [text] made of
    bytes that [G] allows to its group. *)
Definition captures_within (text : string) (G : nat -> ascii -> bool)
    (caps : regexp.Caps) : Prop :=
  forall i b e, In (i, (b, e)) caps ->
    regexp.string_forallb (G i) (String.substring b (e - b) text) = true.

(** [consumes], with the registers followed: the matcher runs at offset
    [pos] of [text] and keeps the registers within [G]. *)
Definition captures (text : string) (G : nat -> ascii -> bool) (P : ascii -> bool)
    (m : nat -> string -> regexp.Caps -> regexp.Cont -> option regexp.Caps) : Prop :=
  forall pos rest caps k out pre,
    text = (pre ++ rest)%string ->
    String.length pre = pos ->
    m pos rest caps k = Some out ->
    exists w rest' caps',
      rest = (w ++ rest')%string /\
      regexp.string_forallb P w = true /\
      k (pos + String.length w)%nat rest' caps' = Some out /\
      (captures_within text G caps -> captures_within text G caps').

Lemma substring_middle (pre w rest : string) :
  String.substring (String.length pre) (String.length w) (pre ++ w ++ rest)%string = w.
Proof.
  induction pre as [|c pre IH].
  - rewrite string_app_nil_l. simpl String.length.
    induction w as [|x w IHw]; [destruct rest; reflexivity|].
    rewrite string_app_cons. simpl. now rewrite IHw.
  - rewrite string_app_cons. simpl. exact IH.
Qed.

Lemma string_app_nil_r (a : string) : (a ++ EmptyString)%string = a.
Proof.
  induction a as [|c a IH]; [reflexivity|].
  rewrite string_app_cons. now rewrite IH.
Qed.

Lemma loop_captures (text : string) (G : nat -> ascii -> bool) (P : ascii -> bool) body :
  captures text G P body -> forall fuel, captures text G P (regexp.loop fuel body).
Proof.
  intros Hbody fuel. induction fuel as [|fuel IH];
    intros pos rest caps k out pre Htext Hpos; simpl.
  - intros Hk. exists EmptyString, rest, caps. simpl.
    rewrite Nat.add_0_r. auto.
  - destruct (body pos rest caps _) as [r|] eqn:Hb.
    + intros [= ->].
      apply (Hbody _ _ _ _ _ pre Htext Hpos) in Hb
        as (w & rest' & caps' & -> & Hw & Hk & Hcaps).
      destruct (pos <? pos + String.length w)%nat; [|discriminate].
      apply (IH _ _ _ _ _ (pre ++ w)%string) in Hk
        as (w2 & rest2 & caps2 & -> & Hw2 & Hk & Hcaps2).
      * exists (w ++ w2)%string, rest2, caps2. repeat split.
        -- now rewrite string_app_assoc.
        -- rewrite string_forallb_app, Hw, Hw2. reflexivity.
        -- rewrite string_length_app, Nat.add_assoc. exact Hk.
        -- auto.
      * now rewrite string_app_assoc.
      * rewrite string_length_app. lia.
    + intros Hk. exists EmptyString, rest, caps. simpl.
      rewrite Nat.add_0_r. auto.
Qed.

Lemma run_captures (text : string) (G : nat -> ascii -> bool) (re : regexp.Syntax) :
  (forall i c, group_alphabet re i c = true -> G i c = true) ->
  captures text G (regexp.alphabet re) (regexp.run re).
Proof.
  induction re as [ | c | rs | | | | i name sub IH | sub IH | sub IH | a IHa b IHb ];
    intros HG pos rest caps k out pre Htext Hpos; simpl.
  - intros Hk. exists EmptyString, rest, caps. simpl. rewrite Nat.add_0_r. auto.
  - destruct rest as [|c' rest']; [discriminate|].
    destruct (Ascii.eqb c c') eqn:Hc; [|discriminate].
    intros Hk. exists (String c' EmptyString), rest', caps. simpl.
    rewrite Hc, Nat.add_1_r. auto.
  - destruct rest as [|c' rest']; [discriminate|].
    destruct (regexp.in_class c' rs) eqn:Hc; [|discriminate].
    intros Hk. exists (String c' EmptyString), rest', caps. simpl.
    rewrite Hc, Nat.add_1_r. auto.
  - destruct rest as [|c' rest']; [discriminate|].
    destruct (Ascii.eqb c' regexp.newline) eqn:Hc; [discriminate|].
    intros Hk. exists (String c' EmptyString), rest', caps. simpl.
    rewrite Hc, Nat.add_1_r. auto.
  - destruct (pos =? 0)%nat; [|discriminate].
    intros Hk. exists EmptyString, rest, caps. simpl. rewrite Nat.add_0_r. auto.
  - destruct rest; [|discriminate].
    intros Hk. exists EmptyString, EmptyString, caps. simpl. rewrite Nat.add_0_r. auto.
  - intros Hrun.
    assert (forall j c, group_alphabet sub j c = true -> G j c = true) as HGsub.
    { intros j c Hj. apply HG. simpl. rewrite Hj. apply orb_true_r. }
    apply (IH HGsub _ _ _ _ _ pre Htext Hpos) in Hrun
      as (w & rest' & caps' & -> & Hw & Hk & Hcaps).
    exists w, rest', ((i, (pos, pos + String.length w)%nat) :: caps').
    repeat split; auto.
    intros Hin j b e [[= <- <- <-]|Hj]; [|now apply Hcaps].
    replace (pos + String.length w - pos)%nat with (String.length w) by lia.
    rewrite Htext, <- Hpos, substring_middle.
    apply (string_forallb_impl (regexp.alphabet sub)); [|exact Hw].
    intros c Hc. apply HG. simpl. now rewrite Nat.eqb_refl, Hc.
  - exact (loop_captures text G _ _ (IH HG) _ pos rest caps k out pre Htext Hpos).
  - intros Hrun.
    apply (IH HG _ _ _ _ _ pre Htext Hpos) in Hrun
      as (w & rest' & caps' & -> & Hw & Hk & Hcaps).
    apply (loop_captures text G _ _ (IH HG) _ _ _ _ _ _ (pre ++ w)%string) in Hk
      as (w2 & rest2 & caps2 & -> & Hw2 & Hk & Hcaps2).
    + exists (w ++ w2)%string, rest2, caps2. repeat split.
      * now rewrite string_app_assoc.
      * change (regexp.string_forallb (regexp.alphabet sub) (w ++ w2)%string = true).
        rewrite string_forallb_app, Hw, Hw2. reflexivity.
      * rewrite string_length_app, Nat.add_assoc. exact Hk.
      * auto.
    + now rewrite string_app_assoc.
    + rewrite string_length_app. lia.
  - intros Hrun.
    assert (forall j c, group_alphabet a j c = true -> G j c = true) as HGa.
    { intros j c Hj. apply HG. simpl. now rewrite Hj. }
    assert (forall j c, group_alphabet b j c = true -> G j c = true) as HGb.
    { intros j c Hj. apply HG. simpl. rewrite Hj. apply orb_true_r. }
    apply (IHa HGa _ _ _ _ _ pre Htext Hpos) in Hrun
      as (w & rest' & caps' & -> & Hw & Hk & Hcaps).
    apply (IHb HGb _ _ _ _ _ (pre ++ w)%string) in Hk
      as (w2 & rest2 & caps2 & -> & Hw2 & Hk & Hcaps2).
    + exists (w ++ w2)%string, rest2, caps2. repeat split.
      * now rewrite string_app_assoc.
      * apply alphabet_concat; assumption.
      * rewrite string_length_app, Nat.add_assoc. exact Hk.
      * auto.
    + now rewrite string_app_assoc.
    + rewrite string_length_app. lia.
Qed.

Lemma string_forallb_true (s : string) : regexp.string_forallb (fun _ => true) s = true.
Proof. induction s as [|c s IH]; simpl; [reflexivity|exact IH]. Qed.

(** The registers of group 0 are free; the others follow the groups of [re]. *)
Definition groups_of (re : regexp.Syntax) (i : nat) (c : ascii) : bool :=
  (i =? 0)%nat || group_alphabet re i c.

Lemma search_captures (text : string) (re : regexp.Syntax) (rest : string) :
  forall pos pre caps,
    text = (pre ++ rest)%string ->
    String.length pre = pos ->
    regexp.search re pos rest = Some caps ->
    captures_within text (groups_of re) caps.
Proof.
  assert (forall i x, group_alphabet re i x = true -> groups_of re i x = true) as HG.
  { intros i x Hx. unfold groups_of. rewrite Hx. apply orb_true_r. }
  assert (forall pos rest pre caps,
            text = (pre ++ rest)%string -> String.length pre = pos ->
            regexp.run re pos rest []
              (fun pos' _ caps' => Some ((0%nat, (pos, pos')) :: caps')) = Some caps ->
            captures_within text (groups_of re) caps) as Hrun.
  { intros pos rest' pre caps Htext Hpos Hrun.
    destruct (run_captures text (groups_of re) re HG pos rest' [] _ caps pre Htext Hpos Hrun)
      as (w & rest2 & caps' & _ & _ & [= <-] & Hcaps).
    intros i b e [[= <- <- <-]|Hin]; [apply string_forallb_true|].
    apply Hcaps; [|exact Hin]. intros ? ? ? []. }
  induction rest as [|c rest IH]; intros pos pre caps Htext Hpos; simpl.
  - destruct (regexp.run re pos "" [] _) as [out|] eqn:Hr; [|discriminate].
    intros [= <-]. exact (Hrun _ _ _ _ Htext Hpos Hr).
  - destruct (regexp.run re pos (String c rest) [] _) as [out|] eqn:Hr.
    + intros [= <-]. exact (Hrun _ _ _ _ Htext Hpos Hr).
    + apply (IH (S pos) (pre ++ String c EmptyString)%string).
      * rewrite string_app_assoc. exact Htext.
      * rewrite string_length_app. simpl. lia.
Qed.

Lemma lookup_cap_In (i : nat) (caps : regexp.Caps) (b e : nat) :
  regexp.lookup_cap i caps = Some (b, e) -> In (i, (b, e)) caps.
Proof.
  induction caps as [|[j se] caps IH]; simpl; [discriminate|].
  destruct (i =? j)%nat eqn:Hij.
  - intros [= ->]. apply Nat.eqb_eq in Hij as ->. now left.
  - intros H. right. now apply IH.
Qed.

Lemma nth_error_map_seq {A : Type} (f : nat -> A) (n start i : nat) (a : A) :
  nth_error (map f (seq start n)) i = Some a -> a = f (start + i)%nat.
Proof.
  revert start i. induction n as [|n IH]; intros start [|i]; simpl; try discriminate.
  - intros [= <-]. now rewrite Nat.add_0_r.
  - intros H. apply IH in H. rewrite H. f_equal. lia.
Qed.

(** The length of a submatch: the whole match and one text per group. *)
Lemma FindStringSubmatch_length (re : regexp.Syntax) (s : string) (m : list string) :
  regexp.FindStringSubmatch re s = Some m ->
  length m = S (regexp.NumSubexp re).
Proof.
  unfold regexp.FindStringSubmatch. destruct (regexp.search re 0 s); [|discriminate].
  intros [= <-]. cbn [length]. now rewrite List.length_map, List.length_seq.
Qed.

(** The text of a group is made of bytes that the group can capture. *)
Lemma FindStringSubmatch_group (re : regexp.Syntax) (s : string) (m : list string)
    (i : nat) (g : string) :
  regexp.FindStringSubmatch re s = Some m ->
  nth_error m (S i) = Some g ->
  regexp.string_forallb (group_alphabet re (S i)) g = true.
Proof.
  unfold regexp.FindStringSubmatch.
  destruct (regexp.search re 0 s) as [caps|] eqn:Hsearch; [|discriminate].
  intros [= <-] Hnth. apply nth_error_map_seq in Hnth. simpl in Hnth. subst g.
  destruct (regexp.lookup_cap (S i) caps) as [[b e]|] eqn:Hcap; [|reflexivity].
  apply lookup_cap_In in Hcap.
  apply (search_captures s re s 0 EmptyString caps eq_refl eq_refl Hsearch) in Hcap.
  exact Hcap.
Qed.

(** ** The parts of the URL that reach a handler *)

(** A byte of a label: a letter, a digit, [-], [~] or [.]. *)
Definition is_label_char (c : ascii) : bool :=
  regexp.in_class c
    [("a", "z"); ("A", "Z"); ("0", "9"); ("-", "-"); ("~", "~"); (".", ".")]%char.

Definition all_ascii : list ascii := map ascii_of_nat (seq 0 256).

Lemma forall_ascii (P : ascii -> bool) :
  forallb P all_ascii = true -> forall c, P c = true.
Proof.
  intros Hall c. apply (proj1 (forallb_forall P all_ascii) Hall).
  rewrite <- (ascii_nat_embedding c). apply in_map, in_seq.
  pose proof (nat_ascii_bounded c). lia.
Qed.

Lemma nth_error_skipn_1 {A : Type} (m : list A) (j : nat) :
  nth_error (skipn 1 m) j = nth_error m (S j).
Proof. destruct m; [now destruct j|reflexivity]. Qed.

(** A group whose bytes are all label bytes hands a label to the view. *)
Lemma label_group (re : regexp.Syntax) (j : nat) :
  forallb (fun c => implb (group_alphabet re (S j) c) (is_label_char c)) all_ascii = true ->
  forall url m part,
    regexp.FindStringSubmatch re url = Some m ->
    nth_error (skipn 1 m) j = Some part ->
    regexp.string_forallb is_label_char part = true.
Proof.
  intros Hall url m part Hsub Hnth. rewrite nth_error_skipn_1 in Hnth.
  apply (string_forallb_impl (group_alphabet re (S j))).
  - intros c Hc. pose proof (forall_ascii _ Hall c) as Himpl.
    cbv beta in Himpl. rewrite Hc in Himpl. exact Himpl.
  - exact (FindStringSubmatch_group re url m j part Hsub Hnth).
Qed.

(** Groups 1 and 2 of [re] capture label bytes only. *)
Definition labels_only (re : regexp.Syntax) : bool :=
  forallb (fun c => implb (group_alphabet re 1 c) (is_label_char c)) all_ascii
  && forallb (fun c => implb (group_alphabet re 2 c) (is_label_char c)) all_ascii.

Lemma patterns_labels_only :
  forallb labels_only
    [indexUrl; repoIndexUrl; repoGitUrl; refsUrl; logDefaultUrl; logUrl; commitUrl;
     patchUrl; treeRootUrl; treeRootRefUrl; treeRootRefPathUrl] = true.
Proof. vm_compute. reflexivity. Qed.

Section RouteParts.

Context `{C : Collaborators}.

(** X1. Whatever the URL, the first two parts that the dispatcher hands
    to a view of the compiled routes (the repository name, and the
    reference name or commit id) are made of letters, digits, [-], [~]
    and [.] only; in particular they hold no [/]. *)
Theorem route_parts_are_labels :
  exists routes,
    CompileRoutes = Some routes /\
    forall (route : Route) (url : string) (m : list string) (part : string),
      In route routes ->
      regexp.FindStringSubmatch (Pattern route) url = Some m ->
      nth_error (skipn 1 m) 0 = Some part \/ nth_error (skipn 1 m) 1 = Some part ->
      regexp.string_forallb is_label_char part = true.
Proof.
  eexists. split; [exact CompileRoutes_routes|].
  intros route url m part Hin Hsub Hpart.
  apply (in_map Pattern) in Hin. cbn [map Pattern] in Hin.
  apply (proj1 (forallb_forall _ _) patterns_labels_only) in Hin.
  apply andb_true_iff in Hin as [H1 H2].
  destruct Hpart as [Hp|Hp].
  - exact (label_group _ 0 H1 url m part Hsub Hp).
  - exact (label_group _ 1 H2 url m part Hsub Hp).
Qed.

End RouteParts.

(** ** What the handlers answer *)

Section HandlerAnswers.

Context `{C : Collaborators}.

(** The handler wrote one response, and attached some errors. *)
Definition answered (ctx : Context) (out : option (unit * Context)) : Prop :=
  exists resp errs, out = Some (tt, respond (with_errors ctx errs) resp).

Lemma with_errors_app (ctx : Context) (a b : list error) :
  with_errors (with_errors ctx a) b = with_errors ctx (a ++ b).
Proof. unfold with_errors. simpl. now rewrite app_assoc. Qed.

Lemma answered_after_errors (ctx : Context) (errs : list error)
    (out : option (unit * Context)) :
  answered (with_errors ctx errs) out -> answered ctx out.
Proof.
  intros (resp & errs' & ->). exists resp, (errs ++ errs').
  now rewrite with_errors_app.
Qed.

Lemma answered_write (ctx : Context) (resp : Response) : answered ctx (write resp ctx).
Proof. exists resp, []. now rewrite with_errors_nil. Qed.

Lemma answered_Http404 (ctx : Context) (cfg : SmithyConfig) :
  Keys ctx !! "config" = Some (AnyConfig cfg) -> answered ctx (Http404 ctx).
Proof.
  intros Hcfg. exists (NotFoundPage cfg), []. rewrite with_errors_nil.
  now apply Http404_run.
Qed.

Lemma answered_Http500 (ctx : Context) (cfg : SmithyConfig) :
  Keys ctx !! "config" = Some (AnyConfig cfg) -> answered ctx (Http500 ctx).
Proof.
  intros Hcfg. exists (ServerErrorPage cfg), []. rewrite with_errors_nil.
  now apply Http500_run.
Qed.

(** Entering a view: the repository name is read and the config fetched. *)
Ltac enter_view Hcfg :=
  unfold bind, index; cbn [nth_error ret];
  unfold MustGet_config; rewrite Hcfg.

(** X2. A request for a repository that the configuration does not know
    is answered with the not-found page by every view that names a
    repository, before anything else of the URL is looked at. *)
Theorem unknown_repository_not_found (ctx : Context) (cfg : SmithyConfig)
    (repoName : string) (rest : list string) :
  Keys ctx !! "config" = Some (AnyConfig cfg) ->
  FindRepo cfg repoName = None ->
  Forall (fun view : list string -> M unit =>
            view (repoName :: rest) ctx = Some (tt, respond ctx (NotFoundPage cfg)))
    [RepoIndexView; RefsView; LogViewDefault; LogView; CommitView; PatchView; TreeView].
Proof.
  intros Hcfg Hrepo. pose proof (Http404_run ctx cfg Hcfg) as H404.
  repeat constructor.
  - unfold RepoIndexView. enter_view Hcfg. now rewrite Hrepo.
  - unfold RefsView. enter_view Hcfg. now rewrite Hrepo.
  - unfold LogViewDefault. enter_view Hcfg. now rewrite Hrepo.
  - unfold LogView. enter_view Hcfg. now rewrite Hrepo.
  - unfold CommitView. enter_view Hcfg. now rewrite Hrepo.
  - unfold PatchView. enter_view Hcfg. now rewrite Hrepo.
  - unfold TreeView. enter_view Hcfg. now rewrite Hrepo.
Qed.

(** What a listing shows on the refs page: nothing when it failed. *)
Definition listed (listing : list plumbing.Reference * option error)
    : list plumbing.Reference :=
  match listing with
  | (_, Some _) => []
  | (refs, None) => refs
  end.

(** X3. For a repository it knows, the refs view always answers the refs
    page with status 200: a listing of branches or tags that failed,
    at the start or part of the way, is shown as an empty list, never as
    an error and never in part. *)
Theorem RefsView_never_fails (ctx : Context) (cfg : SmithyConfig)
    (repoName : string) (rest : list string) (repo : RepositoryWithName git_Repository) :
  Keys ctx !! "config" = Some (AnyConfig cfg) ->
  FindRepo cfg repoName = Some repo ->
  exists branches tags,
    RefsView (repoName :: rest) ctx
    = Some (tt, respond ctx
                  (HTML StatusOK "refs.html"
                     (makeTemplateContext cfg
                        (<["RepoName" := VString repoName]>
                         (<["Branches" := VReferences branches]>
                          (<["Tags" := VReferences tags]> ∅)))))) /\
    (forall err, Branches (Repository repo) = Err err -> branches = []) /\
    (forall before err after,
       Branches (Repository repo) = Ok (map Ok before ++ Err err :: after) ->
       err <> io_EOF -> branches = []) /\
    (forall given,
       Branches (Repository repo) = Ok (map Ok given) ->
       branches = sort_Sort ReferenceByName_Less given) /\
    (forall err, Tags (Repository repo) = Err err -> tags = []) /\
    (forall before err after,
       Tags (Repository repo) = Ok (map Ok before ++ Err err :: after) ->
       err <> io_EOF -> tags = []) /\
    (forall given,
       Tags (Repository repo) = Ok (map Ok given) ->
       tags = sort_Sort ReferenceByName_Less given).
Proof.
  intros Hcfg Hrepo.
  exists (listed (ListBranches (Repository repo))), (listed (ListTags (Repository repo))).
  assert (forall given refs,
            ReferenceCollector_loop (map Ok given) refs
            = (sort_Sort ReferenceByName_Less (refs ++ given), None)) as Hgiven.
  { induction given as [|b given IH]; intros refs; simpl.
    - now rewrite app_nil_r.
    - rewrite IH. now rewrite <- app_assoc. }
  split; [|repeat split].
  - unfold RefsView. enter_view Hcfg. rewrite Hrepo. unfold listed.
    destruct (ListBranches (Repository repo)) as [bs [eb|]];
      destruct (ListTags (Repository repo)) as [ts [et|]]; reflexivity.
  - intros err Herr. unfold ListBranches. now rewrite Herr.
  - intros before err after Hit Herr. unfold ListBranches, ReferenceCollector.
    now rewrite Hit, ReferenceCollector_loop_error.
  - intros given Hit. unfold ListBranches, ReferenceCollector.
    now rewrite Hit, Hgiven.
  - intros err Herr. unfold ListTags. now rewrite Herr.
  - intros before err after Hit Herr. unfold ListTags, ReferenceCollector.
    now rewrite Hit, ReferenceCollector_loop_error.
  - intros given Hit. unfold ListTags, ReferenceCollector.
    now rewrite Hit, Hgiven.
Qed.

(** The commit that the default-branch policy gives. *)
Definition default_revision (r : git_Repository) : option plumbing.Hash :=
  match ResolveRevision r "main" with
  | Ok revision => Some revision
  | Err _ =>
      match ResolveRevision r "master" with
      | Ok revision => Some revision
      | Err _ => None
      end
  end.

(** What the repository page needs: both listings, a default branch and
    its commit. *)
Definition repo_index_ok (r : git_Repository) : bool :=
  match snd (ListBranches r), snd (ListTags r), default_revision r with
  | None, None, Some revision => is_Ok (GetCommit r revision)
  | _, _, _ => false
  end.

(** X4. The page of a known repository is the server-error page unless
    the branches and the tags can be listed, "main" or "master" resolves
    and its commit can be loaded; then it is the repository page, status
    200, which always has its [Readme] entry: a readme that is missing or
    cannot be read is the empty text, not an error. *)
Theorem RepoIndexView_page (ctx : Context) (cfg : SmithyConfig)
    (repoName : string) (rest : list string) (repo : RepositoryWithName git_Repository) :
  Keys ctx !! "config" = Some (AnyConfig cfg) ->
  FindRepo cfg repoName = Some repo ->
  exists resp errs,
    RepoIndexView (repoName :: rest) ctx = Some (tt, respond (with_errors ctx errs) resp) /\
    (repo_index_ok (Repository repo) = false -> resp = ServerErrorPage cfg) /\
    (forall revision commitObj,
       repo_index_ok (Repository repo) = true ->
       default_revision (Repository repo) = Some revision ->
       GetCommit (Repository repo) revision = Ok commitObj ->
       exists obj readme,
         resp = HTML StatusOK "repo.html" obj /\
         obj !! "Readme" = Some (VHTML readme) /\
         (is_Ok (GetReadmeFromCommit (Repository repo) commitObj) = false -> readme = "") /\
         (forall f, GetReadmeFromCommit (Repository repo) commitObj = Ok f ->
                    is_Ok (Contents (Repository repo) f) = false -> readme = "")).
Proof.
  intros Hcfg Hrepo. pose proof (Http500_run ctx cfg Hcfg) as H500.
  unfold RepoIndexView. enter_view Hcfg. rewrite Hrepo.
  unfold repo_index_ok, default_revision.
  destruct (ListBranches (Repository repo)) as [bs [eb|]]; cbn [snd].
  { exists (ServerErrorPage cfg), []. rewrite with_errors_nil.
    repeat split; auto; discriminate. }
  destruct (ListTags (Repository repo)) as [ts [et|]]; cbn [snd].
  { exists (ServerErrorPage cfg), []. rewrite with_errors_nil.
    repeat split; auto; discriminate. }
  rewrite findMainBranch_cases.
  assert (forall ctx1 errs revision,
            ctx1 = with_errors ctx errs ->
            exists resp,
              match GetCommit (Repository repo) revision with
              | Err _ => Http500
              | Ok commitObj =>
                  ctx_HTML StatusOK "repo.html"
                    (makeTemplateContext cfg
                       (<["RepoName" := VString repoName]>
                        (<["Branches" := VReferences bs]>
                         (<["Tags" := VReferences ts]>
                          (<["Readme" := VHTML
                               match GetReadmeFromCommit (Repository repo) commitObj with
                               | Err _ => ""
                               | Ok readme =>
                                   match Contents (Repository repo) readme with
                                   | Err _ => ""
                                   | Ok readmeContents => FormatMarkdown readmeContents
                                   end
                               end]>
                           (<["Repo" := VRepo repo]> ∅))))))
              end ctx1 = Some (tt, respond ctx1 resp) /\
              (is_Ok (GetCommit (Repository repo) revision) = false ->
               resp = ServerErrorPage cfg) /\
              (forall revision' commitObj,
                 is_Ok (GetCommit (Repository repo) revision) = true ->
                 Some revision = Some revision' ->
                 GetCommit (Repository repo) revision' = Ok commitObj ->
                 exists obj readme,
                   resp = HTML StatusOK "repo.html" obj /\
                   obj !! "Readme" = Some (VHTML readme) /\
                   (is_Ok (GetReadmeFromCommit (Repository repo) commitObj) = false ->
                    readme = "") /\
                   (forall f, GetReadmeFromCommit (Repository repo) commitObj = Ok f ->
                              is_Ok (Contents (Repository repo) f) = false -> readme = "")))
    as Hpage.
  { intros ctx1 errs revision ->.
    destruct (GetCommit (Repository repo) revision) as [commitObj|e] eqn:Hcommit.
    - eexists. split; [reflexivity|]. split; [discriminate|].
      intros revision' commitObj' _ [= <-]. rewrite Hcommit. intros [= <-].
      set (readme := match GetReadmeFromCommit (Repository repo) commitObj with
                     | Ok f => _ | Err _ => _ end).
      eexists _, readme. split; [reflexivity|]. split; [|split].
      + clearbody readme. vm_compute. reflexivity.
      + subst readme. destruct (GetReadmeFromCommit _ _); [discriminate|reflexivity].
      + subst readme. intros f ->. destruct (Contents _ f); [discriminate|reflexivity].
    - exists (ServerErrorPage cfg). split; [|split; [reflexivity|discriminate]].
      apply Http500_run. exact Hcfg. }
  destruct (ResolveRevision (Repository repo) "main") as [h1|e1].
  - destruct (Hpage ctx [] h1 (eq_sym (with_errors_nil ctx))) as (resp & Hrun & Hbad & Hgood).
    exists resp, []. rewrite with_errors_nil. auto.
  - destruct (ResolveRevision (Repository repo) "master") as [h2|e2].
    + destruct (Hpage (with_errors ctx [e1]) [e1] h2 eq_refl) as (resp & Hrun & Hbad & Hgood).
      exists resp, [e1]. auto.
    + exists (ServerErrorPage cfg), [e1; e2].
      split; [apply Http500_run; exact Hcfg|]. split; [reflexivity|discriminate].
Qed.

End HandlerAnswers.

(** ** The readme and the template context *)

Section ReadmeProperties.

Context `{C : Collaborators}.

Lemma GetReadmeFromCommit_loop_first (r : git_Repository) (commit : object.Commit)
    (options : list string) :
  match GetReadmeFromCommit_loop r commit options with
  | Ok f =>
      exists before opt after,
        options = before ++ opt :: after /\
        commit_File r commit opt = Ok f /\
        Forall (fun o => is_Ok (commit_File r commit o) = false) before
  | Err err =>
      err = errors_New "no valid readme" /\
      Forall (fun o => is_Ok (commit_File r commit o) = false) options
  end.
Proof.
  induction options as [|opt options IH]; simpl.
  - split; [reflexivity|constructor].
  - destruct (commit_File r commit opt) as [f|e] eqn:Hopt.
    + exists [], opt, options. repeat split; [exact Hopt|constructor].
    + destruct (GetReadmeFromCommit_loop r commit options) as [f|err].
      * destruct IH as (before & o & after & -> & Ho & Hbefore).
        exists (opt :: before), o, after. repeat split; [exact Ho|].
        constructor; [now rewrite Hopt|exact Hbefore].
      * destruct IH as [-> Hall]. split; [reflexivity|].
        constructor; [now rewrite Hopt|exact Hall].
Qed.

(** The names a readme is looked for under, in the order of preference. *)
Definition readme_names : list string :=
  ["README.md"; "README"; "README.markdown"; "readme.md"; "readme.markdown"; "readme"].

(** X5. The readme of a commit is the file under the first of the six
    names README.md, README, README.markdown, readme.md,
    readme.markdown, readme that the commit has; when the commit has a
    file under none of them the result is the error "no valid readme". *)
Theorem GetReadmeFromCommit_first_name (r : git_Repository) (commit : object.Commit) :
  (forall f, GetReadmeFromCommit r commit = Ok f ->
     exists before name after,
       readme_names = before ++ name :: after /\
       commit_File r commit name = Ok f /\
       Forall (fun o => is_Ok (commit_File r commit o) = false) before) /\
  (forall err, GetReadmeFromCommit r commit = Err err ->
     err = errors_New "no valid readme" /\
     Forall (fun o => is_Ok (commit_File r commit o) = false) readme_names) /\
  (forall f, commit_File r commit "README.md" = Ok f ->
     GetReadmeFromCommit r commit = Ok f).
Proof.
  pose proof (GetReadmeFromCommit_loop_first r commit readme_names) as Hloop.
  unfold GetReadmeFromCommit. fold readme_names.
  split; [|split].
  - intros f Hf. now rewrite Hf in Hloop.
  - intros err Herr. now rewrite Herr in Hloop.
  - intros f Hf. unfold readme_names. simpl. now rewrite Hf.
Qed.

(** The entry of the site in a template context. *)
Definition site_entry (config : SmithyConfig) : Value :=
  VH (<["Title" := VString (Title config)]>
      (<["Description" := VString (Description config)]>
       (<["Host" := VString (Host config)]> ∅))).

(** X6. A template context holds every key of [extra] with the value
    [extra] gives it, the key [Site] included when [extra] has one;
    beside these it holds the site entry under [Site], and nothing
    else. *)
Theorem makeTemplateContext_lookup (config : SmithyConfig) (extra : gmap string Value)
    (key : string) :
  makeTemplateContext config extra !! key
  = match extra !! key with
    | Some v => Some v
    | None => if String.eqb key "Site" then Some (site_entry config) else None
    end.
Proof.
  unfold makeTemplateContext. rewrite lookup_union.
  destruct (extra !! key) as [v|] eqn:Hextra.
  - destruct ({["Site" := _]} !! key); reflexivity.
  - rewrite (left_id None _). destruct (String.eqb_spec key "Site") as [->|Hne].
    + now rewrite lookup_singleton_eq.
    + rewrite lookup_singleton_ne; [reflexivity|congruence].
Qed.

End ReadmeProperties.

(** ** The pages of the tree view *)

Section TreePages.

Context `{C : Collaborators}.

Ltac enter_view Hcfg :=
  unfold bind, index; cbn [nth_error ret];
  unfold MustGet_config; rewrite Hcfg.

Lemma TreeView_with_ref (ctx : Context) (cfg : SmithyConfig) (repoName refNameString : string)
    (more : list string) (repo : RepositoryWithName git_Repository) :
  Keys ctx !! "config" = Some (AnyConfig cfg) ->
  FindRepo cfg repoName = Some repo ->
  TreeView (repoName :: refNameString :: more) ctx
  = TreeView_at cfg repoName repo (repoName :: refNameString :: more) refNameString ctx.
Proof.
  intros Hcfg Hrepo. unfold TreeView. enter_view Hcfg. now rewrite Hrepo.
Qed.

(** X7. With no path after the reference, or an empty one, the tree view
    of a commit whose tree can be read answers the root listing: the
    direct entries of the commit's tree, in the order of the tree. *)
Theorem TreeView_root_listing (ctx : Context) (cfg : SmithyConfig)
    (repoName refNameString : string) (more : list string)
    (repo : RepositoryWithName git_Repository) (revision : plumbing.Hash)
    (commitObj : object.Commit) (tree : object.Tree) :
  Keys ctx !! "config" = Some (AnyConfig cfg) ->
  FindRepo cfg repoName = Some repo ->
  ResolveRevision (Repository repo) refNameString = Ok revision ->
  GetCommit (Repository repo) revision = Ok commitObj ->
  commit_Tree (Repository repo) commitObj = Ok tree ->
  more = [] \/ more = [""] ->
  exists resp,
    TreeView (repoName :: refNameString :: more) ctx = Some (tt, respond ctx resp) /\
    status resp = Some StatusOK /\
    navigation resp = Some (NavRoot (object.Entries tree)).
Proof.
  intros Hcfg Hrepo Hrev Hcommit Htree Hmore.
  rewrite (TreeView_with_ref _ cfg _ _ _ repo Hcfg Hrepo).
  unfold TreeView_at, bind. rewrite Hrev, treePath_run, Hcommit, Htree.
  destruct Hmore as [-> | ->]; cbn [nth String.eqb];
    (eexists; split; [reflexivity|]; split; [reflexivity|vm_compute; reflexivity]).
Qed.

(** X8. For a path that resolves to an entry that is not a file, and
    whose tree can be read, the tree view answers the listing of that
    tree: its direct entries, the name of the entry, and the directory of
    the path as the parent. *)
Theorem TreeView_directory_listing (ctx : Context) (cfg : SmithyConfig)
    (repoName refNameString treePath : string)
    (repo : RepositoryWithName git_Repository) (revision : plumbing.Hash)
    (commitObj : object.Commit) (tree subTree : object.Tree) (out : object.TreeEntry) :
  Keys ctx !! "config" = Some (AnyConfig cfg) ->
  FindRepo cfg repoName = Some repo ->
  ResolveRevision (Repository repo) refNameString = Ok revision ->
  GetCommit (Repository repo) revision = Ok commitObj ->
  commit_Tree (Repository repo) commitObj = Ok tree ->
  treePath <> "" ->
  FindEntry (Repository repo) tree treePath = Ok out ->
  filemode.IsFile (object.entry_Mode out) = false ->
  tree_Tree (Repository repo) tree treePath = Ok subTree ->
  exists resp,
    TreeView [repoName; refNameString; treePath] ctx = Some (tt, respond ctx resp) /\
    status resp = Some StatusOK /\
    navigation resp
    = Some (NavDirectory (filepath_Dir treePath) (object.entry_Name out)
              (object.Entries subTree)).
Proof.
  intros Hcfg Hrepo Hrev Hcommit Htree Hpath Hentry Hmode Hsub.
  rewrite (TreeView_with_ref _ cfg _ _ _ repo Hcfg Hrepo).
  unfold TreeView_at, bind. rewrite Hrev, treePath_run, Hcommit, Htree.
  cbn [nth]. apply String.eqb_neq in Hpath. rewrite Hpath, Hentry, Hmode, Hsub.
  cbn [negb].
  eexists; split; [reflexivity|]; split; [reflexivity|vm_compute; reflexivity].
Qed.

(** The text shown for a file when it cannot be highlighted. *)
Definition preformatted (contents : string) : string :=
  ("<pre>" ++ contents ++ "</pre>")%string.

(** X9. For a path that resolves to a file entry whose blob and contents
    can be read, the tree view answers the file page with the entry, the
    contents and a highlighted text, whatever the highlighting does: with
    no lexer for the file name, or when formatting fails, the highlighted
    text is the contents between pre tags. *)
Theorem TreeView_file_page (ctx : Context) (cfg : SmithyConfig)
    (repoName refNameString treePath : string)
    (repo : RepositoryWithName git_Repository) (revision : plumbing.Hash)
    (commitObj : object.Commit) (tree : object.Tree) (out : object.TreeEntry)
    (file : object.File) (contents : string) :
  Keys ctx !! "config" = Some (AnyConfig cfg) ->
  FindRepo cfg repoName = Some repo ->
  ResolveRevision (Repository repo) refNameString = Ok revision ->
  GetCommit (Repository repo) revision = Ok commitObj ->
  commit_Tree (Repository repo) commitObj = Ok tree ->
  treePath <> "" ->
  FindEntry (Repository repo) tree treePath = Ok out ->
  filemode.IsFile (object.entry_Mode out) = true ->
  tree_File (Repository repo) tree treePath = Ok file ->
  Contents (Repository repo) file = Ok contents ->
  exists obj highlighted,
    TreeView [repoName; refNameString; treePath] ctx
    = Some (tt, respond ctx (HTML StatusOK "blob.html" obj)) /\
    navigation (HTML StatusOK "blob.html" obj)
    = Some (NavFile (filepath_Dir treePath) out contents) /\
    obj !! "ContentsHighlighted" = Some (VHTML highlighted) /\
    highlighted
    = match lexers_Match (object.file_Name file) with
      | None => preformatted contents
      | Some lexer =>
          match chroma_Format lexer contents with
          | Ok text => text
          | Err _ => preformatted contents
          end
      end.
Proof.
  intros Hcfg Hrepo Hrev Hcommit Htree Hpath Hentry Hmode Hfile Hcontents.
  rewrite (TreeView_with_ref _ cfg _ _ _ repo Hcfg Hrepo).
  unfold TreeView_at, bind. rewrite Hrev, treePath_run, Hcommit, Htree.
  cbn [nth]. apply String.eqb_neq in Hpath. rewrite Hpath, Hentry, Hmode, Hfile.
  cbn [negb]. rewrite Hcontents.
  set (highlighted := match RenderSyntaxHighlighting (Repository repo) file with
                      | Ok text => text | Err _ => "" end).
  assert (highlighted
          = match lexers_Match (object.file_Name file) with
            | None => preformatted contents
            | Some lexer =>
                match chroma_Format lexer contents with
                | Ok text => text
                | Err _ => preformatted contents
                end
            end) as Hhl.
  { subst highlighted. unfold RenderSyntaxHighlighting. rewrite Hcontents.
    destruct (lexers_Match (object.file_Name file)) as [lexer|]; [|reflexivity].
    destruct (chroma_Format lexer contents); reflexivity. }
  clearbody highlighted.
  eexists _, highlighted. split; [reflexivity|].
  split; [vm_compute; reflexivity|]. split; [vm_compute; reflexivity|exact Hhl].
Qed.

(** The handler writes one response, the same on every context that
    holds the config. *)
Definition uniform (cfg : SmithyConfig) (h : M unit) : Prop :=
  exists resp,
    forall ctx,
      Keys ctx !! "config" = Some (AnyConfig cfg) ->
      h ctx = Some (tt, respond ctx resp).

Lemma uniform_Http404 (cfg : SmithyConfig) : uniform cfg Http404.
Proof. exists (NotFoundPage cfg). intros. now apply Http404_run. Qed.

Lemma uniform_ctx_HTML (cfg : SmithyConfig) (code : Z) (name : string)
    (obj : gmap string Value) :
  uniform cfg (ctx_HTML code name obj).
Proof. exists (HTML code name obj). reflexivity. Qed.

Lemma uniform_treePath (cfg : SmithyConfig) (urlParts : list string)
    (k : string -> M unit) :
  uniform cfg (k (nth 2 urlParts "")) ->
  uniform cfg (bind (if (2 <? length urlParts)%nat then index urlParts 2 else ret "") k).
Proof.
  intros (resp & Hk). exists resp. intros ctx Hcfg.
  unfold bind. rewrite treePath_run. now apply Hk.
Qed.

(** The response of the tree view for a reference does not depend on the
    context it is written to. *)
Lemma TreeView_at_uniform (cfg : SmithyConfig) (repoName : string)
    (repo : RepositoryWithName git_Repository) (urlParts : list string)
    (refNameString : string) :
  uniform cfg (TreeView_at cfg repoName repo urlParts refNameString).
Proof.
  unfold TreeView_at.
  destruct (ResolveRevision (Repository repo) refNameString) as [revision|];
    [|apply uniform_Http404].
  apply uniform_treePath. cbv zeta.
  destruct (GetCommit (Repository repo) revision) as [commitObj|];
    [|apply uniform_Http404].
  destruct (commit_Tree (Repository repo) commitObj) as [tree|];
    [|apply uniform_Http404].
  destruct (String.eqb (nth 2 urlParts "") ""); [apply uniform_ctx_HTML|].
  destruct (FindEntry (Repository repo) tree (nth 2 urlParts "")) as [out|];
    [|apply uniform_Http404].
  destruct (filemode.IsFile (object.entry_Mode out)); cbn [negb].
  - destruct (tree_File (Repository repo) tree (nth 2 urlParts "")) as [file|];
      [|apply uniform_Http404].
    destruct (Contents (Repository repo) file) as [contents|];
      [apply uniform_ctx_HTML|apply uniform_Http404].
  - destruct (tree_Tree (Repository repo) tree (nth 2 urlParts "")) as [subTree|];
      [apply uniform_ctx_HTML|apply uniform_Http404].
Qed.

(** X10. Without a reference in the URL the tree view is the tree view
    of the default branch: it does what the tree view does for "main"
    when "main" resolves, and else it writes what the tree view writes
    for "master" when "master" resolves. *)
Theorem TreeView_default_branch (ctx : Context) (cfg : SmithyConfig) (repoName : string)
    (repo : RepositoryWithName git_Repository) :
  Keys ctx !! "config" = Some (AnyConfig cfg) ->
  FindRepo cfg repoName = Some repo ->
  (forall revision,
     ResolveRevision (Repository repo) "main" = Ok revision ->
     TreeView [repoName] ctx = TreeView [repoName; "main"] ctx) /\
  (forall err revision,
     ResolveRevision (Repository repo) "main" = Err err ->
     ResolveRevision (Repository repo) "master" = Ok revision ->
     responses (TreeView [repoName]) ctx = responses (TreeView [repoName; "master"]) ctx).
Proof.
  intros Hcfg Hrepo.
  assert (forall ctx1 name,
            TreeView_at cfg repoName repo [repoName] name ctx1
            = TreeView_at cfg repoName repo [repoName; name] name ctx1) as Hat.
  { intros ctx1 name. unfold TreeView_at, bind.
    destruct (ResolveRevision (Repository repo) name); [|reflexivity].
    now rewrite !treePath_run. }
  split.
  - intros revision Hmain.
    rewrite (TreeView_with_ref _ cfg _ _ _ repo Hcfg Hrepo), <- Hat.
    unfold TreeView. enter_view Hcfg. rewrite Hrepo.
    cbn [length Nat.ltb Nat.leb]. rewrite findMainBranch_cases, Hmain. reflexivity.
  - intros err revision Hmain Hmaster. unfold responses.
    rewrite (TreeView_with_ref _ cfg _ _ _ repo Hcfg Hrepo), <- Hat.
    unfold TreeView. enter_view Hcfg. rewrite Hrepo.
    cbn [length Nat.ltb Nat.leb]. rewrite findMainBranch_cases, Hmain, Hmaster.
    destruct (TreeView_at_uniform cfg repoName repo [repoName] "master") as (resp & Hrun).
    rewrite (Hrun (with_errors ctx [err]) Hcfg), (Hrun ctx Hcfg). reflexivity.
Qed.

End TreePages.

(** ** Collections, log lines and change sets *)

Section CollectionProperties.

Context `{C : Collaborators}.

Ltac enter_view Hcfg :=
  unfold bind, index; cbn [nth_error ret];
  unfold MustGet_config; rewrite Hcfg.

Lemma ReferenceCollector_loop_given (given refs : list plumbing.Reference) :
  ReferenceCollector_loop (map Ok given) refs
  = (sort_Sort ReferenceByName_Less (refs ++ given), None).
Proof.
  revert refs. induction given as [|b given IH]; intros refs; simpl.
  - now rewrite app_nil_r.
  - rewrite IH. now rewrite <- app_assoc.
Qed.

(** X11. The collection of an iterator that ends without error holds
    every reference the iterator gave, each as often as it was given
    (a permutation).  When the iterator fails the list returned with the
    error is what was read before the failure, in the order read, not
    sorted. *)
Theorem ReferenceCollector_keeps_all :
  (forall given : list plumbing.Reference,
     exists refs,
       ReferenceCollector (map Ok given) = (refs, None) /\ Permutation given refs) /\
  (forall (before : list plumbing.Reference) (err : error) (after : Iter plumbing.Reference),
     err <> io_EOF ->
     ReferenceCollector (map Ok before ++ Err err :: after) = (before, Some err)).
Proof.
  split.
  - intros given. exists (sort_Sort ReferenceByName_Less given). split.
    + unfold ReferenceCollector. now rewrite ReferenceCollector_loop_given.
    + apply sort_Sort_Permutation.
  - intros before err after Herr. unfold ReferenceCollector.
    now rewrite ReferenceCollector_loop_error.
Qed.

(** [RepositoryByName.Less] and [ReferenceByName.Less] on names. *)
Lemma name_Less_StrictWeakOrder {A : Type} (name : A -> string) :
  StrictWeakOrder (fun a b => (strings.Compare (name a) (name b) <? 0)%Z).
Proof.
  repeat split.
  - intros a. apply Compare_not_neg. rewrite string_compare_refl. discriminate.
  - intros a b c Hab%Compare_neg Hbc%Compare_neg. apply Compare_neg.
    exact (string_compare_lt_trans _ _ _ Hab Hbc).
  - intros a b c Hab%Compare_not_neg Hbc%Compare_not_neg. apply Compare_not_neg.
    exact (string_compare_not_lt_trans _ _ _ Hab Hbc).
Qed.

(** X12. The order of repositories by name is a strict weak ordering, as
    [sort.Sort] asks of [Less], and it is total on names: of two
    repositories with different names one is less than the other, and
    two with the same name are not ordered. *)
Theorem RepositoryByName_Less_order :
  StrictWeakOrder RepositoryByName_Less /\
  (forall a b : RepositoryWithName git_Repository,
     Name a <> Name b ->
     RepositoryByName_Less a b = true \/ RepositoryByName_Less b a = true) /\
  (forall a b : RepositoryWithName git_Repository,
     Name a = Name b ->
     RepositoryByName_Less a b = false /\ RepositoryByName_Less b a = false).
Proof.
  split; [exact (name_Less_StrictWeakOrder Name)|]. split.
  - intros a b Hne. unfold RepositoryByName_Less.
    destruct (String.compare (Name a) (Name b)) eqn:Hab.
    + apply String.compare_eq_iff in Hab. contradiction.
    + left. now apply Compare_neg.
    + right. apply Compare_neg. rewrite String.compare_antisym, Hab. reflexivity.
  - intros a b Heq. unfold RepositoryByName_Less. rewrite Heq.
    split; apply Compare_not_neg; rewrite string_compare_refl; discriminate.
Qed.

End CollectionProperties.

(** ** The lines of the log page *)

Lemma substring_0_length (n : nat) (s : string) :
  (n <= String.length s)%nat -> String.length (String.substring 0 n s) = n.
Proof.
  revert s. induction n as [|n IH]; intros [|c s]; simpl; try reflexivity; try lia.
  intros Hn. rewrite IH; [reflexivity|lia].
Qed.

Lemma substring_0_prefix (n : nat) (s : string) :
  String.prefix (String.substring 0 n s) s = true.
Proof.
  revert s. induction n as [|n IH]; intros [|c s]; simpl; try reflexivity.
  destruct (ascii_dec c c) as [_|Hne]; [apply IH|contradiction].
Qed.

Definition not_newline (c : ascii) : bool := negb (Ascii.eqb c regexp.newline).

(** The first piece of a split holds no separator and begins the text. *)
Lemma Split1_hd (s : string) (sep : ascii) :
  regexp.string_forallb (fun c => negb (Ascii.eqb c sep)) (hd "" (strings.Split1 s sep)) = true /\
  String.prefix (hd "" (strings.Split1 s sep)) s = true.
Proof.
  induction s as [|c s [IHa IHp]]; simpl; [auto|].
  destruct (Ascii.eqb c sep) eqn:Hc; simpl; [auto|].
  destruct (Split1_first s sep) as (first & others & Hsplit).
  rewrite Hsplit in *. simpl in *. rewrite Hc, IHa. split; [reflexivity|].
  destruct (ascii_dec c c) as [_|Hne]; [exact IHp|contradiction].
Qed.

(** The text is its first piece, alone or followed by the separator and
    the rest. *)
Lemma Split1_hd_rest (s : string) (sep : ascii) :
  s = hd "" (strings.Split1 s sep) \/
  exists rest, s = (hd "" (strings.Split1 s sep) ++ String sep rest)%string.
Proof.
  induction s as [|c s IH]; [now left|].
  cbn [strings.Split1].
  destruct (Ascii.eqb c sep) eqn:Hc.
  - apply Ascii.eqb_eq in Hc as ->. right. exists s. reflexivity.
  - destruct (Split1_first s sep) as (first & others & Hsplit).
    rewrite Hsplit in *. cbn [hd] in *.
    destruct IH as [IH|[rest IH]].
    + left. now rewrite <- IH.
    + right. exists rest. rewrite string_app_cons. now rewrite <- IH.
Qed.

Section LogLines.

Context `{C : Collaborators}.

Ltac enter_view Hcfg :=
  unfold bind, index; cbn [nth_error ret];
  unfold MustGet_config; rewrite Hcfg.

(** A line of the log page agrees with its commit. *)
Definition line_of_commit (c : Commit) : Prop :=
  String.length (ShortHash c) = 8%nat /\
  String.prefix (ShortHash c) (plumbing.Hash_String (object.commit_Hash (c_Commit c))) = true /\
  regexp.string_forallb not_newline (Subject c) = true /\
  String.prefix (Subject c) (object.Message (c_Commit c)) = true /\
  (object.Message (c_Commit c) = Subject c \/
   exists rest,
     object.Message (c_Commit c) = (Subject c ++ String regexp.newline rest)%string).

Lemma line_of_commit_commit_line (commit : object.Commit) :
  line_of_commit (commit_line commit).
Proof.
  unfold line_of_commit, commit_line. cbn [ShortHash Subject c_Commit].
  split; [|split; [|split; [|split]]].
  - apply substring_0_length. rewrite Hash_String_length. lia.
  - apply substring_0_prefix.
  - exact (proj1 (Split1_hd _ _)).
  - exact (proj2 (Split1_hd _ _)).
  - apply Split1_hd_rest.
Qed.

Lemma LogView_loop_lines_from (count : nat) (cIter : Iter object.Commit)
    (commits out : list Commit) :
  Forall line_of_commit commits ->
  LogView_loop count cIter commits = Some out ->
  Forall line_of_commit out.
Proof.
  revert cIter commits. induction count as [|count IH]; intros cIter commits Hacc.
  - simpl. now intros [= <-].
  - destruct cIter as [|[commit|err] cIter].
    + simpl. now intros [= <-].
    + rewrite LogView_loop_Ok. apply IH.
      apply Forall_app. split; [exact Hacc|].
      constructor; [apply line_of_commit_commit_line|constructor].
    + simpl. destruct err; try discriminate. now intros [= <-].
Qed.

(** X13. On every line of a log page the short hash is the first eight
    digits of the commit's hash and the subject is the message up to its
    first newline: the subject holds no newline, and the message is the
    subject alone or the subject, a newline and the rest.  Taking the
    eight digits never fails, a hash having forty. *)
Theorem LogView_loop_lines (count : nat) (cIter : Iter object.Commit) (out : list Commit) :
  LogView_loop count cIter [] = Some out ->
  Forall line_of_commit out.
Proof. apply LogView_loop_lines_from. constructor. Qed.

(** X14. The log view of a known repository answers the not-found page
    when the reference does not resolve, and the server-error page when
    the reference resolves and the history cannot be opened. *)
Theorem LogView_errors (ctx : Context) (cfg : SmithyConfig) (repoName refNameString : string)
    (rest : list string) (repo : RepositoryWithName git_Repository) :
  Keys ctx !! "config" = Some (AnyConfig cfg) ->
  FindRepo cfg repoName = Some repo ->
  (forall err, ResolveRevision (Repository repo) refNameString = Err err ->
     LogView (repoName :: refNameString :: rest) ctx
     = Some (tt, respond ctx (NotFoundPage cfg))) /\
  (forall revision err,
     ResolveRevision (Repository repo) refNameString = Ok revision ->
     Log (Repository repo) (mkLogOptions revision LogOrderCommitterTime) = Err err ->
     LogView (repoName :: refNameString :: rest) ctx
     = Some (tt, respond ctx (ServerErrorPage cfg))).
Proof.
  intros Hcfg Hrepo. split.
  - intros err Hrev. unfold LogView. enter_view Hcfg. rewrite Hrepo.
    cbn [nth_error]. rewrite Hrev. now apply Http404_run.
  - intros revision err Hrev Hlog. unfold LogView. enter_view Hcfg. rewrite Hrepo.
    cbn [nth_error]. rewrite Hrev, Hlog. now apply Http500_run.
Qed.

(** X15. The log view without a reference redirects, with status 308, to
    the request URI followed by a slash and the name of the default
    branch: "main" when it resolves, else "master" when that resolves.
    When neither resolves it answers the not-found page, with the two
    failures and its own error attached to the context. *)
Theorem LogViewDefault_redirect (ctx : Context) (cfg : SmithyConfig) (repoName : string)
    (rest : list string) (repo : RepositoryWithName git_Repository) :
  Keys ctx !! "config" = Some (AnyConfig cfg) ->
  FindRepo cfg repoName = Some repo ->
  LogViewDefault (repoName :: rest) ctx
  = match ResolveRevision (Repository repo) "main" with
    | Ok _ =>
        Some (tt, respond ctx
                    (Redirect StatusPermanentRedirect
                       (RequestURI (ctx_Request ctx) ++ "/main")%string))
    | Err err1 =>
        match ResolveRevision (Repository repo) "master" with
        | Ok _ =>
            Some (tt, respond (with_errors ctx [err1])
                        (Redirect StatusPermanentRedirect
                           (RequestURI (ctx_Request ctx) ++ "/master")%string))
        | Err err2 =>
            Some (tt, respond
                        (with_errors ctx
                           [err1; err2;
                            errors_New "failed to find a 'main' or 'master' branch"])
                        (NotFoundPage cfg))
        end
    end.
Proof.
  intros Hcfg Hrepo. unfold LogViewDefault. enter_view Hcfg. rewrite Hrepo.
  rewrite findMainBranch_cases.
  destruct (ResolveRevision (Repository repo) "main") as [h1|e1]; [reflexivity|].
  destruct (ResolveRevision (Repository repo) "master") as [h2|e2]; [reflexivity|].
  unfold ctx_Error. cbn [with_errors Errors Keys ctx_Request Writer].
  rewrite (Http404_run _ cfg) by exact Hcfg.
  unfold respond, with_errors. cbn. now rewrite <- app_assoc.
Qed.

End LogLines.

(** ** Change sets and their rendering *)

Section ChangeProperties.

Context `{C : Collaborators}.

Ltac enter_view Hcfg :=
  unfold bind, index; cbn [nth_error ret];
  unfold MustGet_config; rewrite Hcfg.

(** X16. A commit with parents is compared with its first parent alone:
    the change set is the difference from the tree of the first parent
    to the tree of the commit, and fails when one of the two trees
    cannot be read.  A first parent that cannot be loaded is no failure:
    the commit is then compared with the nil tree, like a commit with no
    parent. *)
Theorem GetChanges_first_parent (r : git_Repository) (commit : object.Commit)
    (first : plumbing.Hash) (others : list plumbing.Hash) :
  object.ParentHashes commit = first :: others ->
  (forall parent,
     GetCommit r first = Ok parent ->
     GetChanges r commit
     = match commit_Tree r parent with
       | Err err => Err err
       | Ok parentTree =>
           match commit_Tree r commit with
           | Err err => Err err
           | Ok currentTree => DiffTree r (Some parentTree) (Some currentTree)
           end
       end) /\
  (forall err,
     GetCommit r first = Err err ->
     GetChanges r commit
     = match commit_Tree r commit with
       | Err err' => Err err'
       | Ok currentTree => DiffTree r None (Some currentTree)
       end).
Proof.
  intros Hparents. unfold GetChanges.
  rewrite (commit_Parent_first r commit first others Hparents). split.
  - intros parent ->. destruct (commit_Tree r parent); reflexivity.
  - intros err ->. reflexivity.
Qed.

Lemma FormatChanges_loop_all (r : git_Repository) (changes : list object.Change)
    (s : list string) :
  match FormatChanges_loop r changes s with
  | Ok out =>
      exists patches,
        Forall2 (fun c p => change_Patch r c = Ok p) changes patches /\
        out = s ++ map PatchHTML patches
  | Err err =>
      exists before c after,
        changes = before ++ c :: after /\
        change_Patch r c = Err err /\
        Forall (fun c' => is_Ok (change_Patch r c') = true) before
  end.
Proof.
  revert s. induction changes as [|c changes IH]; intros s; simpl.
  - exists []. split; [constructor|now rewrite app_nil_r].
  - destruct (change_Patch r c) as [p|e] eqn:Hc.
    + specialize (IH (s ++ [PatchHTML p])).
      destruct (FormatChanges_loop r changes (s ++ [PatchHTML p])) as [out|err].
      * destruct IH as (patches & Hall & ->).
        exists (p :: patches). split; [now constructor|].
        now rewrite <- app_assoc.
      * destruct IH as (before & c' & after & -> & Hc' & Hbefore).
        exists (c :: before), c', after. repeat split; [exact Hc'|].
        constructor; [now rewrite Hc|exact Hbefore].
    + exists [], c, changes. repeat split; [exact Hc|constructor].
Qed.

(** X17. The rendering of a change set is all or nothing: it succeeds
    only when the patch of every change can be computed, and is then the
    renderings of the patches in the order of the changes, joined by
    four newlines; the first change whose patch fails gives its error to
    the whole.  The empty change set renders as the empty text. *)
Theorem FormatChanges_all_or_nothing (r : git_Repository) (changes : list object.Change) :
  (forall text, FormatChanges r changes = Ok text ->
     exists patches,
       Forall2 (fun c p => change_Patch r c = Ok p) changes patches /\
       text = strings.Join (map PatchHTML patches) (nl ++ nl ++ nl ++ nl)%string) /\
  (forall err, FormatChanges r changes = Err err ->
     exists before c after,
       changes = before ++ c :: after /\
       change_Patch r c = Err err /\
       Forall (fun c' => is_Ok (change_Patch r c') = true) before) /\
  FormatChanges r [] = Ok "".
Proof.
  pose proof (FormatChanges_loop_all r changes []) as Hloop.
  unfold FormatChanges.
  destruct (FormatChanges_loop r changes []) as [out|e]; repeat split;
    try discriminate; try reflexivity.
  - intros text [= <-]. destruct Hloop as (patches & Hall & ->). eauto.
  - intros err [= <-]. exact Hloop.
Qed.

(** X18. A commit with no parent has a commit page but no patch: where
    its tree can be read, compared with the nil tree and every patch
    rendered, the commit view answers the commit page, status 200, with
    the rendered changes, while the patch view answers the server-error
    page for the same commit. *)
Theorem root_commit_page_but_no_patch (ctx : Context) (cfg : SmithyConfig)
    (repoName commitID : string) (repo : RepositoryWithName git_Repository)
    (commitObj : object.Commit) (tree : object.Tree) (changes : list object.Change)
    (text : string) :
  Keys ctx !! "config" = Some (AnyConfig cfg) ->
  FindRepo cfg repoName = Some repo ->
  commitID <> "" ->
  GetCommit (Repository repo) (plumbing.NewHash commitID) = Ok commitObj ->
  object.NumParents commitObj = 0%Z ->
  commit_Tree (Repository repo) commitObj = Ok tree ->
  DiffTree (Repository repo) None (Some tree) = Ok changes ->
  FormatChanges (Repository repo) changes = Ok text ->
  CommitView [repoName; commitID] ctx
  = Some (tt, respond ctx
                (HTML StatusOK "commit.html"
                   (makeTemplateContext cfg
                      (<["RepoName" := VString repoName]>
                       (<["Commit" := VObjectCommit commitObj]>
                        (<["Changes" := VHTML text]> ∅)))))) /\
  PatchView [repoName; commitID] ctx = Some (tt, respond ctx (ServerErrorPage cfg)).
Proof.
  intros Hcfg Hrepo Hid Hcommit Hroot Htree Hdiff Hformat.
  apply String.eqb_neq in Hid. split.
  - unfold CommitView. enter_view Hcfg. rewrite Hrepo. cbn [nth_error].
    rewrite Hid, Hcommit.
    assert (GetChanges (Repository repo) commitObj = Ok changes) as ->.
    { unfold GetChanges. rewrite (commit_Parent_none _ _ 0 Hroot), Htree. exact Hdiff. }
    rewrite Hformat. reflexivity.
  - unfold PatchView. enter_view Hcfg. rewrite Hrepo. cbn [nth_error].
    rewrite Hid, Hcommit, Hroot. cbn [Z.eqb]. now apply Http500_run.
Qed.

End ChangeProperties.

(** ** Every request is answered *)

Section ServeProperties.

Context `{C : Collaborators}.

Ltac enter_view Hcfg :=
  unfold bind, index; cbn [nth_error ret];
  unfold MustGet_config; rewrite Hcfg.

Ltac answer Hcfg :=
  first [ apply (answered_Http404 _ _ Hcfg)
        | apply (answered_Http500 _ _ Hcfg)
        | apply answered_write ].

Lemma IndexView_answered (ctx : Context) (cfg : SmithyConfig) (urlParts : list string) :
  Keys ctx !! "config" = Some (AnyConfig cfg) -> answered ctx (IndexView urlParts ctx).
Proof. intros Hcfg. unfold IndexView. enter_view Hcfg. answer Hcfg. Qed.

Lemma RepoGitView_answered (ctx : Context) (cfg : SmithyConfig) (urlParts : list string) :
  Keys ctx !! "config" = Some (AnyConfig cfg) -> answered ctx (RepoGitView urlParts ctx).
Proof. intros Hcfg. unfold RepoGitView. enter_view Hcfg. answer Hcfg. Qed.

Lemma RefsView_answered (ctx : Context) (cfg : SmithyConfig) (repoName : string)
    (rest : list string) :
  Keys ctx !! "config" = Some (AnyConfig cfg) ->
  answered ctx (RefsView (repoName :: rest) ctx).
Proof.
  intros Hcfg. unfold RefsView. enter_view Hcfg.
  destruct (FindRepo cfg repoName); answer Hcfg.
Qed.

(** After the default-branch policy the context holds the config still. *)
Lemma after_findMainBranch (ctx : Context) (cfg : SmithyConfig) (repo : git_Repository)
    (k : res (string * plumbing.Hash) -> M unit) :
  Keys ctx !! "config" = Some (AnyConfig cfg) ->
  (forall ctx1 found,
     Keys ctx1 !! "config" = Some (AnyConfig cfg) -> answered ctx1 (k found ctx1)) ->
  answered ctx (bind (findMainBranch repo) k ctx).
Proof.
  intros Hcfg Hk. unfold bind. rewrite findMainBranch_cases.
  destruct (ResolveRevision repo "main") as [h1|e1]; [now apply Hk|].
  destruct (ResolveRevision repo "master") as [h2|e2];
    (eapply answered_after_errors; apply Hk; exact Hcfg).
Qed.

Lemma RepoIndexView_answered (ctx : Context) (cfg : SmithyConfig) (repoName : string)
    (rest : list string) :
  Keys ctx !! "config" = Some (AnyConfig cfg) ->
  answered ctx (RepoIndexView (repoName :: rest) ctx).
Proof.
  intros Hcfg. unfold RepoIndexView. enter_view Hcfg.
  destruct (FindRepo cfg repoName) as [repo|]; [|answer Hcfg].
  destruct (ListBranches (Repository repo)) as [bs [eb|]]; [answer Hcfg|].
  destruct (ListTags (Repository repo)) as [ts [et|]]; [answer Hcfg|].
  apply (after_findMainBranch ctx cfg); [exact Hcfg|].
  intros ctx1 [[main revision]|err] Hcfg1; [|answer Hcfg1].
  destruct (GetCommit (Repository repo) revision); answer Hcfg1.
Qed.

Lemma LogViewDefault_answered (ctx : Context) (cfg : SmithyConfig) (repoName : string)
    (rest : list string) :
  Keys ctx !! "config" = Some (AnyConfig cfg) ->
  answered ctx (LogViewDefault (repoName :: rest) ctx).
Proof.
  intros Hcfg. unfold LogViewDefault. enter_view Hcfg.
  destruct (FindRepo cfg repoName) as [repo|]; [|answer Hcfg].
  apply (after_findMainBranch ctx cfg); [exact Hcfg|].
  intros ctx1 [[main revision]|err] Hcfg1.
  - unfold bind, get_ctx. apply answered_write.
  - unfold bind, ctx_Error.
    apply (answered_after_errors ctx1 [err]). apply (answered_Http404 _ cfg). exact Hcfg1.
Qed.

Lemma CommitView_answered (ctx : Context) (cfg : SmithyConfig) (repoName commitID : string)
    (rest : list string) :
  Keys ctx !! "config" = Some (AnyConfig cfg) ->
  answered ctx (CommitView (repoName :: commitID :: rest) ctx).
Proof.
  intros Hcfg. unfold CommitView. enter_view Hcfg.
  destruct (FindRepo cfg repoName) as [repo|]; [|answer Hcfg]. cbn [nth_error].
  destruct (String.eqb commitID ""); [answer Hcfg|].
  destruct (GetCommit (Repository repo) _) as [commitObj|]; [|answer Hcfg].
  destruct (GetChanges (Repository repo) commitObj) as [changes|]; [|answer Hcfg].
  destruct (FormatChanges (Repository repo) changes); answer Hcfg.
Qed.

Lemma PatchView_answered (ctx : Context) (cfg : SmithyConfig) (repoName commitID : string)
    (rest : list string) :
  Keys ctx !! "config" = Some (AnyConfig cfg) ->
  answered ctx (PatchView (repoName :: commitID :: rest) ctx).
Proof.
  intros Hcfg. unfold PatchView. enter_view Hcfg.
  destruct (FindRepo cfg repoName) as [repo|]; [|answer Hcfg]. cbn [nth_error].
  destruct (String.eqb commitID ""); [answer Hcfg|].
  destruct (GetCommit (Repository repo) _) as [commitObj|]; [|answer Hcfg].
  destruct (object.NumParents commitObj =? 0)%Z; [answer Hcfg|].
  destruct (commit_Parent (Repository repo) commitObj 0) as [parentCommit|];
    [|answer Hcfg].
  destruct (commit_Patch (Repository repo) parentCommit commitObj); [|answer Hcfg].
  destruct (commit_Stats (Repository repo) commitObj); answer Hcfg.
Qed.

Lemma TreeView_at_answered (ctx : Context) (cfg : SmithyConfig) (repoName : string)
    (repo : RepositoryWithName git_Repository) (urlParts : list string)
    (refNameString : string) :
  Keys ctx !! "config" = Some (AnyConfig cfg) ->
  answered ctx (TreeView_at cfg repoName repo urlParts refNameString ctx).
Proof.
  intros Hcfg.
  destruct (TreeView_at_run ctx cfg repoName repo urlParts refNameString Hcfg)
    as (resp & -> & _).
  exists resp, []. now rewrite with_errors_nil.
Qed.

Lemma TreeView_answered (ctx : Context) (cfg : SmithyConfig) (repoName : string)
    (rest : list string) :
  Keys ctx !! "config" = Some (AnyConfig cfg) ->
  answered ctx (TreeView (repoName :: rest) ctx).
Proof.
  intros Hcfg. unfold TreeView. enter_view Hcfg.
  destruct (FindRepo cfg repoName) as [repo|]; [|answer Hcfg].
  destruct rest as [|refNameString rest]; cbn [length Nat.ltb Nat.leb nth_error].
  - apply (after_findMainBranch ctx cfg); [exact Hcfg|].
    intros ctx1 [[name revision]|err] Hcfg1.
    + now apply TreeView_at_answered.
    + unfold bind, ctx_Error.
      apply (answered_after_errors ctx1 [err]). apply (answered_Http404 _ cfg). exact Hcfg1.
  - now apply TreeView_at_answered.
Qed.

(** The log view answers, unless its loop reads a nil commit. *)
Lemma LogView_answered (ctx : Context) (cfg : SmithyConfig) (repoName refNameString : string)
    (rest : list string) :
  Keys ctx !! "config" = Some (AnyConfig cfg) ->
  answered ctx (LogView (repoName :: refNameString :: rest) ctx) \/
  (LogView (repoName :: refNameString :: rest) ctx = None /\
   exists repo revision cIter,
     FindRepo cfg repoName = Some repo /\
     ResolveRevision (Repository repo) refNameString = Ok revision /\
     Log (Repository repo) (mkLogOptions revision LogOrderCommitterTime) = Ok cIter /\
     LogView_loop (Z.to_nat PAGE_SIZE) cIter [] = None).
Proof.
  intros Hcfg. unfold LogView. enter_view Hcfg.
  destruct (FindRepo cfg repoName) as [repo|] eqn:Hrepo; [|left; answer Hcfg].
  cbn [nth_error].
  destruct (ResolveRevision (Repository repo) refNameString) as [revision|] eqn:Hrev;
    [|left; answer Hcfg].
  destruct (Log (Repository repo) _) as [cIter|] eqn:Hlog; [|left; answer Hcfg].
  destruct (LogView_loop (Z.to_nat PAGE_SIZE) cIter []) as [commits|] eqn:Hloop.
  - left. answer Hcfg.
  - right. split; [reflexivity|]. exists repo, revision, cIter. auto.
Qed.

Lemma Dispatch_loop_cases (routes : list Route) (urlPath : string) (ctx : Context) :
  Dispatch_loop routes urlPath ctx = Http404 ctx \/
  exists route m,
    In route routes /\
    regexp.FindStringSubmatch (Pattern route) urlPath = Some m /\
    Dispatch_loop routes urlPath ctx = View route (skipn 1 m) ctx.
Proof.
  induction routes as [|route routes IH]; [now left|].
  cbn [Dispatch_loop].
  destruct (regexp.MatchString (Pattern route) urlPath) eqn:Hmatch; cbn [negb].
  - right. apply FindStringSubmatch_MatchString in Hmatch as (m & Hm).
    exists route, m. rewrite Hm. split; [now left|]. split; reflexivity.
  - destruct IH as [H404|(r & m & Hin & Hm & Hrun)]; [now left|].
    right. exists r, m. split; [now right|]. split; assumption.
Qed.

(** The context once the config middleware has run. *)
Definition configured (cfg : SmithyConfig) (ctx : Context) : Context :=
  mkContext (ctx_Request ctx) (<["config" := AnyConfig cfg]> (Keys ctx))
    (Errors ctx) (Writer ctx).

(** A submatch of [n] groups, after the whole match, has [n] parts. *)
Lemma urlParts_length (re : regexp.Syntax) (url : string) (m : list string) :
  regexp.FindStringSubmatch re url = Some m ->
  length (skipn 1 m) = regexp.NumSubexp re.
Proof.
  intros Hm%FindStringSubmatch_length.
  destruct m as [|whole m]; [discriminate|]. now injection Hm.
Qed.

(** X19. The route patterns all compile, and every request is
    answered with exactly one response: no handler reaches for a part of
    the URL that its pattern does not capture, and the config is always
    there.  The one exception is the log view when the history fails
    within the page with an error that is not the end of the stream:
    then the handler panics. *)
Theorem serve_answers_or_log_panics (cfg : SmithyConfig) (ctx : Context) :
  exists routes,
    CompileRoutes = Some routes /\
    (answered (configured cfg ctx) (serve cfg routes ctx) \/
     (serve cfg routes ctx = None /\
      exists whole repoName refNameString repo revision cIter,
        regexp.FindStringSubmatch logUrl (URL_String (req_URL (ctx_Request ctx)))
        = Some [whole; repoName; refNameString] /\
        FindRepo cfg repoName = Some repo /\
        ResolveRevision (Repository repo) refNameString = Ok revision /\
        Log (Repository repo) (mkLogOptions revision LogOrderCommitterTime) = Ok cIter /\
        LogView_loop (Z.to_nat PAGE_SIZE) cIter [] = None)).
Proof.
  eexists. split; [exact CompileRoutes_routes|].
  assert (Keys (configured cfg ctx) !! "config" = Some (AnyConfig cfg)) as Hcfg
    by apply lookup_insert_eq.
  change (serve cfg _ ctx) with
    (Dispatch [mkRoute indexUrl IndexView; mkRoute repoIndexUrl RepoIndexView;
               mkRoute repoGitUrl RepoGitView; mkRoute refsUrl RefsView;
               mkRoute logDefaultUrl LogViewDefault; mkRoute logUrl LogView;
               mkRoute commitUrl CommitView; mkRoute patchUrl PatchView;
               mkRoute treeRootUrl TreeView; mkRoute treeRootRefUrl TreeView;
               mkRoute treeRootRefPathUrl TreeView]
       (write (Served "static")) (configured cfg ctx)).
  unfold Dispatch, bind, get_ctx.
  change (req_URL (ctx_Request (configured cfg ctx))) with (req_URL (ctx_Request ctx)).
  set (url := URL_String (req_URL (ctx_Request ctx))).
  destruct (strings.HasPrefix url "/static/"); [left; apply answered_write|].
  destruct (Dispatch_loop_cases
              [mkRoute indexUrl IndexView; mkRoute repoIndexUrl RepoIndexView;
               mkRoute repoGitUrl RepoGitView; mkRoute refsUrl RefsView;
               mkRoute logDefaultUrl LogViewDefault; mkRoute logUrl LogView;
               mkRoute commitUrl CommitView; mkRoute patchUrl PatchView;
               mkRoute treeRootUrl TreeView; mkRoute treeRootRefUrl TreeView;
               mkRoute treeRootRefPathUrl TreeView] url (configured cfg ctx))
    as [-> | (route & m & Hin & Hm & ->)].
  { left. apply (answered_Http404 _ cfg Hcfg). }
  pose proof (urlParts_length _ _ _ Hm) as Hlen.
  remember (skipn 1 m) as urlParts eqn:Hparts.
  cbn [In] in Hin.
  repeat (destruct Hin as [<-|Hin]);
    [ .. | destruct Hin ];
    cbn [Pattern View] in *;
    vm_compute in Hlen.
  - left. now apply (IndexView_answered _ cfg).
  - destruct urlParts as [|a rest]; [discriminate Hlen|].
    left. now apply (RepoIndexView_answered _ cfg).
  - left. now apply (RepoGitView_answered _ cfg).
  - destruct urlParts as [|a rest]; [discriminate Hlen|].
    left. now apply (RefsView_answered _ cfg).
  - destruct urlParts as [|a rest]; [discriminate Hlen|].
    left. now apply (LogViewDefault_answered _ cfg).
  - destruct urlParts as [|a [|b [|? ?]]]; try discriminate Hlen.
    destruct m as [|whole m]; [discriminate Hparts|].
    change (skipn 1 (whole :: m)) with m in Hparts. subst m.
    destruct (LogView_answered (configured cfg ctx) cfg a b [] Hcfg)
      as [Hans|(Hnone & repo & revision & cIter & H1 & H2 & H3 & H4)];
      [now left|right].
    split; [exact Hnone|]. exists whole, a, b, repo, revision, cIter. auto.
  - destruct urlParts as [|a [|b rest]]; try discriminate Hlen.
    left. now apply (CommitView_answered _ cfg).
  - destruct urlParts as [|a [|b rest]]; try discriminate Hlen.
    left. now apply (PatchView_answered _ cfg).
  - destruct urlParts as [|a rest]; [discriminate Hlen|].
    left. now apply (TreeView_answered _ cfg).
  - destruct urlParts as [|a rest]; [discriminate Hlen|].
    left. now apply (TreeView_answered _ cfg).
  - destruct urlParts as [|a rest]; [discriminate Hlen|].
    left. now apply (TreeView_answered _ cfg).
Qed.

End ServeProperties.

(** ** Loading the templates *)

Section Templates.

Context `{C : Collaborators}.

(** The embedded file system and package html/template, as [loadTemplates]
    uses them.  [ReadDir] gives the names of the entries in directory
    order; [Parse t name contents] is [t.New(name).Parse(contents)]: the
    template set afterwards, and the error if any. *)
Variables File Template : Type.
Variable templatefiles_ReadDir : string -> res (list string).
Variable templatefiles_Open : string -> res File.
Variable ioutil_ReadAll : File -> res string.
Variable template_New : Template.
Variable Parse : Template -> string -> string -> Template * option error.

Fixpoint loadTemplates_loop (files : list string) (t : Template)
  : Template * option error :=
  match files with
  | [] => (t, None)
  | file :: files =>
      if negb (strings.HasSuffix file ".html") then loadTemplates_loop files t
      else
        match templatefiles_Open ("templates/" ++ file) with
        | Err err => (t, Some err)
        | Ok f =>
            match ioutil_ReadAll f with
            | Err err => (t, Some err)
            | Ok contents =>
                match Parse t file contents with
                | (t, Some err) => (t, Some err)
                | (t, None) => loadTemplates_loop files t
                end
            end
        end
  end.

Definition loadTemplates (smithyConfig : SmithyConfig) : Template * option error :=
  let t := template_New in
  match templatefiles_ReadDir "templates" with
  | Err err => (t, Some err)
  | Ok files => loadTemplates_loop files t
  end.

(** The file [name] of the templates directory has the given contents. *)
Definition holds (file : string * string) : Prop :=
  exists f, templatefiles_Open ("templates/" ++ fst file) = Ok f /\
            ioutil_ReadAll f = Ok (snd file).

(** Parsing the files one after the other into the set [t]. *)
Definition parse_all (files : list (string * string)) (t : Template) : Template :=
  fold_left (fun t file => fst (Parse t (fst file) (snd file))) files t.

Definition is_html (file : string) : bool := strings.HasSuffix file ".html".

Lemma loadTemplates_loop_filter (files : list string) (t : Template) :
  loadTemplates_loop files t = loadTemplates_loop (List.filter is_html files) t.
Proof.
  revert t. induction files as [|file files IH]; intros t; [reflexivity|].
  cbn [loadTemplates_loop List.filter]. unfold is_html at 1.
  destruct (strings.HasSuffix file ".html") eqn:Hhtml; cbn [negb]; [|apply IH].
  cbn [loadTemplates_loop]. rewrite Hhtml. cbn [negb].
  destruct (templatefiles_Open _); [|reflexivity].
  destruct (ioutil_ReadAll _); [|reflexivity].
  destruct (Parse t file _) as [t' [err|]]; [reflexivity|apply IH].
Qed.

Lemma loadTemplates_loop_loaded (files : list string) (t t' : Template) :
  loadTemplates_loop files t = (t', None) ->
  exists loaded,
    map fst loaded = List.filter is_html files /\
    Forall holds loaded /\
    Forall (fun before =>
              forall file, nth_error loaded before = Some file ->
                snd (Parse (parse_all (firstn before loaded) t) (fst file) (snd file))
                = None)
      (seq 0 (length loaded)) /\
    t' = parse_all loaded t.
Proof.
  revert t. induction files as [|file files IH]; intros t Hrun.
  - injection Hrun as <-. exists []. repeat split; constructor.
  - cbn [loadTemplates_loop List.filter] in *. unfold is_html at 1.
    destruct (strings.HasSuffix file ".html") eqn:Hhtml; cbn [negb] in Hrun; [|now apply IH].
    destruct (templatefiles_Open _) as [f|] eqn:Hopen; [|discriminate].
    destruct (ioutil_ReadAll f) as [contents|] eqn:Hread; [|discriminate].
    destruct (Parse t file contents) as [t1 [err|]] eqn:Hparse; [discriminate|].
    destruct (IH t1 Hrun) as (loaded & Hnames & Hholds & Hparsed & ->).
    exists ((file, contents) :: loaded).
    assert (fst (Parse t file contents) = t1) as Ht1 by now rewrite Hparse.
    split; [cbn [map fst]; now rewrite Hnames|].
    split; [constructor; [exists f; now split|exact Hholds]|].
    split; [|cbn [parse_all fold_left fst snd]; now rewrite Ht1].
    cbn [length seq]. constructor.
    + intros entry [= <-]. cbn [firstn parse_all fold_left fst snd]. now rewrite Hparse.
    + rewrite <- seq_shift. apply List.Forall_map.
      revert Hparsed. apply List.Forall_impl. intros before Hbefore entry Hentry.
      cbn [nth_error] in Hentry. cbn [firstn parse_all fold_left fst snd].
      rewrite Ht1. now apply Hbefore.
Qed.

(** X20. Loading the templates looks only at the entries whose name ends
    in [.html]: the other entries of the directory are neither opened nor
    parsed, and the result is the same as if they were not there. *)
Theorem loadTemplates_html_only (smithyConfig : SmithyConfig) (files : list string) :
  templatefiles_ReadDir "templates" = Ok files ->
  loadTemplates smithyConfig = loadTemplates_loop (List.filter is_html files) template_New.
Proof.
  intros Hdir. unfold loadTemplates. rewrite Hdir. apply loadTemplates_loop_filter.
Qed.

(** X21. When loading the templates succeeds, the directory was read,
    every [.html] entry of it was opened and read in full, each one parsed
    without error into the set the earlier ones had built, and the result
    is that set, started from the empty template, with the files parsed
    in directory order. *)
Theorem loadTemplates_success (smithyConfig : SmithyConfig) (t : Template) :
  loadTemplates smithyConfig = (t, None) ->
  exists files loaded,
    templatefiles_ReadDir "templates" = Ok files /\
    map fst loaded = List.filter is_html files /\
    Forall holds loaded /\
    Forall (fun before =>
              forall file, nth_error loaded before = Some file ->
                snd (Parse (parse_all (firstn before loaded) template_New)
                       (fst file) (snd file)) = None)
      (seq 0 (length loaded)) /\
    t = parse_all loaded template_New.
Proof.
  unfold loadTemplates.
  destruct (templatefiles_ReadDir "templates") as [files|]; [|discriminate].
  intros (loaded & H)%loadTemplates_loop_loaded. now exists files, loaded.
Qed.

(** X22. When loading fails after the directory was read, the error is
    that of the first [.html] entry that could not be opened, read or
    parsed, and the entries before it were all parsed. *)
Theorem loadTemplates_first_error (smithyConfig : SmithyConfig) (files : list string)
    (t : Template) (err : error) :
  templatefiles_ReadDir "templates" = Ok files ->
  loadTemplates smithyConfig = (t, Some err) ->
  exists before file after,
    List.filter is_html files = before ++ file :: after /\
    exists t0, loadTemplates_loop before template_New = (t0, None) /\
      match templatefiles_Open ("templates/" ++ file) with
      | Err e => err = e /\ t = t0
      | Ok f =>
          match ioutil_ReadAll f with
          | Err e => err = e /\ t = t0
          | Ok contents => Parse t0 file contents = (t, Some err)
          end
      end.
Proof.
  intros Hdir. unfold loadTemplates. rewrite Hdir, loadTemplates_loop_filter.
  assert (Forall (fun file => is_html file = true) (List.filter is_html files)) as Hhtml.
  { apply List.Forall_forall. intros file Hin. now apply filter_In in Hin. }
  revert Hhtml. generalize (List.filter is_html files) as html. generalize template_New as t1.
  intros t1 html. revert t1. induction html as [|file html IH]; intros t1 Hhtml Hrun.
  - discriminate.
  - apply List.Forall_cons_iff in Hhtml as [Hfile Hhtml].
    cbn [loadTemplates_loop] in Hrun. unfold is_html in Hfile.
    rewrite Hfile in Hrun. cbn [negb] in Hrun.
    assert (forall t0, loadTemplates_loop [] t0 = (t0, None)) as Hnil by reflexivity.
    destruct (templatefiles_Open ("templates/" ++ file)) as [f|e] eqn:Hopen.
    2:{ injection Hrun as <- <-. exists [], file, html. split; [reflexivity|].
        exists t1. split; [apply Hnil|]. now rewrite Hopen. }
    destruct (ioutil_ReadAll f) as [contents|e] eqn:Hread.
    2:{ injection Hrun as <- <-. exists [], file, html. split; [reflexivity|].
        exists t1. split; [apply Hnil|]. now rewrite Hopen, Hread. }
    destruct (Parse t1 file contents) as [t2 [e|]] eqn:Hparse.
    { injection Hrun as <- <-. exists [], file, html. split; [reflexivity|].
      exists t1. split; [apply Hnil|]. now rewrite Hopen, Hread. }
    destruct (IH t2 Hhtml Hrun) as (before & bad & after & -> & t0 & Hbefore & Hbad).
    exists (file :: before), bad, after. split; [reflexivity|].
    exists t0. split; [|exact Hbad].
    cbn [loadTemplates_loop]. rewrite Hfile. cbn [negb].
    now rewrite Hopen, Hread, Hparse.
Qed.

End Templates.

(** ** The further properties on the worked repositories *)

(** A templates directory in memory: a file is its contents, a template
    set the list of the named templates parsed into it; a template with
    no text does not parse. *)
Module TemplateExample.

Definition Open (path : string) : res string :=
  if String.eqb path "templates/base.html" then Ok "<html>"
  else if String.eqb path "templates/index.html" then Ok "{{ .Site.Title }}"
  else if String.eqb path "templates/empty.html" then Ok ""
  else if String.eqb path "templates/notes.txt" then Ok "remember"
  else Err ErrFileNotFound.

Definition ReadAll (f : string) : res string := Ok f.

Definition Parse (t : list (string * string)) (name contents : string)
  : list (string * string) * option error :=
  if String.eqb contents "" then (t, Some (errors_New "template: empty"))
  else (t ++ [(name, contents)], None).

Definition good (dir : string) : res (list string) :=
  Ok ["base.html"; "notes.txt"; "index.html"].

Definition lacking (dir : string) : res (list string) :=
  Ok ["base.html"; "missing.html"; "index.html"].

End TemplateExample.

Section WorkedFurther.

Import Example.

#[local] Existing Instance Mem_collaborators.

Lemma route_parts_are_labels_witness :
  regexp.FindStringSubmatch logUrl "/myrepo/log/v1.0"
  = Some ["/myrepo/log/v1.0"; "myrepo"; "v1.0"] /\
  regexp.string_forallb is_label_char "v1.0" = true.
Proof.
  split; [vm_compute; reflexivity|].
  destruct route_parts_are_labels as (routes & Hroutes & Hparts).
  rewrite CompileRoutes_routes in Hroutes. injection Hroutes as <-.
  apply (Hparts (mkRoute logUrl LogView) "/myrepo/log/v1.0"
           ["/myrepo/log/v1.0"; "myrepo"; "v1.0"]).
  - simpl. tauto.
  - vm_compute. reflexivity.
  - right. reflexivity.
Defined.

Lemma unknown_repository_not_found_witness :
  Forall (fun view : list string -> M unit =>
            view ["nothere"; "main"] (request "/nothere/log/main" "")
            = Some (tt, respond (request "/nothere/log/main" "") (NotFoundPage config)))
    [RepoIndexView; RefsView; LogViewDefault; LogView; CommitView; PatchView; TreeView].
Proof.
  apply (unknown_repository_not_found (request "/nothere/log/main" "") config
           "nothere" ["main"]); reflexivity.
Defined.

Lemma RefsView_never_fails_witness :
  exists branches tags,
    RefsView ["myrepo"] (request "/myrepo/refs" "")
    = Some (tt, respond (request "/myrepo/refs" "")
                  (HTML StatusOK "refs.html"
                     (makeTemplateContext config
                        (<["RepoName" := VString "myrepo"]>
                         (<["Branches" := VReferences branches]>
                          (<["Tags" := VReferences tags]> ∅)))))) /\
    branches
    = sort_Sort ReferenceByName_Less
        [plumbing.mkReference "refs/heads/main" (hash "2");
         plumbing.mkReference "refs/heads/dev" (hash "1")] /\
    tags
    = sort_Sort ReferenceByName_Less [plumbing.mkReference "refs/tags/v1.0" (hash "1")].
Proof.
  destruct (RefsView_never_fails (request "/myrepo/refs" "") config "myrepo" []
              (mkRepositoryWithName "myrepo" myrepo) eq_refl eq_refl)
    as (branches & tags & Hrun & _ & _ & Hbranches & _ & _ & Htags).
  exists branches, tags. split; [exact Hrun|].
  split; [apply Hbranches|apply Htags]; reflexivity.
Defined.

Lemma RepoIndexView_page_witness :
  exists resp errs,
    RepoIndexView ["myrepo"] (request "/myrepo" "")
    = Some (tt, respond (with_errors (request "/myrepo" "") errs) resp) /\
    exists obj readme,
      resp = HTML StatusOK "repo.html" obj /\ obj !! "Readme" = Some (VHTML readme).
Proof.
  destruct (RepoIndexView_page (request "/myrepo" "") config "myrepo" []
              (mkRepositoryWithName "myrepo" myrepo) eq_refl eq_refl)
    as (resp & errs & Hrun & _ & Hpage).
  exists resp, errs. split; [exact Hrun|].
  destruct (Hpage (hash "2") second) as (obj & readme & Hresp & Hreadme & _);
    [reflexivity..|].
  exists obj, readme. split; assumption.
Defined.

Lemma GetReadmeFromCommit_first_name_witness :
  exists f,
    commit_File myrepo first "README.md" = Ok f /\
    GetReadmeFromCommit myrepo first = Ok f.
Proof.
  eexists. split; [reflexivity|].
  apply (proj2 (proj2 (GetReadmeFromCommit_first_name myrepo first))). reflexivity.
Defined.

Lemma TreeView_root_listing_witness :
  exists resp,
    TreeView ["myrepo"; "main"] (request "/myrepo/tree/main" "")
    = Some (tt, respond (request "/myrepo/tree/main" "") resp) /\
    status resp = Some StatusOK /\
    navigation resp = Some (NavRoot (object.Entries root_tree_2)).
Proof.
  apply (TreeView_root_listing (request "/myrepo/tree/main" "") config "myrepo" "main" []
           (mkRepositoryWithName "myrepo" myrepo) (hash "2") second root_tree_2);
    try reflexivity.
  left. reflexivity.
Defined.

Lemma TreeView_directory_listing_witness :
  exists resp,
    TreeView ["myrepo"; "main"; "src"] (request "/myrepo/tree/main/src" "")
    = Some (tt, respond (request "/myrepo/tree/main/src" "") resp) /\
    status resp = Some StatusOK /\
    navigation resp
    = Some (NavDirectory (filepath_Dir "src") "src" (object.Entries src_tree_2)).
Proof.
  apply (TreeView_directory_listing (request "/myrepo/tree/main/src" "") config
           "myrepo" "main" "src" (mkRepositoryWithName "myrepo" myrepo) (hash "2")
           second root_tree_2 src_tree_2
           (object.mkTreeEntry "src" filemode.Dir (hash "0")));
    try reflexivity.
  discriminate.
Defined.

Lemma TreeView_file_page_witness :
  exists obj highlighted,
    TreeView ["myrepo"; "main"; "src/app.go"] (request "/myrepo/tree/main/src/app.go" "")
    = Some (tt, respond (request "/myrepo/tree/main/src/app.go" "")
                  (HTML StatusOK "blob.html" obj)) /\
    navigation (HTML StatusOK "blob.html" obj)
    = Some (NavFile (filepath_Dir "src/app.go")
              (object.mkTreeEntry "app.go" filemode.Regular (hash "c"))
              "package main // v2") /\
    obj !! "ContentsHighlighted" = Some (VHTML highlighted) /\
    highlighted = preformatted "package main // v2".
Proof.
  apply (TreeView_file_page (request "/myrepo/tree/main/src/app.go" "") config
           "myrepo" "main" "src/app.go" (mkRepositoryWithName "myrepo" myrepo) (hash "2")
           second root_tree_2 (object.mkTreeEntry "app.go" filemode.Regular (hash "c"))
           (object.mkFile "src/app.go" filemode.Regular (object.mkBlob (hash "c") 18))
           "package main // v2");
    try reflexivity.
  discriminate.
Defined.

Lemma TreeView_default_branch_witness :
  TreeView ["myrepo"] (request "/myrepo/tree" "")
  = TreeView ["myrepo"; "main"] (request "/myrepo/tree" "").
Proof.
  apply (proj1 (TreeView_default_branch (request "/myrepo/tree" "") config "myrepo"
                  (mkRepositoryWithName "myrepo" myrepo) eq_refl eq_refl) (hash "2")).
  reflexivity.
Defined.

Lemma ReferenceCollector_keeps_all_witness :
  ReferenceCollector
    (map Ok [plumbing.mkReference "refs/heads/main" (hash "2");
             plumbing.mkReference "refs/heads/dev" (hash "1")]
     ++ Err ErrObjectNotFound :: [Ok (plumbing.mkReference "refs/heads/old" (hash "3"))])
  = ([plumbing.mkReference "refs/heads/main" (hash "2");
      plumbing.mkReference "refs/heads/dev" (hash "1")], Some ErrObjectNotFound).
Proof.
  apply (proj2 ReferenceCollector_keeps_all). discriminate.
Defined.

Lemma RepositoryByName_Less_order_witness :
  RepositoryByName_Less (mkRepositoryWithName "myrepo" myrepo)
    (mkRepositoryWithName "big" big) = true \/
  RepositoryByName_Less (mkRepositoryWithName "big" big)
    (mkRepositoryWithName "myrepo" myrepo) = true.
Proof.
  apply (proj1 (proj2 RepositoryByName_Less_order)). discriminate.
Defined.

Lemma LogView_loop_lines_witness :
  exists out,
    LogView_loop 100 [Ok second; Ok first] [] = Some out /\ Forall line_of_commit out.
Proof.
  eexists. split; [reflexivity|].
  apply (LogView_loop_lines 100 [Ok second; Ok first]). reflexivity.
Defined.

Lemma LogView_errors_witness :
  LogView ["myrepo"; "nope"] (request "/myrepo/log/nope" "")
  = Some (tt, respond (request "/myrepo/log/nope" "") (NotFoundPage config)) /\
  LogView ["myrepo"; "broken"] (request "/myrepo/log/broken" "")
  = Some (tt, respond (request "/myrepo/log/broken" "") (ServerErrorPage config)).
Proof.
  split.
  - apply (proj1 (LogView_errors (request "/myrepo/log/nope" "") config "myrepo" "nope" []
                    (mkRepositoryWithName "myrepo" myrepo) eq_refl eq_refl)
             (errors_New "reference not found")).
    reflexivity.
  - apply (proj2 (LogView_errors (request "/myrepo/log/broken" "") config "myrepo"
                    "broken" [] (mkRepositoryWithName "myrepo" myrepo) eq_refl eq_refl)
             (hash "4") ErrObjectNotFound); reflexivity.
Defined.

Lemma LogViewDefault_redirect_witness :
  LogViewDefault ["myrepo"] (request "/myrepo/log" "")
  = Some (tt, respond (request "/myrepo/log" "")
                (Redirect StatusPermanentRedirect "/myrepo/log/main")).
Proof.
  exact (LogViewDefault_redirect (request "/myrepo/log" "") config "myrepo" []
           (mkRepositoryWithName "myrepo" myrepo) eq_refl eq_refl).
Defined.

Lemma GetChanges_first_parent_witness :
  GetChanges myrepo second = DiffTree myrepo (Some root_tree_1) (Some root_tree_2) /\
  GetChanges myrepo shallow = DiffTree myrepo None (Some root_tree_2).
Proof.
  split.
  - exact (proj1 (GetChanges_first_parent myrepo second (hash "1") [] eq_refl)
             first eq_refl).
  - exact (proj2 (GetChanges_first_parent myrepo shallow (hash "9") [] eq_refl)
             ErrObjectNotFound eq_refl).
Defined.

Lemma FormatChanges_all_or_nothing_witness :
  exists changes text,
    GetChanges myrepo first = Ok changes /\
    FormatChanges myrepo changes = Ok text /\
    exists patches,
      Forall2 (fun c p => change_Patch myrepo c = Ok p) changes patches /\
      text = strings.Join (map PatchHTML patches) (nl ++ nl ++ nl ++ nl)%string.
Proof.
  eexists. eexists. split; [reflexivity|]. split; [reflexivity|].
  apply (proj1 (FormatChanges_all_or_nothing myrepo _)). reflexivity.
Defined.

Lemma root_commit_page_but_no_patch_witness :
  exists text,
    CommitView ["myrepo"; id "1"] (request ("/myrepo/commit/" ++ id "1") "")
    = Some (tt, respond (request ("/myrepo/commit/" ++ id "1") "")
                  (HTML StatusOK "commit.html"
                     (makeTemplateContext config
                        (<["RepoName" := VString "myrepo"]>
                         (<["Commit" := VObjectCommit first]>
                          (<["Changes" := VHTML text]> ∅)))))) /\
    PatchView ["myrepo"; id "1"] (request ("/myrepo/commit/" ++ id "1") "")
    = Some (tt, respond (request ("/myrepo/commit/" ++ id "1") "")
                  (ServerErrorPage config)).
Proof.
  eexists.
  eapply (root_commit_page_but_no_patch (request ("/myrepo/commit/" ++ id "1") "")
            config "myrepo" (id "1") (mkRepositoryWithName "myrepo" myrepo) first
            root_tree_1);
    first [reflexivity | discriminate].
Defined.

Lemma loadTemplates_html_only_witness :
  loadTemplates string (list (string * string)) TemplateExample.good
    TemplateExample.Open TemplateExample.ReadAll [] TemplateExample.Parse config
  = loadTemplates_loop string (list (string * string))
      TemplateExample.Open TemplateExample.ReadAll TemplateExample.Parse
      ["base.html"; "index.html"] [].
Proof.
  apply (loadTemplates_html_only string (list (string * string)) TemplateExample.good
           TemplateExample.Open TemplateExample.ReadAll [] TemplateExample.Parse config
           ["base.html"; "notes.txt"; "index.html"]).
  reflexivity.
Defined.

Lemma loadTemplates_success_witness :
  exists files loaded,
    TemplateExample.good "templates" = Ok files /\
    map fst loaded = List.filter is_html files /\
    Forall (holds string TemplateExample.Open TemplateExample.ReadAll) loaded /\
    Forall (fun before =>
              forall file, nth_error loaded before = Some file ->
                snd (TemplateExample.Parse
                       (parse_all (list (string * string)) TemplateExample.Parse
                          (firstn before loaded) [])
                       (fst file) (snd file)) = None)
      (seq 0 (length loaded)) /\
    [("base.html", "<html>"); ("index.html", "{{ .Site.Title }}")]
    = parse_all (list (string * string)) TemplateExample.Parse loaded [].
Proof.
  apply (loadTemplates_success string (list (string * string)) TemplateExample.good
           TemplateExample.Open TemplateExample.ReadAll [] TemplateExample.Parse config).
  reflexivity.
Defined.

Lemma loadTemplates_first_error_witness :
  exists before file after,
    List.filter is_html ["base.html"; "missing.html"; "index.html"]
    = before ++ file :: after /\
    exists t0,
      loadTemplates_loop string (list (string * string))
        TemplateExample.Open TemplateExample.ReadAll TemplateExample.Parse before []
      = (t0, None) /\
      match TemplateExample.Open ("templates/" ++ file) with
      | Err e => ErrFileNotFound = e /\ [("base.html", "<html>")] = t0
      | Ok f =>
          match TemplateExample.ReadAll f with
          | Err e => ErrFileNotFound = e /\ [("base.html", "<html>")] = t0
          | Ok contents =>
              TemplateExample.Parse t0 file contents
              = ([("base.html", "<html>")], Some ErrFileNotFound)
          end
      end.
Proof.
  apply (loadTemplates_first_error string (list (string * string))
           TemplateExample.lacking TemplateExample.Open TemplateExample.ReadAll []
           TemplateExample.Parse config ["base.html"; "missing.html"; "index.html"]);
    reflexivity.
Defined.

End WorkedFurther.
